(** * tlrandom: entropy pipeline of the TL100/TL200 character device

    A shallow embedding of [tlrandomfix.c] (the 'tlrandom' kernel module,
    ver. 2.3): the USB command/response exchange, the SHA-256 conditioning
    with its block serial number, the two continuous health tests and the
    blocking read path, followed by the properties established about them.

    Conventions.  C integers are [Z] with the wrap-around of their type
    written out ([u8], [u16], [u32]).  A [char] buffer is a [list Z] of
    bytes in [0, 256), updated in place with [<[i:=x]>].  The module's
    globals are gathered in the record [Driver]; everything outside the
    module (the USB core, the clock, user memory, the mutex) is the record
    [World].  A C function that returns a status and mutates globals becomes
    a function returning the status together with the new [Driver] and
    [World]. *)

From Stdlib Require Import ZArith List Bool Lia.
From stdpp Require Import base list.
Import ListNotations.
Local Open Scope Z_scope.

(** ** Machine integers *)

Definition wrap (bits z : Z) : Z := z mod 2 ^ bits.
Definition u8 (z : Z) : Z := wrap 8 z.
Definition u16 (z : Z) : Z := wrap 16 z.
Definition u32 (z : Z) : Z := wrap 32 z.

(** [uint32_t] words as they lie in a [char] buffer.  The module runs on
    little-endian hosts (x86); [(uint32_t * )buf] reads and writes four
    bytes, least significant first. *)
Definition bytes_of_word (x : Z) : list Z :=
  [u8 x; u8 (Z.shiftr x 8); u8 (Z.shiftr x 16); u8 (Z.shiftr x 24)].

Definition word_of_bytes (b0 b1 b2 b3 : Z) : Z :=
  u8 b0 + Z.shiftl (u8 b1) 8 + Z.shiftl (u8 b2) 16 + Z.shiftl (u8 b3) 24.

(** [buf[i]] for a byte buffer; a read outside the allocation is undefined
    in C and yields 0 here. *)
Definition byte_at (buf : list Z) (i : Z) : Z :=
  if i <? 0 then 0 else nth (Z.to_nat i) buf 0.

(** [((uint32_t * )buf)[i]] *)
Definition word_at (buf : list Z) (i : Z) : Z :=
  word_of_bytes (byte_at buf (4 * i)) (byte_at buf (4 * i + 1))
                (byte_at buf (4 * i + 2)) (byte_at buf (4 * i + 3)).

(** [buf[i] = x]; a store outside the allocation is undefined in C and is
    dropped here. *)
Definition store_byte (buf : list Z) (i : Z) (x : Z) : list Z :=
  if i <? 0 then buf else <[Z.to_nat i := u8 x]> buf.

(** [((uint32_t * )buf)[i] = x] *)
Definition store_word (buf : list Z) (i : Z) (x : Z) : list Z :=
  let b := bytes_of_word x in
  store_byte (store_byte (store_byte (store_byte buf
    (4 * i) (nth 0 b 0)) (4 * i + 1) (nth 1 b 0))
    (4 * i + 2) (nth 2 b 0)) (4 * i + 3) (nth 3 b 0).

(** [dst[0] = x0; dst[1] = x1; ...] for [dst = (uint32_t * )buf + at] *)
Fixpoint store_words (buf : list Z) (at_ : Z) (xs : list Z) : list Z :=
  match xs with
  | [] => buf
  | x :: xs' => store_words (store_word buf at_ x) (at_ + 1) xs'
  end.

(** ** Status codes

    [SUCCESS] is the module's own name for 0; the others are the kernel's
    errno values, returned negated. *)

Definition SUCCESS : Z := 0.
Definition EPERM : Z := 1.
Definition ENOMEM : Z := 12.
Definition EFAULT : Z := 14.
Definition ENODATA : Z := 61.
Definition ETIMEDOUT : Z := 110.

(** ** What [tlrandom.h] declares

    The header is not part of the sources at hand.  Its sizes, limits and
    test vectors are the fields of [Header]; the functions below are
    written against an arbitrary instance.  The widths of the health-test
    counters are declared there too and are carried as bit counts. *)

Class Header := {
  RND_IN_BUFFSIZE : Z;
  TRND_OUT_BUFFSIZE : Z;
  WORD_SIZE_BYTES : Z;
  MIN_INPUT_NUM_WORDS : Z;
  OUT_NUM_WORDS : Z;
  USB_BUFFER_SIZE : Z;
  USB_READ_MAX_RETRY_CNT : Z;
  USB_READ_TIMEOUT_SECS : Z;
  numConsecFailThreshold : Z;
  testSeq1 : list Z;
  exptHashSeq1 : list Z;
  bits_rct_curRepetitions : Z;
  bits_rct_failureCount : Z;
  bits_apt_curSamples : Z;
  bits_apt_curRepetitions : Z;
  bits_apt_cycleFailures : Z
}.

(** ** SHA-256 conditioning *)

Module Sha256.

(** Modelled from the spec: the macro [ROTR] is declared in the absent
    header.  The spec names the construction (the FIPS 180-4 compression
    function on 32-bit words), where it is the rotation to the right of a
    32-bit word. *)
Definition ROTR (n x : Z) : Z :=
  Z.lor (Z.shiftr x n) (u32 (Z.shiftl x (32 - n))).

(** Modelled from the spec: [maxDataBlockSizeWords] is a constant of the
    absent header; the spec has the message processed in chunks of 16
    words. *)
Definition maxDataBlockSizeWords : Z := 16.

(** The integer cube root, bit by bit from the top. *)
Fixpoint cube_root_bits (bits : nat) (n r : Z) : Z :=
  match bits with
  | O => r
  | S bits' =>
      let r' := r + 2 ^ Z.of_nat bits' in
      cube_root_bits bits' n (if r' * r' * r' <=? n then r' else r)
  end.

Definition cube_root_fraction (p : Z) : Z :=
  u32 (cube_root_bits 36 (p * 2 ^ 96) 0).

Definition first_primes : list Z :=
  [ 2; 3; 5; 7; 11; 13; 17; 19; 23; 29; 31; 37; 41; 43; 47; 53;
    59; 61; 67; 71; 73; 79; 83; 89; 97; 101; 103; 107; 109; 113; 127; 131;
    137; 139; 149; 151; 157; 163; 167; 173; 179; 181; 191; 193; 197; 199;
    211; 223; 227; 229; 233; 239; 241; 251; 257; 263; 269; 271; 277; 281;
    283; 293; 307; 311 ].

(** Modelled from the spec: the table [k] is declared in the absent
    header.  For the FIPS 180-4 construction the spec names, its entries
    are the first 32 bits of the fractional parts of the cube roots of the
    first 64 primes. *)
Definition k : list Z := Eval vm_compute in map cube_root_fraction first_primes.

(** The global [sd].  Its scratch members [a]..[h], [tmp1], [tmp2] are
    written before they are read in every call and are locals here. *)
Record Sha256Data := {
  h0 : Z; h1 : Z; h2 : Z; h3 : Z; h4 : Z; h5 : Z; h6 : Z; h7 : Z;
  w : list Z;
  blockSerialNumber : Z
}.

Definition set_h (sd : Sha256Data) (a b c d e f g h : Z) : Sha256Data :=
  {| h0 := a; h1 := b; h2 := c; h3 := d; h4 := e; h5 := f; h6 := g; h7 := h;
     w := w sd; blockSerialNumber := blockSerialNumber sd |}.

Definition set_w (sd : Sha256Data) (w' : list Z) : Sha256Data :=
  {| h0 := h0 sd; h1 := h1 sd; h2 := h2 sd; h3 := h3 sd;
     h4 := h4 sd; h5 := h5 sd; h6 := h6 sd; h7 := h7 sd;
     w := w'; blockSerialNumber := blockSerialNumber sd |}.

Definition set_serial (sd : Sha256Data) (s : Z) : Sha256Data :=
  {| h0 := h0 sd; h1 := h1 sd; h2 := h2 sd; h3 := h3 sd;
     h4 := h4 sd; h5 := h5 sd; h6 := h6 sd; h7 := h7 sd;
     w := w sd; blockSerialNumber := s |}.

(** [sd.w[t]] and [sd.w[t] = x]; [w] has 64 entries. *)
Definition w_get (ws : list Z) (t : nat) : Z := nth t ws 0.
Definition w_set (ws : list Z) (t : nat) (x : Z) : list Z := <[t := u32 x]> ws.

Definition sha256_initialize (sd : Sha256Data) : Sha256Data :=
  set_h sd 0x6a09e667 0xbb67ae85 0x3c6ef372 0xa54ff53a
           0x510e527f 0x9b05688c 0x1f83d9ab 0x5be0cd19.

Definition sha256_ch (x y z : Z) : Z :=
  Z.lxor (Z.land x y) (Z.land (u32 (Z.lnot x)) z).

Definition sha256_maj (x y z : Z) : Z :=
  Z.lxor (Z.lxor (Z.land x y) (Z.land x z)) (Z.land y z).

Definition sha256_sum0 (x : Z) : Z :=
  Z.lxor (Z.lxor (ROTR 2 x) (ROTR 13 x)) (ROTR 22 x).

Definition sha256_sum1 (x : Z) : Z :=
  Z.lxor (Z.lxor (ROTR 6 x) (ROTR 11 x)) (ROTR 25 x).

Definition sha256_sigma0 (x : Z) : Z :=
  Z.lxor (Z.lxor (ROTR 7 x) (ROTR 18 x)) (Z.shiftr x 3).

Definition sha256_sigma1 (x : Z) : Z :=
  Z.lxor (Z.lxor (ROTR 17 x) (ROTR 19 x)) (Z.shiftr x 10).

(** First loop of [sha256_hashCurrentBlock]: elements 16..63. *)
Definition schedule_step (ws : list Z) (t : nat) : list Z :=
  w_set ws t (sha256_sigma1 (w_get ws (t - 2)) + w_get ws (t - 7)
              + sha256_sigma0 (w_get ws (t - 15)) + w_get ws (t - 16)).

Definition schedule (ws : list Z) : list Z :=
  fold_left schedule_step (seq 16 48) ws.

(** Second loop: one round on the working variables [a]..[h]. *)
Definition Vars : Type := (Z * Z * Z * Z * Z * Z * Z * Z)%type.

Definition round (ws : list Z) (v : Vars) (t : nat) : Vars :=
  let '(a, b, c, d, e, f, g, h) := v in
  let tmp1 := u32 (h + sha256_sum1 e + sha256_ch e f g + nth t k 0 + w_get ws t) in
  let tmp2 := u32 (sha256_sum0 a + sha256_maj a b c) in
  (u32 (tmp1 + tmp2), a, b, c, u32 (d + tmp1), e, f, g).

Definition sha256_hashCurrentBlock (sd : Sha256Data) : Sha256Data :=
  let ws := schedule (w sd) in
  let '(a, b, c, d, e, f, g, h) :=
    fold_left (round ws)
      (seq 0 64)
      (h0 sd, h1 sd, h2 sd, h3 sd, h4 sd, h5 sd, h6 sd, h7 sd) in
  set_h (set_w sd ws)
    (u32 (h0 sd + a)) (u32 (h1 sd + b)) (u32 (h2 sd + c)) (u32 (h3 sd + d))
    (u32 (h4 sd + e)) (u32 (h5 sd + f)) (u32 (h6 sd + g)) (u32 (h7 sd + h)).

(** [for (ui8 = from; ui8 < upto; ui8++) sd.w[ui8] = src[ui8 + srcOffset];] *)
Definition copy_words (ws src : list Z) (srcOffset : Z) (from upto : nat) : list Z :=
  fold_left (fun acc ui8 => w_set acc ui8 (nth (ui8 + Z.to_nat srcOffset) src 0))
            (seq from (upto - from)) ws.

(** [for (; ui8 < upto; ui8++) sd.w[ui8] = 0x0;] *)
Definition zero_words (ws : list Z) (from upto : nat) : list Z :=
  fold_left (fun acc ui8 => w_set acc ui8 0) (seq from (upto - from)) ws.

(** The loop over the complete 16-word blocks. *)
Fixpoint complete_blocks (sd : Sha256Data) (src : list Z)
    (blockNum : Z) (todo : nat) : Sha256Data :=
  match todo with
  | O => sd
  | S todo' =>
      let srcOffset := blockNum * maxDataBlockSizeWords in
      let sd1 := set_w sd (copy_words (w sd) src srcOffset 0 16) in
      complete_blocks (sha256_hashCurrentBlock sd1) src (blockNum + 1) todo'
  end.

(** The closing block that carries only padding and the message size. *)
Definition additional_block (sd : Sha256Data) (needToAddOneMarker : bool)
    (initialMessageSize : Z) : Sha256Data :=
  let ws0 := w sd in
  let '(ws1, ui8) :=
    if needToAddOneMarker then (w_set ws0 0 0x80000000, 1%nat) else (ws0, 0%nat) in
  let ws2 := zero_words ws1 ui8 14 in
  let ws3 := w_set (w_set ws2 14 0) 15 initialMessageSize in
  sha256_hashCurrentBlock (set_w sd ws3).

(** [sha256_generateHash(src, len, dst)]: the status, the new [sd] and,
    when the status is 0, the eight words stored through [dst]. *)
Definition sha256_generateHash (sd : Sha256Data) (src : list Z) (len : Z)
    : Z * Sha256Data * option (list Z) :=
  if len <=? 0 then (-1, sd, None) else
  let sd0 := sha256_initialize sd in
  let initialMessageSize := len * 8 * 4 in
  let numCompleteDataBlocks := len / maxDataBlockSizeWords in
  let reminder := Z.to_nat (len mod maxDataBlockSizeWords) in
  let sd1 := complete_blocks sd0 src 0 (Z.to_nat numCompleteDataBlocks) in
  let srcOffset := numCompleteDataBlocks * maxDataBlockSizeWords in
  let '(sd2, needAdditionalBlock, needToAddOneMarker) :=
    if (0 <? reminder)%nat then
      let ws1 := copy_words (w sd1) src srcOffset 0 reminder in
      let ws2 := w_set ws1 reminder 0x80000000 in
      let ui8 := S reminder in
      if (ui8 <? 15)%nat then
        let ws3 := zero_words ws2 ui8 14 in
        let ws4 := w_set (w_set ws3 14 0) 15 initialMessageSize in
        (sha256_hashCurrentBlock (set_w sd1 ws4), false, false)
      else
        let ws3 := w_set ws2 ui8 0 in
        (sha256_hashCurrentBlock (set_w sd1 ws3), true, false)
    else (sd1, true, true) in
  let sd3 :=
    if needAdditionalBlock
    then additional_block sd2 needToAddOneMarker initialMessageSize
    else sd2 in
  (0, sd3, Some [h0 sd3; h1 sd3; h2 sd3; h3 sd3; h4 sd3; h5 sd3; h6 sd3; h7 sd3]).

(** [inw[MIN_INPUT_NUM_WORDS] = sd.blockSerialNumber++;] on the staging
    array [srcToHash]. *)
Definition sha256_stampSerialNumber `{Header} (sd : Sha256Data)
    (inputBlock : list Z) : Sha256Data * list Z :=
  (set_serial sd (u32 (blockSerialNumber sd + 1)),
   <[Z.to_nat MIN_INPUT_NUM_WORDS := blockSerialNumber sd]> inputBlock).

Definition sha256_initializeSerialNumber (sd : Sha256Data) (initValue : Z)
    : Sha256Data :=
  set_serial sd (u32 initValue).

End Sha256.

(** ** Health tests *)

Module Health.

(** The global [rct] (repetition count test). *)
Record Rct := {
  rct_isInitialized : bool;
  rct_lastSample : Z;
  rct_curRepetitions : Z;
  rct_maxRepetitions : Z;
  rct_failureWindow : Z;
  rct_failureCount : Z;
  rct_statusByte : Z;
  rct_signature : Z
}.

(** The global [apt] (adaptive proportion test). *)
Record Apt := {
  apt_isInitialized : bool;
  apt_firstSample : Z;
  apt_curRepetitions : Z;
  apt_curSamples : Z;
  apt_windowSize : Z;
  apt_cutoffValue : Z;
  apt_cycleFailures : Z;
  apt_statusByte : Z;
  apt_signature : Z
}.

Section Tests.
Context `{Header}.

Definition rct_restart (r : Rct) : Rct :=
  {| rct_isInitialized := false;
     rct_lastSample := rct_lastSample r;
     rct_curRepetitions := 1;
     rct_maxRepetitions := rct_maxRepetitions r;
     rct_failureWindow := 0;
     rct_failureCount := 0;
     rct_statusByte := rct_statusByte r;
     rct_signature := rct_signature r |}.

(** [memset(&rct, 0, sizeof rct)] followed by the three assignments and
    [rct_restart()]. *)
Definition rct_initialize : Rct :=
  rct_restart
    {| rct_isInitialized := false; rct_lastSample := 0;
       rct_curRepetitions := 0; rct_maxRepetitions := 5;
       rct_failureWindow := 0; rct_failureCount := 0;
       rct_statusByte := 0; rct_signature := 1 |}.

Definition rct_sample (r : Rct) (value : Z) : Rct :=
  if negb (rct_isInitialized r) then
    {| rct_isInitialized := true;
       rct_lastSample := value;
       rct_curRepetitions := rct_curRepetitions r;
       rct_maxRepetitions := rct_maxRepetitions r;
       rct_failureWindow := rct_failureWindow r;
       rct_failureCount := rct_failureCount r;
       rct_statusByte := rct_statusByte r;
       rct_signature := rct_signature r |}
  else if rct_lastSample r =? value then
    let reps := wrap bits_rct_curRepetitions (rct_curRepetitions r + 1) in
    if reps >=? rct_maxRepetitions r then
      let fails := wrap bits_rct_failureCount (rct_failureCount r + 1) in
      {| rct_isInitialized := true;
         rct_lastSample := rct_lastSample r;
         rct_curRepetitions := 1;
         rct_maxRepetitions := rct_maxRepetitions r;
         rct_failureWindow := rct_failureWindow r;
         rct_failureCount := fails;
         rct_statusByte :=
           if fails >=? numConsecFailThreshold then
             if rct_statusByte r =? 0 then rct_signature r else rct_statusByte r
           else rct_statusByte r;
         rct_signature := rct_signature r |}
    else
      {| rct_isInitialized := true;
         rct_lastSample := rct_lastSample r;
         rct_curRepetitions := reps;
         rct_maxRepetitions := rct_maxRepetitions r;
         rct_failureWindow := rct_failureWindow r;
         rct_failureCount := rct_failureCount r;
         rct_statusByte := rct_statusByte r;
         rct_signature := rct_signature r |}
  else
    {| rct_isInitialized := true;
       rct_lastSample := value;
       rct_curRepetitions := 1;
       rct_maxRepetitions := rct_maxRepetitions r;
       rct_failureWindow := rct_failureWindow r;
       rct_failureCount := rct_failureCount r;
       rct_statusByte := rct_statusByte r;
       rct_signature := rct_signature r |}.

Definition apt_restart_cycle (a : Apt) : Apt :=
  {| apt_isInitialized := apt_isInitialized a;
     apt_firstSample := apt_firstSample a;
     apt_curRepetitions := apt_curRepetitions a;
     apt_curSamples := apt_curSamples a;
     apt_windowSize := apt_windowSize a;
     apt_cutoffValue := apt_cutoffValue a;
     apt_cycleFailures := 0;
     apt_statusByte := apt_statusByte a;
     apt_signature := apt_signature a |}.

Definition apt_restart (a : Apt) : Apt :=
  apt_restart_cycle
    {| apt_isInitialized := false;
       apt_firstSample := apt_firstSample a;
       apt_curRepetitions := apt_curRepetitions a;
       apt_curSamples := apt_curSamples a;
       apt_windowSize := apt_windowSize a;
       apt_cutoffValue := apt_cutoffValue a;
       apt_cycleFailures := apt_cycleFailures a;
       apt_statusByte := apt_statusByte a;
       apt_signature := apt_signature a |}.

Definition apt_initialize : Apt :=
  apt_restart
    {| apt_isInitialized := false; apt_firstSample := 0;
       apt_curRepetitions := 0; apt_curSamples := 0;
       apt_windowSize := 64; apt_cutoffValue := 5;
       apt_cycleFailures := 0; apt_statusByte := 0; apt_signature := 2 |}.

Definition apt_sample (a : Apt) (value : Z) : Apt :=
  if negb (apt_isInitialized a) then
    {| apt_isInitialized := true;
       apt_firstSample := value;
       apt_curRepetitions := 0;
       apt_curSamples := 0;
       apt_windowSize := apt_windowSize a;
       apt_cutoffValue := apt_cutoffValue a;
       apt_cycleFailures := apt_cycleFailures a;
       apt_statusByte := apt_statusByte a;
       apt_signature := apt_signature a |}
  else
    let samples := wrap bits_apt_curSamples (apt_curSamples a + 1) in
    (* if (++apt.curSamples >= apt.windowSize) apt.isInitialized = false; *)
    let a1 :=
      {| apt_isInitialized := negb (samples >=? apt_windowSize a);
         apt_firstSample := apt_firstSample a;
         apt_curRepetitions := apt_curRepetitions a;
         apt_curSamples := samples;
         apt_windowSize := apt_windowSize a;
         apt_cutoffValue := apt_cutoffValue a;
         apt_cycleFailures := apt_cycleFailures a;
         apt_statusByte := apt_statusByte a;
         apt_signature := apt_signature a |} in
    if apt_firstSample a1 =? value then
      let reps := wrap bits_apt_curRepetitions (apt_curRepetitions a1 + 1) in
      if reps >? apt_cutoffValue a1 then
        let fails := wrap bits_apt_cycleFailures (apt_cycleFailures a1 + 1) in
        {| apt_isInitialized := apt_isInitialized a1;
           apt_firstSample := apt_firstSample a1;
           apt_curRepetitions := reps;
           apt_curSamples := apt_curSamples a1;
           apt_windowSize := apt_windowSize a1;
           apt_cutoffValue := apt_cutoffValue a1;
           apt_cycleFailures := fails;
           apt_statusByte :=
             if fails >=? numConsecFailThreshold then
               if apt_statusByte a1 =? 0 then apt_signature a1 else apt_statusByte a1
             else apt_statusByte a1;
           apt_signature := apt_signature a1 |}
      else
        apt_restart_cycle
          {| apt_isInitialized := apt_isInitialized a1;
             apt_firstSample := apt_firstSample a1;
             apt_curRepetitions := reps;
             apt_curSamples := apt_curSamples a1;
             apt_windowSize := apt_windowSize a1;
             apt_cutoffValue := apt_cutoffValue a1;
             apt_cycleFailures := apt_cycleFailures a1;
             apt_statusByte := apt_statusByte a1;
             apt_signature := apt_signature a1 |}
    else a1.

End Tests.
End Health.

(** ** The world outside the module *)

(** One answer of [usb_bulk_msg] on the bulk-out pipe: its return value
    and the count it stores in [actualcCnt]. *)
Record BulkOut := { out_retval : Z; out_actual : Z }.

(** One answer of [usb_bulk_msg] on the bulk-in pipe: its return value,
    the bytes it leaves in [bulk_in_buffer] ([transferred] is their number)
    and the seconds the call took. *)
Record BulkIn := { in_retval : Z; in_data : list Z; in_secs : Z }.

(** The environment of one run: the clock read by [get_seconds], the
    answers the USB core will give, in order (once a script is used up the
    device stays silent and the call times out), the commands put on the
    wire, whether the wait for the mutex is killed, and the caller's
    buffer behind the [__user] pointer. *)
Record World := {
  now : Z;
  bulk_out_script : list BulkOut;
  bulk_in_script : list BulkIn;
  wire_log : list (list Z);
  lock_killed : bool;
  user_buffer : list Z
}.

Definition usb_bulk_msg_out (wd : World) (snd : list Z) (sizeSnd : Z)
    : Z * Z * World :=
  let sent := take (Z.to_nat sizeSnd) snd in
  match bulk_out_script wd with
  | [] =>
      (- ETIMEDOUT, 0,
       {| now := now wd + 10; bulk_out_script := [];
          bulk_in_script := bulk_in_script wd;
          wire_log := wire_log wd ++ [sent];
          lock_killed := lock_killed wd; user_buffer := user_buffer wd |})
  | r :: rest =>
      (out_retval r, out_actual r,
       {| now := now wd; bulk_out_script := rest;
          bulk_in_script := bulk_in_script wd;
          wire_log := wire_log wd ++ [sent];
          lock_killed := lock_killed wd; user_buffer := user_buffer wd |})
  end.

Definition set_inbound (wd : World) (t : Z) (script : list BulkIn) : World :=
  {| now := t; bulk_out_script := bulk_out_script wd;
     bulk_in_script := script; wire_log := wire_log wd;
     lock_killed := lock_killed wd; user_buffer := user_buffer wd |}.

(** [copy_to_user(buffer + total, src, act)]: the number of bytes that
    could not be copied, and the caller's buffer afterwards. *)
Fixpoint copy_bytes (dst : list Z) (at_ : nat) (src : list Z) : list Z :=
  match src with
  | [] => dst
  | b :: src' => copy_bytes (<[at_ := b]> dst) (S at_) src'
  end.

Definition copy_to_user (wd : World) (total : Z) (src : list Z) : Z * World :=
  let room := Z.of_nat (length (user_buffer wd)) - total in
  let missed := Z.max 0 (Z.of_nat (length src) - Z.max 0 room) in
  (missed,
   {| now := now wd; bulk_out_script := bulk_out_script wd;
      bulk_in_script := bulk_in_script wd; wire_log := wire_log wd;
      lock_killed := lock_killed wd;
      user_buffer := copy_bytes (user_buffer wd) (Z.to_nat total) src |}).

(** ** The module's globals

    The flags, the two buffers with the cursor into the conditioned one,
    the staging array [srcToHash] of [MIN_INPUT_NUM_WORDS + 1] words, the
    hash state and the two tests; of [usbData] the packet size of the
    bulk-in endpoint, which is never 0. *)

Record Driver := {
  isEntropySrcRdy : bool;
  isShutDown : bool;
  isDeviceOpPending : bool;
  isUsbOpPending : bool;
  bulk_in_size : Z;
  buffRndIn : list Z;
  buffTRndOut : list Z;
  srcToHash : list Z;
  curTrngOutIdx : Z;
  sd : Sha256.Sha256Data;
  rct : Health.Rct;
  apt : Health.Apt
}.

Definition set_pending (st : Driver) (dev usb : bool) : Driver :=
  {| isEntropySrcRdy := isEntropySrcRdy st; isShutDown := isShutDown st;
     isDeviceOpPending := dev; isUsbOpPending := usb;
     bulk_in_size := bulk_in_size st; buffRndIn := buffRndIn st;
     buffTRndOut := buffTRndOut st; srcToHash := srcToHash st;
     curTrngOutIdx := curTrngOutIdx st; sd := sd st;
     rct := rct st; apt := apt st |}.

Definition set_buffRndIn (st : Driver) (b : list Z) : Driver :=
  {| isEntropySrcRdy := isEntropySrcRdy st; isShutDown := isShutDown st;
     isDeviceOpPending := isDeviceOpPending st;
     isUsbOpPending := isUsbOpPending st;
     bulk_in_size := bulk_in_size st; buffRndIn := b;
     buffTRndOut := buffTRndOut st; srcToHash := srcToHash st;
     curTrngOutIdx := curTrngOutIdx st; sd := sd st;
     rct := rct st; apt := apt st |}.

Definition set_conditioned (st : Driver) (src out : list Z)
    (s : Sha256.Sha256Data) : Driver :=
  {| isEntropySrcRdy := isEntropySrcRdy st; isShutDown := isShutDown st;
     isDeviceOpPending := isDeviceOpPending st;
     isUsbOpPending := isUsbOpPending st;
     bulk_in_size := bulk_in_size st; buffRndIn := buffRndIn st;
     buffTRndOut := out; srcToHash := src;
     curTrngOutIdx := curTrngOutIdx st; sd := s;
     rct := rct st; apt := apt st |}.

Definition set_cursor (st : Driver) (i : Z) : Driver :=
  {| isEntropySrcRdy := isEntropySrcRdy st; isShutDown := isShutDown st;
     isDeviceOpPending := isDeviceOpPending st;
     isUsbOpPending := isUsbOpPending st;
     bulk_in_size := bulk_in_size st; buffRndIn := buffRndIn st;
     buffTRndOut := buffTRndOut st; srcToHash := srcToHash st;
     curTrngOutIdx := i; sd := sd st;
     rct := rct st; apt := apt st |}.

Definition set_tests (st : Driver) (r : Health.Rct) (a : Health.Apt) : Driver :=
  {| isEntropySrcRdy := isEntropySrcRdy st; isShutDown := isShutDown st;
     isDeviceOpPending := isDeviceOpPending st;
     isUsbOpPending := isUsbOpPending st;
     bulk_in_size := bulk_in_size st; buffRndIn := buffRndIn st;
     buffTRndOut := buffTRndOut st; srcToHash := srcToHash st;
     curTrngOutIdx := curTrngOutIdx st; sd := sd st;
     rct := r; apt := a |}.

(** ** Transport: command out, framed response in *)

Section Transport.
Context `{Header}.

(** The [for] loop of [chip_read_data] over one inbound transfer:
    [i] runs over [bulk_in_buffer], [cnt] over [buff].  [todo] bounds the
    iterations; [i] grows in each, so [transferred] of them are enough. *)
Fixpoint deframe (todo : nat) (size : Z) (data : list Z) (length_ : Z)
    (i : Z) (buff : list Z) (cnt : Z) : list Z * Z :=
  match todo with
  | O => (buff, cnt)
  | S todo' =>
      if i <? Z.of_nat (length data) then
        if i mod size =? 0 then
          (* i++; continue;  and the loop's own i++ *)
          deframe todo' size data length_ (i + 1 + 1) buff cnt
        else
          let buff' := store_byte buff cnt (byte_at data i) in
          let cnt' := cnt + 1 in
          if cnt' >=? length_ then (buff', cnt')
          else deframe todo' size data length_ (i + 1) buff' cnt'
      else (buff, cnt)
  end.

(** What one transfer adds to [buff]: nothing unless it holds more than
    two bytes. *)
Definition absorb_transfer (size : Z) (data : list Z) (length_ : Z)
    (buff : list Z) (cnt : Z) : list Z * Z :=
  if Z.of_nat (length data) >? 2
  then deframe (length data) size data length_ 0 buff cnt
  else (buff, cnt).

(** The [do ... while] loop of [chip_read_data].  Each turn takes the next
    answer of the inbound script; without one the call times out and the
    function returns. *)
Fixpoint chip_read_loop (script : list BulkIn) (st : Driver)
    (start t : Z) (length_ opTimeoutSecs : Z) (buff : list Z) (cnt : Z)
    : Z * list Z * Z * list BulkIn :=
  if isShutDown st then (- EPERM, buff, t, script) else
  match script with
  | [] => (- ETIMEDOUT, buff, t + 50, [])
  | r :: rest =>
      let t' := t + in_secs r in
      if negb (in_retval r =? 0) then (in_retval r, buff, t', rest) else
      let transferred := Z.of_nat (length (in_data r)) in
      if transferred >? USB_BUFFER_SIZE then (- EFAULT, buff, t', rest) else
      let secsWaited := t' - start in
      let '(buff', cnt') :=
        absorb_transfer (bulk_in_size st) (in_data r) length_ buff cnt in
      if (cnt' <? length_) && (secsWaited <? opTimeoutSecs)
      then chip_read_loop rest st start t' length_ opTimeoutSecs buff' cnt'
      else if negb (cnt' =? length_) then (- ETIMEDOUT, buff', t', rest)
      else (SUCCESS, buff', t', rest)
  end.

Definition chip_read_data (st : Driver) (wd : World) (buff : list Z)
    (length_ opTimeoutSecs : Z) : Z * list Z * World :=
  let '(retval, buff', t, rest) :=
    chip_read_loop (bulk_in_script wd) st (now wd) (now wd)
                   length_ opTimeoutSecs buff 0 in
  (retval, buff', set_inbound wd t rest).

(** How the [for] loop of [snd_rcv_usb_data] is left. *)
Inductive Attempts :=
  | Returned (retval : Z)
  | Exited (retry retval : Z).

Fixpoint exchange_loop (todo : nat) (st : Driver) (wd : World)
    (snd : list Z) (sizeSnd : Z) (rcv : list Z) (sizeRcv opTimeoutSecs : Z)
    (retry retval : Z) : Attempts * list Z * World :=
  match todo with
  | O => (Exited retry retval, rcv, wd)
  | S todo' =>
      if retry <? USB_READ_MAX_RETRY_CNT then
        if isShutDown st then (Returned (- EPERM), rcv, wd) else
        let '(sent, actualcCnt, wd1) := usb_bulk_msg_out wd snd sizeSnd in
        if (sent =? SUCCESS) && (actualcCnt =? sizeSnd) then
          let '(got, rcv', wd2) :=
            chip_read_data st wd1 rcv (sizeRcv + 1) opTimeoutSecs in
          if got =? SUCCESS then
            if negb (byte_at rcv' sizeRcv =? 0) then
              exchange_loop todo' st wd2 snd sizeSnd rcv' sizeRcv
                            opTimeoutSecs (retry + 1) (- EFAULT)
            else (Exited retry got, rcv', wd2)              (* break *)
          else
            exchange_loop todo' st wd2 snd sizeSnd rcv' sizeRcv
                          opTimeoutSecs (retry + 1) got
        else                                               (* continue *)
          exchange_loop todo' st wd1 snd sizeSnd rcv sizeRcv
                        opTimeoutSecs (retry + 1) sent
      else (Exited retry retval, rcv, wd)
  end.

Definition snd_rcv_usb_data (st : Driver) (wd : World) (snd : list Z)
    (sizeSnd : Z) (rcv : list Z) (sizeRcv opTimeoutSecs : Z)
    : Z * list Z * World :=
  let '(how, rcv', wd') :=
    exchange_loop (Z.to_nat USB_READ_MAX_RETRY_CNT) st wd snd sizeSnd
                  rcv sizeRcv opTimeoutSecs 0 SUCCESS in
  match how with
  | Returned retval => (retval, rcv', wd')
  | Exited retry retval =>
      if retry >=? USB_READ_MAX_RETRY_CNT
      then (- ETIMEDOUT, rcv', wd') else (retval, rcv', wd')
  end.

End Transport.

(** ** Refill and read *)

Section Refill.
Context `{Header}.

(** [for (j = 0; j < MIN_INPUT_NUM_WORDS; j++)
       srcToHash[j] = ((uint32_t * )buffRndIn)[i+j];] *)
Definition load_subblock (rnd src : list Z) (i : Z) : list Z :=
  fold_left (fun acc j => <[j := word_at rnd (i + Z.of_nat j)]> acc)
            (seq 0 (Z.to_nat MIN_INPUT_NUM_WORDS)) src.

(** One turn of the conditioning loop of [rcv_rnd_bytes]; [dst] is the
    word offset of the output pointer in [buffTRndOut]. *)
Definition condition_subblock (st : Driver) (i dst : Z) : Driver :=
  let src := load_subblock (buffRndIn st) (srcToHash st) i in
  let '(sd1, stamped) := Sha256.sha256_stampSerialNumber (sd st) src in
  let '(_, sd2, digest) :=
    Sha256.sha256_generateHash sd1 stamped (MIN_INPUT_NUM_WORDS + 1) in
  let out :=
    match digest with
    | Some ws => store_words (buffTRndOut st) dst ws
    | None => buffTRndOut st
    end in
  set_conditioned st stamped out sd2.

(** [for (i = 0; i < RND_IN_BUFFSIZE / WORD_SIZE_BYTES;
          i += MIN_INPUT_NUM_WORDS) { ...; dst += OUT_NUM_WORDS; }]
    [todo] bounds the turns: with a positive step the bound of the loop
    is enough. *)
Fixpoint condition_loop (todo : nat) (i dst : Z) (st : Driver) : Driver :=
  match todo with
  | O => st
  | S todo' =>
      if i <? Z.quot RND_IN_BUFFSIZE WORD_SIZE_BYTES then
        condition_loop todo' (i + MIN_INPUT_NUM_WORDS) (dst + OUT_NUM_WORDS)
                       (condition_subblock st i dst)
      else st
  end.

(** [for (i = 0; i < TRND_OUT_BUFFSIZE; i++)
       { rct_sample(buffTRndOut[i]); apt_sample(buffTRndOut[i]); }] *)
Definition sample_byte (st : Driver) (i : nat) : Driver :=
  let b := u8 (byte_at (buffTRndOut st) (Z.of_nat i)) in
  set_tests st (Health.rct_sample (rct st) b) (Health.apt_sample (apt st) b).

Definition sample_loop (st : Driver) : Driver :=
  fold_left sample_byte (seq 0 (Z.to_nat TRND_OUT_BUFFSIZE)) st.

(** The command of [rcv_rnd_bytes] and its exchange:
    [snd_rcv_usb_data(usbData->bulk_out_buffer, 3, buffRndIn,
                      RND_IN_BUFFSIZE, USB_READ_TIMEOUT_SECS)]. *)
Definition request_raw_block (st : Driver) (wd : World) : Z * list Z * World :=
  let byteCnt := u16 RND_IN_BUFFSIZE in
  let lowByteCount := u8 (Z.land byteCnt 0x00ff) in
  let highByteCount := u8 (Z.shiftr byteCnt 8) in
  let bulk_out_buffer := [120 (* 'x' *); lowByteCount; highByteCount] in
  snd_rcv_usb_data st wd bulk_out_buffer 3 (buffRndIn st)
                   RND_IN_BUFFSIZE USB_READ_TIMEOUT_SECS.

Definition rcv_rnd_bytes (st : Driver) (wd : World) : Z * Driver * World :=
  if negb (isEntropySrcRdy st) || isShutDown st then (- EPERM, st, wd) else
  let st1 := set_pending st (isDeviceOpPending st) true in
  let '(retval, rnd, wd1) := request_raw_block st1 wd in
  let st2 := set_buffRndIn st1 rnd in
  if retval =? SUCCESS then
    let st3 :=
      set_tests st2 (Health.rct_restart (rct st2))
                    (Health.apt_restart (apt st2)) in
    let st4 :=
      condition_loop (Z.to_nat (Z.quot RND_IN_BUFFSIZE WORD_SIZE_BYTES))
                     0 0 st3 in
    let st5 := set_cursor st4 0 in
    let st6 := sample_loop st5 in
    let retval' :=
      if negb (Health.rct_statusByte (rct st6) =? SUCCESS) then - EPERM
      else if negb (Health.apt_statusByte (apt st6) =? SUCCESS) then - EPERM
      else retval in
    (retval', set_pending st6 (isDeviceOpPending st6) false, wd1)
  else
    (retval, set_pending st2 (isDeviceOpPending st2) false, wd1).

Definition get_entropy_bytes (st : Driver) (wd : World) : Z * Driver * World :=
  if curTrngOutIdx st >=? TRND_OUT_BUFFSIZE
  then rcv_rnd_bytes st wd
  else (SUCCESS, st, wd).

(** [buffTRndOut + curTrngOutIdx], [act] bytes of it. *)
Definition chunk (st : Driver) (act : Z) : list Z :=
  take (Z.to_nat act) (drop (Z.to_nat (curTrngOutIdx st)) (buffTRndOut st)).

(** [act = TRND_OUT_BUFFSIZE - curTrngOutIdx;
     if (act > (length - total)) act = (length - total);]
    The [size_t] values stay within range: [act] is taken when the cursor
    is below [TRND_OUT_BUFFSIZE] and [total] never passes [length]. *)
Definition take_amount (st : Driver) (length_ total : Z) : Z :=
  let act := TRND_OUT_BUFFSIZE - curTrngOutIdx st in
  if act >? length_ - total then length_ - total else act.

(** How one turn of the read loop ends: by [break] with the value of
    [retval], or at the loop test with the new [total]. *)
Inductive Turn :=
  | Break (retval : Z)
  | Served (total : Z).

(** The body of the [do ... while] loop of [device_read]. *)
Definition read_turn (st : Driver) (wd : World) (length_ total : Z)
    : Turn * Driver * World :=
  let '(retval, st1, wd1) := get_entropy_bytes st wd in
  if retval =? SUCCESS then
    let act := take_amount st1 length_ total in
    let '(missed, wd2) := copy_to_user wd1 total (chunk st1 act) in
    if negb (missed =? 0) then (Break (- EFAULT), st1, wd2)
    else (Served (total + act),
          set_cursor st1 (curTrngOutIdx st1 + act), wd2)
  else (Break retval, st1, wd1).

(** [do { ... } while (total < length);]  [todo] bounds the turns; [None]
    stands for a loop that has not ended within the bound. *)
Fixpoint read_loop (todo : nat) (st : Driver) (wd : World)
    (length_ total : Z) : option (Z * Driver * World) :=
  match todo with
  | O => None
  | S todo' =>
      match read_turn st wd length_ total with
      | (Break retval, st', wd') => Some (retval, st', wd')
      | (Served total', st', wd') =>
          if total' <? length_
          then read_loop todo' st' wd' length_ total'
          else Some (total', st', wd')
      end
  end.

Definition device_read (st : Driver) (wd : World) (length_ : Z)
    : option (Z * Driver * World) :=
  if lock_killed wd then Some (- EPERM, st, wd) else
  let done r :=
    let '(retval, st', wd') := r in
    (retval, set_pending st' false (isUsbOpPending st'), wd') in
  if negb (isEntropySrcRdy st) || isShutDown st
  then Some (done (- ENODATA, st, wd))
  else
    let st1 := set_pending st true (isUsbOpPending st) in
    option_map done (read_loop (S (Z.to_nat length_)) st1 wd length_ 0).

End Refill.

(** ** Start-up *)

Section Startup.
Context `{Header}.

(** [memcmp(cs, ct, count)] as in the kernel's [lib/string.c]: the
    difference of the first pair of bytes that differ among the first
    [count], 0 when there is none. *)
Fixpoint memcmp (cs ct : list Z) (count : nat) : Z :=
  match count with
  | O => 0
  | S count' =>
      let a := hd 0 cs in
      let b := hd 0 ct in
      if a =? b then memcmp (tl cs) (tl ct) count' else a - b
  end.

(** The [len] words of a table read through a [uint32_t * ]. *)
Definition words_of (image : list Z) (len : nat) : list Z :=
  map (fun i => word_at image (Z.of_nat i)) (seq 0 len).

(** The bytes of a word array. *)
Definition image_of (ws : list Z) : list Z := flat_map bytes_of_word ws.

(** [testSeq1] and [exptHashSeq1] are tables of the header; they are kept
    as their bytes in memory, which is all [sha256_selfTest] uses of them. *)
Definition sha256_selfTest (s : Sha256.Sha256Data) : Z * Sha256.Sha256Data :=
  let '(retVal, s', results) :=
    Sha256.sha256_generateHash s (words_of testSeq1 11) 11 in
  match results with
  | Some ws =>
      if retVal =? 0 then (memcmp (image_of ws) exptHashSeq1 8, s')
      else (retVal, s')
  | None => (retVal, s')
  end.

(** What the kernel answers during [init_tlrandom]: the result of
    [init_char_dev], the two buffers [kmalloc] hands out (if any) and the
    result of [usb_register]. *)
Record Boot := {
  char_dev_result : Z;
  rnd_in_alloc : option (list Z);
  trnd_out_alloc : option (list Z);
  usb_register_result : Z
}.

(** [init_tlrandom] from the globals as loaded. *)
Definition init_tlrandom (st : Driver) (bt : Boot) : Z * Driver :=
  let st1 := set_tests st Health.rct_initialize Health.apt_initialize in
  let s1 := Sha256.sha256_initializeSerialNumber (sd st1) 413145 in
  let '(test, s2) := sha256_selfTest s1 in
  let st2 := set_conditioned st1 (srcToHash st1) (buffTRndOut st1) s2 in
  if negb (test =? SUCCESS) then (- EPERM, st2) else
  if negb (char_dev_result bt =? SUCCESS) then (char_dev_result bt, st2) else
  match rnd_in_alloc bt with
  | None => (- ENOMEM, st2)
  | Some rnd =>
      let st3 := set_buffRndIn st2 rnd in
      match trnd_out_alloc bt with
      | None => (- ENOMEM, st3)
      | Some out =>
          let st4 := set_conditioned st3 (srcToHash st3) out (sd st3) in
          if usb_register_result bt <? 0
          then (usb_register_result bt, st4)
          else (SUCCESS, st4)
      end
  end.

End Startup.

(** ** A bench configuration

    A small instance of the header, used to run the functions above: sub-blocks
    of two words, one raw block of two sub-blocks, hence a conditioned
    block of 64 bytes. *)

Definition bench_testSeq1 : list Z :=
  image_of (map (fun i => u32 (0x01020304 * (Z.of_nat i + 1))) (seq 0 11)).

Definition bench_exptHashSeq1 : list Z :=
  image_of [0xf3d1f93d; 0x6a062829; 0xb2a51980; 0x21ad7e43;
            0xe1568aa5; 0x5fb32f7f; 0x843b0538; 0xd7b7834e].

#[local] Instance bench : Header := {|
  RND_IN_BUFFSIZE := 16;
  TRND_OUT_BUFFSIZE := 64;
  WORD_SIZE_BYTES := 4;
  MIN_INPUT_NUM_WORDS := 2;
  OUT_NUM_WORDS := 8;
  USB_BUFFER_SIZE := 64;
  USB_READ_MAX_RETRY_CNT := 3;
  USB_READ_TIMEOUT_SECS := 5;
  numConsecFailThreshold := 5;
  testSeq1 := bench_testSeq1;
  exptHashSeq1 := bench_exptHashSeq1;
  bits_rct_curRepetitions := 32;
  bits_rct_failureCount := 16;
  bits_apt_curSamples := 16;
  bits_apt_curRepetitions := 16;
  bits_apt_cycleFailures := 16
|}.

Definition sd_loaded : Sha256.Sha256Data :=
  {| Sha256.h0 := 0; Sha256.h1 := 0; Sha256.h2 := 0; Sha256.h3 := 0;
     Sha256.h4 := 0; Sha256.h5 := 0; Sha256.h6 := 0; Sha256.h7 := 0;
     Sha256.w := repeat 0 64%nat; Sha256.blockSerialNumber := 0 |}.

(** The globals of a loaded module with the bench header, before
    [init_tlrandom]: no device, nothing pending, an exhausted cursor. *)
Definition bench_loaded : Driver :=
  {| isEntropySrcRdy := false; isShutDown := false;
     isDeviceOpPending := false; isUsbOpPending := false;
     bulk_in_size := 8;
     buffRndIn := []; buffTRndOut := [];
     srcToHash := repeat 0 3%nat;
     curTrngOutIdx := 64;
     sd := sd_loaded;
     rct := Health.rct_initialize; apt := Health.apt_initialize |}.

Definition bench_boot : Boot :=
  {| char_dev_result := 0;
     rnd_in_alloc := Some (repeat 0 17%nat);
     trnd_out_alloc := Some (repeat 0 64%nat);
     usb_register_result := 0 |}.

(** After [init_tlrandom] and [usb_probe] (which sets [isEntropySrcRdy]
    and the packet size of the bulk-in endpoint). *)
Definition bench_ready : Driver :=
  let st := snd (init_tlrandom bench_loaded bench_boot) in
  {| isEntropySrcRdy := true; isShutDown := isShutDown st;
     isDeviceOpPending := isDeviceOpPending st;
     isUsbOpPending := isUsbOpPending st;
     bulk_in_size := 8; buffRndIn := buffRndIn st;
     buffTRndOut := buffTRndOut st; srcToHash := srcToHash st;
     curTrngOutIdx := curTrngOutIdx st; sd := sd st;
     rct := rct st; apt := apt st |}.

(** A device that answers one command as the protocol says: packets of 8
    bytes, two status bytes in front of 6 payload bytes each; the 16 bytes
    of [raw] and the closing status byte, in two transfers. *)
Definition answer (raw : list Z) (status : Z) : list BulkIn :=
  let p i := byte_at raw i in
  [ {| in_retval := 0; in_secs := 0;
       in_data := [1; 96; p 0; p 1; p 2; p 3; p 4; p 5;
                   1; 96; p 6; p 7; p 8; p 9; p 10; p 11] |};
    {| in_retval := 0; in_secs := 1;
       in_data := [1; 96; p 12; p 13; p 14; p 15; status] |} ].

Definition raw_a : list Z := map Z.of_nat (seq 7 16).

(** A raw block whose conditioned block holds its first byte (183) ten
    more times, which the adaptive proportion test counts as five cycle
    failures. *)
Definition raw_weak : list Z :=
  [105; 19; 26; 0; 0; 0; 0; 0; 147; 200; 14; 0; 0; 0; 0; 0].

Definition sent_ok : BulkOut := {| out_retval := 0; out_actual := 3 |}.

Definition bench_world (outs : list BulkOut) (ins : list BulkIn)
    (room : nat) : World :=
  {| now := 1000; bulk_out_script := outs; bulk_in_script := ins;
     wire_log := []; lock_killed := false; user_buffer := repeat 0 room |}.


(** ** Reference functions and the statements examined below *)

(** [buff[at] = x0; buff[at+1] = x1; ...] *)
Fixpoint store_bytes (buff : list Z) (at_ : Z) (xs : list Z) : list Z :=
  match xs with
  | [] => buff
  | x :: xs' => store_bytes (store_byte buff at_ x) (at_ + 1) xs'
  end.

(** The bytes of a transfer, from offset [i] on, that lie at an offset
    [j] with [keep (j mod size)]. *)
Fixpoint select_from (keep : Z -> bool) (size i : Z) (data : list Z) : list Z :=
  match data with
  | [] => []
  | b :: rest =>
      if keep (i mod size)
      then b :: select_from keep size (i + 1) rest
      else select_from keep size (i + 1) rest
  end.

(** A transfer without the one byte at every multiple of the packet size. *)
Definition strip_one (size : Z) (data : list Z) : list Z :=
  select_from (fun r => negb (r =? 0)) size 0 data.

(** A transfer without the two bytes at the head of every packet. *)
Definition strip_two (size : Z) (data : list Z) : list Z :=
  select_from (fun r => 2 <=? r) size 0 data.

(** "Every inbound transfer of more than two bytes adds its bytes to the
    accumulator with one byte removed per packet." *)
Definition deframing_strips_one_byte : Prop :=
  forall (size : Z) (data buff : list Z) (length_ cnt : Z),
    0 < size -> (2 < length data)%nat -> 0 <= cnt ->
    cnt + Z.of_nat (length (strip_one size data)) <= length_ ->
    absorb_transfer size data length_ buff cnt
    = (store_bytes buff cnt (strip_one size data),
       cnt + Z.of_nat (length (strip_one size data))).

(** "A failing refill leaves the conditioned block and the cursor as they
    were." *)
Definition refill_atomic_on_error `{Header} : Prop :=
  forall (st : Driver) (wd : World),
    fst (fst (rcv_rnd_bytes st wd)) <> SUCCESS ->
    buffTRndOut (snd (fst (rcv_rnd_bytes st wd))) = buffTRndOut st
    /\ curTrngOutIdx (snd (fst (rcv_rnd_bytes st wd))) = curTrngOutIdx st.

(** "When the repetitions of the first sample exceed the cutoff, the
    repetition counter starts afresh." *)
Definition apt_excess_restarts_counter `{Header} : Prop :=
  exists fresh : Z, 0 <= fresh <= 1 /\
    forall (a : Health.Apt) (v : Z),
      Health.apt_isInitialized a = true ->
      v = Health.apt_firstSample a ->
      wrap bits_apt_curRepetitions (Health.apt_curRepetitions a + 1)
        > Health.apt_cutoffValue a ->
      Health.apt_curRepetitions (Health.apt_sample a v) = fresh.




(** The number of turns the conditioning loop takes from index [i]. *)
Fixpoint condition_turns `{Header} (todo : nat) (i : Z) : nat :=
  match todo with
  | O => 0
  | S todo' =>
      if i <? Z.quot RND_IN_BUFFSIZE WORD_SIZE_BYTES
      then S (condition_turns todo' (i + MIN_INPUT_NUM_WORDS))
      else 0
  end.


(** The state in which the adaptive proportion test cuts in: 183 has been
    the first sample of the window and has come back five times. *)
Definition apt_at_cutoff : Health.Apt :=
  {| Health.apt_isInitialized := true; Health.apt_firstSample := 183;
     Health.apt_curRepetitions := 5; Health.apt_curSamples := 20;
     Health.apt_windowSize := 64; Health.apt_cutoffValue := 5;
     Health.apt_cycleFailures := 0; Health.apt_statusByte := 0;
     Health.apt_signature := 2 |}.

(** A header whose expected digest agrees with the digest of [testSeq1]
    in its first eight bytes only. *)
Definition skewed : Header := {|
  RND_IN_BUFFSIZE := 16;
  TRND_OUT_BUFFSIZE := 64;
  WORD_SIZE_BYTES := 4;
  MIN_INPUT_NUM_WORDS := 2;
  OUT_NUM_WORDS := 8;
  USB_BUFFER_SIZE := 64;
  USB_READ_MAX_RETRY_CNT := 3;
  USB_READ_TIMEOUT_SECS := 5;
  numConsecFailThreshold := 5;
  testSeq1 := bench_testSeq1;
  exptHashSeq1 := take 8 bench_exptHashSeq1 ++ repeat 0 24%nat;
  bits_rct_curRepetitions := 32;
  bits_rct_failureCount := 16;
  bits_apt_curSamples := 16;
  bits_apt_curRepetitions := 16;
  bits_apt_cycleFailures := 16
|}.

(** A health test has latched. *)
Definition latched (st : Driver) : Prop :=
  Health.rct_statusByte (rct st) <> 0 \/ Health.apt_statusByte (apt st) <> 0.

(** The status of the exchange inside [rcv_rnd_bytes]. *)
Definition exchange_status `{Header} (st : Driver) (wd : World) : Z :=
  fst (fst (request_raw_block (set_pending st (isDeviceOpPending st) true) wd)).

(** The cursor lies within the conditioned block. *)
Definition cursor_in_block `{Header} (st : Driver) : Prop :=
  0 <= curTrngOutIdx st <= TRND_OUT_BUFFSIZE.


(** Three commands in a row answered in full, each with the closing
    status byte 1. *)
Definition world_bad_status : World :=
  bench_world [sent_ok; sent_ok; sent_ok]
              (answer raw_a 1 ++ answer raw_a 1 ++ answer raw_a 1) 0.

(** One command answered with [raw_weak]; the caller's buffer has room
    for 64 bytes. *)
Definition world_weak : World :=
  bench_world [sent_ok] (answer raw_weak 0) 64.

(** One command answered with [raw_a], then a silent device; the caller
    asks for 100 bytes. *)
Definition world_one_block : World :=
  bench_world [sent_ok] (answer raw_a 0) 100.


(** ** Plugging in, opening, unloading

    The parts of the module around the entropy path: the USB probe and
    disconnect handlers, the file operations besides [read], and the wait
    of the unload handler. *)

Definition ENODEV : Z := 19.

(** The kernel's [USB_DIR_IN], [USB_ENDPOINT_XFERTYPE_MASK] and
    [USB_ENDPOINT_XFER_BULK]. *)
Definition USB_DIR_IN : Z := 0x80.
Definition USB_ENDPOINT_XFERTYPE_MASK : Z := 0x03.
Definition USB_ENDPOINT_XFER_BULK : Z := 2.

(** An endpoint descriptor of the interface, as far as [usb_probe] reads
    it. *)
Record Endpoint := {
  bEndpointAddress : Z;
  bmAttributes : Z;
  wMaxPacketSize : Z
}.

(** The object behind [usbData]: the two endpoint addresses, the packet
    size of the bulk-in endpoint and, for each buffer, the size it was
    allocated with ([None] for [NULL]).  [Driver] carries the packet size
    the entropy path works with; [usb_probe] sets both. *)
Record UsbData := {
  ud_bulk_in_endpointAddr : Z;
  ud_bulk_out_endpointAddr : Z;
  ud_bulk_in_size : Z;
  ud_bulk_in_buffer : option Z;
  ud_bulk_out_buffer : option Z
}.

(** What the kernel does during one [usb_probe]: whether the wait for the
    mutex is killed, the endpoints of the interface, and whether the
    [n]-th [kmalloc] of the call succeeds. *)
Record Plug := {
  plug_lock_killed : bool;
  plug_endpoints : list Endpoint;
  plug_kmalloc : nat -> bool
}.

Definition is_bulk (e : Endpoint) : bool :=
  Z.land (bmAttributes e) USB_ENDPOINT_XFERTYPE_MASK =? USB_ENDPOINT_XFER_BULK.

Definition is_in (e : Endpoint) : bool :=
  negb (Z.land (bEndpointAddress e) USB_DIR_IN =? 0).

Section Plugging.
Context `{Header}.

(** The loop of [usb_probe] over the endpoints; [calls] counts the
    [kmalloc]s made so far.  The status is that of [retval] at the end of
    the loop. *)
Fixpoint probe_endpoints (eps : list Endpoint) (km : nat -> bool)
    (calls : nat) (u : UsbData) : Z * UsbData :=
  match eps with
  | [] => (SUCCESS, u)
  | e :: rest =>
      let '(r1, u1, calls1) :=
        if (ud_bulk_in_endpointAddr u =? 0) && is_in e && is_bulk e then
          let buffer := if km calls then Some USB_BUFFER_SIZE else None in
          (if km calls then SUCCESS else - ENOMEM,
           {| ud_bulk_in_endpointAddr := bEndpointAddress e;
              ud_bulk_out_endpointAddr := ud_bulk_out_endpointAddr u;
              ud_bulk_in_size := wMaxPacketSize e;
              ud_bulk_in_buffer := buffer;
              ud_bulk_out_buffer := ud_bulk_out_buffer u |},
           S calls)
        else (SUCCESS, u, calls) in
      if negb (r1 =? SUCCESS) then (r1, u1) else
      let '(r2, u2, calls2) :=
        if (ud_bulk_out_endpointAddr u1 =? 0) && negb (is_in e) && is_bulk e then
          let buffer := if km calls1 then Some (wMaxPacketSize e) else None in
          (if km calls1 then SUCCESS else - ENOMEM,
           {| ud_bulk_in_endpointAddr := ud_bulk_in_endpointAddr u1;
              ud_bulk_out_endpointAddr := bEndpointAddress e;
              ud_bulk_in_size := ud_bulk_in_size u1;
              ud_bulk_in_buffer := ud_bulk_in_buffer u1;
              ud_bulk_out_buffer := buffer |},
           S calls1)
        else (SUCCESS, u1, calls1) in
      if negb (r2 =? SUCCESS) then (r2, u2)
      else probe_endpoints rest km calls2 u2
  end.

(** [memset(usbData, 0x00, sizeof (struct usb_data))] *)
Definition usb_data_zero : UsbData :=
  {| ud_bulk_in_endpointAddr := 0; ud_bulk_out_endpointAddr := 0;
     ud_bulk_in_size := 0; ud_bulk_in_buffer := None;
     ud_bulk_out_buffer := None |}.

Definition set_plugged (st : Driver) (rdy : bool) (size : Z) : Driver :=
  {| isEntropySrcRdy := rdy; isShutDown := isShutDown st;
     isDeviceOpPending := isDeviceOpPending st;
     isUsbOpPending := isUsbOpPending st;
     bulk_in_size := size; buffRndIn := buffRndIn st;
     buffTRndOut := buffTRndOut st; srcToHash := srcToHash st;
     curTrngOutIdx := curTrngOutIdx st; sd := sd st;
     rct := rct st; apt := apt st |}.

(** [clean_up_usb]: both buffers and the object are freed. *)
Definition clean_up_usb (ud : option UsbData) : option UsbData := None.

Definition usb_probe (st : Driver) (ud : option UsbData) (pl : Plug)
    : Z * Driver * option UsbData :=
  if plug_lock_killed pl then (- EPERM, st, ud) else
  if isEntropySrcRdy st || match ud with Some _ => true | None => false end
  then (- EPERM, st, ud) else
  if isShutDown st then (- EPERM, st, ud) else
  if negb (plug_kmalloc pl 0) then (- ENOMEM, st, None) else
  let '(retval, u) :=
    probe_endpoints (plug_endpoints pl) (plug_kmalloc pl) 1 usb_data_zero in
  let retval :=
    if (retval =? SUCCESS)
       && negb (negb (ud_bulk_in_endpointAddr u =? 0)
                && negb (ud_bulk_out_endpointAddr u =? 0))
    then - EPERM else retval in
  if negb (retval =? SUCCESS)
  then (retval, st, clean_up_usb (Some u))
  else (retval, set_plugged st true (ud_bulk_in_size u), Some u).

(** [usb_disconnect]; a killed wait for the mutex is logged and the
    handler goes on all the same. *)
Definition usb_disconnect (st : Driver) (ud : option UsbData)
    : Driver * option UsbData :=
  (set_plugged st false (bulk_in_size st), clean_up_usb ud).

(** [device_open] for the inode numbers [mj], [mn]; [major] and [minor]
    are the numbers the module has registered. *)
Definition device_open (st : Driver) (major minor mj mn : Z) : Z :=
  if negb (mj =? major) || negb (mn =? minor) then - ENODEV
  else if negb (isEntropySrcRdy st) || isShutDown st then - ENODATA
  else SUCCESS.

Definition device_release : Z := SUCCESS.
Definition device_write : Z := - EPERM.
Definition device_llseek : Z := - EPERM.

(** The flags [exit_tlrandom] sets before it waits. *)
Definition exit_tlrandom_flags (st : Driver) : Driver :=
  {| isEntropySrcRdy := false; isShutDown := true;
     isDeviceOpPending := isDeviceOpPending st;
     isUsbOpPending := isUsbOpPending st;
     bulk_in_size := bulk_in_size st; buffRndIn := buffRndIn st;
     buffTRndOut := buffTRndOut st; srcToHash := srcToHash st;
     curTrngOutIdx := curTrngOutIdx st; sd := sd st;
     rct := rct st; apt := apt st |}.

(** [wait_for_pending_ops]: the value of [cnt] when the loop ends, that
    is the number of [msleep(100)] made.  The two pending flags are
    written by other threads; [pending n] is what the [n]-th test of the
    loop condition finds in [isDeviceOpPending || isUsbOpPending]. *)
Fixpoint wait_loop (todo : nat) (cnt : nat) (pending : nat -> bool) : nat :=
  match todo with
  | O => cnt
  | S todo' =>
      if (cnt <? 100)%nat && pending cnt
      then wait_loop todo' (S cnt) pending
      else cnt
  end.

Definition wait_for_pending_ops (pending : nat -> bool) : nat :=
  wait_loop 100 0 pending.

End Plugging.

(** ** Runs of the health tests *)

(** The calls the module makes on a test after [initialize]. *)
Inductive TestOp :=
  | Restart
  | Sample (value : Z).

Definition rct_apply `{Header} (r : Health.Rct) (op : TestOp) : Health.Rct :=
  match op with
  | Restart => Health.rct_restart r
  | Sample v => Health.rct_sample r v
  end.

Definition apt_apply `{Header} (a : Health.Apt) (op : TestOp) : Health.Apt :=
  match op with
  | Restart => Health.apt_restart a
  | Sample v => Health.apt_sample a v
  end.

(** How often [v] occurs in [vs]. *)
Fixpoint occurrences (v : Z) (vs : list Z) : Z :=
  match vs with
  | [] => 0
  | x :: vs' => (if x =? v then 1 else 0) + occurrences v vs'
  end.

(** What every state of the repetition count test satisfies once
    [rct_initialize] has run. *)
Definition rct_sound (r : Health.Rct) : Prop :=
  Health.rct_maxRepetitions r = 5 /\ Health.rct_signature r = 1
  /\ (Health.rct_statusByte r = 0 \/ Health.rct_statusByte r = 1)
  /\ 1 <= Health.rct_curRepetitions r <= 4 /\ Health.rct_failureWindow r = 0.

(** The payload of a sequence of inbound transfers: each transfer without
    the two bytes that head every packet, one after the other. *)
Definition deframed (size : Z) (rs : list BulkIn) : list Z :=
  flat_map (fun r => strip_two size (in_data r)) rs.

(** The three bytes [rcv_rnd_bytes] puts in [bulk_out_buffer]. *)
Definition refill_command `{Header} : list Z :=
  [120; u8 (Z.land (u16 RND_IN_BUFFSIZE) 0x00ff);
   u8 (Z.shiftr (u16 RND_IN_BUFFSIZE) 8)].

(** The bytes of the conditioned block, as the sampling loop reads them. *)
Definition block_bytes `{Header} (st : Driver) : list Z :=
  map (fun i => u8 (byte_at (buffTRndOut st) (Z.of_nat i)))
      (seq 0 (Z.to_nat TRND_OUT_BUFFSIZE)).

(** ** The digest as a function of the message

    What [sha256_generateHash] computes, written over the whole padded
    message: the compression of [sha256_hashCurrentBlock], folded over
    the 16-word chunks of the message followed by its padding. *)

Definition hash_words (s : Sha256.Sha256Data) : list Z :=
  [Sha256.h0 s; Sha256.h1 s; Sha256.h2 s; Sha256.h3 s;
   Sha256.h4 s; Sha256.h5 s; Sha256.h6 s; Sha256.h7 s].

(** One call of [sha256_hashCurrentBlock] on the chaining value [hs] with
    [chunk] in [w[0..15]]. *)
Definition compress (hs chunk : list Z) : list Z :=
  hash_words (Sha256.sha256_hashCurrentBlock
    {| Sha256.h0 := nth 0 hs 0; Sha256.h1 := nth 1 hs 0;
       Sha256.h2 := nth 2 hs 0; Sha256.h3 := nth 3 hs 0;
       Sha256.h4 := nth 4 hs 0; Sha256.h5 := nth 5 hs 0;
       Sha256.h6 := nth 6 hs 0; Sha256.h7 := nth 7 hs 0;
       Sha256.w := chunk ++ repeat 0 48;
       Sha256.blockSerialNumber := 0 |}).

Definition initial_hash : list Z :=
  [0x6a09e667; 0xbb67ae85; 0x3c6ef372; 0xa54ff53a;
   0x510e527f; 0x9b05688c; 0x1f83d9ab; 0x5be0cd19].

(** The [len] words read through [src], as 32-bit values. *)
Definition message (src : list Z) (len : Z) : list Z :=
  map (fun i => u32 (nth i src 0)) (seq 0 (Z.to_nat len)).

(** The padding of a message of [len] words: the marker word, zero words
    up to two words short of a chunk boundary, and the length in bits in
    two words. *)
Definition padding (len : Z) : list Z :=
  [0x80000000] ++ repeat 0 (Z.to_nat ((13 - len) mod 16))
  ++ [0; u32 (len * 32)].

Fixpoint chunks_of (n : nat) (l : list Z) : list (list Z) :=
  match n with
  | O => []
  | S n' => take 16 l :: chunks_of n' (drop 16 l)
  end.

Definition padded_digest (msg : list Z) : list Z :=
  let padded := msg ++ padding (Z.of_nat (length msg)) in
  fold_left compress (chunks_of (length padded / 16) padded) initial_hash.

(** [p] is what [w] holds in its first [k] entries. *)
Definition filled (k : nat) (p ws : list Z) : Prop :=
  length ws = 64%nat /\ length p = k /\ take k ws = p.

(** The message hashed for the sub-block at word [i] of the raw block:
    its [MIN_INPUT_NUM_WORDS] words, then the serial number. *)
Definition subblock_message `{Header} (rnd : list Z) (i serial : Z) : list Z :=
  map (fun j => u32 (word_at rnd (i + Z.of_nat j)))
      (seq 0 (Z.to_nat MIN_INPUT_NUM_WORDS))
  ++ [u32 serial].

Definition is_u32 (x : Z) : Prop := 0 <= x < 2 ^ 32.


(** * Properties *)

(** The ends of the table of round constants. *)
Example k_ends :
  length Sha256.k = 64%nat
  /\ nth 0 Sha256.k 0 = 0x428a2f98 /\ nth 63 Sha256.k 0 = 0xc67178f2.
Proof. repeat split. Qed.


(** ** The health tests *)

Section HealthFacts.
Context `{Header}.
Import Health.

Ltac split_compare :=
  repeat match goal with
  | |- context [negb ?b] => destruct b eqn:?; cbn [negb]
  | |- context [?a =? ?b] => destruct (Z.eqb_spec a b)
  | |- context [?a >=? ?b] => destruct (Z.geb_spec a b)
  | |- context [?a >? ?b] => destruct (Z.gtb_spec a b)
  end.

Lemma rct_restart_keeps_status (r : Rct) :
  rct_statusByte (rct_restart r) = rct_statusByte r.
Proof. reflexivity. Qed.

Lemma apt_restart_keeps_status (a : Apt) :
  apt_statusByte (apt_restart a) = apt_statusByte a.
Proof. reflexivity. Qed.

(** The sampling path never clears a latched status byte. *)
Lemma rct_sample_keeps_latch (r : Rct) (v : Z) :
  rct_statusByte r <> 0 ->
  rct_statusByte (rct_sample r v) = rct_statusByte r.
Proof.
  intros Hlatched. unfold rct_sample.
  split_compare; cbn; try reflexivity; try congruence.
  all: split_compare; congruence.
Qed.

Lemma apt_sample_keeps_latch (a : Apt) (v : Z) :
  apt_statusByte a <> 0 ->
  apt_statusByte (apt_sample a v) = apt_statusByte a.
Proof.
  intros Hlatched. unfold apt_sample, apt_restart_cycle.
  split_compare; cbn; try reflexivity; try congruence.
  all: split_compare; cbn in *; try reflexivity; congruence.
Qed.


(** C3, as the module has it.  A sample that equals [firstSample] within a
    window increments [curRepetitions] and leaves [firstSample] alone.  If
    the incremented count exceeds [cutoffValue], [cycleFailures] is
    incremented, the count itself stays where it is, and the status byte
    takes the signature once [cycleFailures] reaches
    [numConsecFailThreshold], unless it is already set.  If the count does
    not exceed [cutoffValue], [apt_restart_cycle] sets [cycleFailures] back
    to 0. *)
Theorem apt_sample_on_first_sample (a : Apt) (v : Z) :
  apt_isInitialized a = true ->
  v = apt_firstSample a ->
  let a' := apt_sample a v in
  let reps := wrap bits_apt_curRepetitions (apt_curRepetitions a + 1) in
  let fails := wrap bits_apt_cycleFailures (apt_cycleFailures a + 1) in
  apt_curRepetitions a' = reps
  /\ apt_firstSample a' = apt_firstSample a
  /\ (apt_cutoffValue a < reps ->
        apt_cycleFailures a' = fails
        /\ (numConsecFailThreshold <= fails -> apt_statusByte a = 0 ->
              apt_statusByte a' = apt_signature a)
        /\ (numConsecFailThreshold <= fails -> apt_statusByte a <> 0 ->
              apt_statusByte a' = apt_statusByte a)
        /\ (fails < numConsecFailThreshold ->
              apt_statusByte a' = apt_statusByte a))
  /\ (reps <= apt_cutoffValue a ->
        apt_cycleFailures a' = 0
        /\ apt_statusByte a' = apt_statusByte a).
Proof.
  intros Hinit Hv a' reps fails. subst a' reps fails v.
  unfold apt_sample. rewrite Hinit. cbn [negb].
  cbn [apt_firstSample apt_curRepetitions apt_cutoffValue apt_cycleFailures
       apt_statusByte apt_signature apt_isInitialized apt_curSamples].
  rewrite Z.eqb_refl.
  destruct (Z.gtb_spec
    (wrap bits_apt_curRepetitions (apt_curRepetitions a + 1))
    (apt_cutoffValue a)) as [Hgt | Hle]; cbn.
  - split; [reflexivity |]. split; [reflexivity |].
    split; [intros _ | intros; lia].
    split; [reflexivity |].
    destruct (Z.geb_spec
      (wrap bits_apt_cycleFailures (apt_cycleFailures a + 1))
      numConsecFailThreshold); repeat split; intros; try lia;
      destruct (Z.eqb_spec (apt_statusByte a) 0); congruence.
  - split; [reflexivity |]. split; [reflexivity |].
    split; [intros; lia | intros _; split; reflexivity].
Qed.

End HealthFacts.

(** ** The transport *)

Section TransportFacts.
Context `{Header}.

Lemma mod_succ (s i : Z) :
  0 < s ->
  (i + 1) mod s = if i mod s + 1 =? s then 0 else i mod s + 1.
Proof.
  intros Hs. destruct (Z.eqb_spec (i mod s + 1) s) as [Heq | Hne].
  - rewrite <- Z.add_mod_idemp_l by lia.
    rewrite Heq. apply Z.mod_same. lia.
  - rewrite <- Z.add_mod_idemp_l by lia.
    apply Z.mod_small. pose proof (Z.mod_pos_bound i s Hs). lia.
Qed.

Lemma byte_at_middle (pre : list Z) (b : Z) (rest : list Z) :
  byte_at (pre ++ b :: rest) (Z.of_nat (length pre)) = b.
Proof.
  unfold byte_at.
  destruct (Z.ltb_spec (Z.of_nat (length pre)) 0) as [Hneg | _]; [lia |].
  rewrite Nat2Z.id. rewrite app_nth2 by lia.
  replace (length pre - length pre)%nat with 0%nat by lia. reflexivity.
Qed.

Lemma deframe_past_end (todo : nat) (size : Z) (data : list Z)
    (length_ i : Z) (buff : list Z) (cnt : Z) :
  Z.of_nat (length data) <= i ->
  deframe todo size data length_ i buff cnt = (buff, cnt).
Proof.
  intros Hend. destruct todo as [| todo']; cbn [deframe]; [reflexivity |].
  destruct (Z.ltb_spec i (Z.of_nat (length data))); [lia | reflexivity].
Qed.

(** The loop over one transfer, started at offset [length pre] with
    [suf] still to go, stores the bytes of [suf] that lie at least two
    bytes into their packet, as far as there is room for them. *)
Lemma deframe_selects (size length_ : Z) (todo : nat) :
  0 < size ->
  forall (pre suf buff : list Z) (cnt : Z),
    cnt < length_ ->
    (length suf <= todo)%nat ->
    Z.of_nat (length pre) mod size <> 1 \/ size = 1 ->
    deframe todo size (pre ++ suf) length_ (Z.of_nat (length pre)) buff cnt
    = (store_bytes buff cnt
         (take (Z.to_nat (length_ - cnt))
               (select_from (fun r => 2 <=? r) size
                            (Z.of_nat (length pre)) suf)),
       cnt + Z.of_nat (length
         (take (Z.to_nat (length_ - cnt))
               (select_from (fun r => 2 <=? r) size
                            (Z.of_nat (length pre)) suf)))).
Proof.
  intros Hsize. induction todo as [| todo' IH];
    intros pre suf buff cnt Hroom Hfuel Hinv.
  - destruct suf; [| cbn in Hfuel; lia].
    cbn. rewrite take_nil. cbn. f_equal. lia.
  - destruct suf as [| b rest].
    + rewrite deframe_past_end by (rewrite app_nil_r; lia).
      cbn. rewrite take_nil. cbn. f_equal. lia.
    + cbn [deframe].
      destruct (Z.ltb_spec (Z.of_nat (length pre))
                  (Z.of_nat (length (pre ++ b :: rest)))) as [_ | Hge];
        [| rewrite length_app in Hge; cbn in Hge; lia].
      pose proof (Z.mod_pos_bound (Z.of_nat (length pre)) size Hsize) as Hbound.
      cbn [select_from].
      destruct (Z.eqb_spec (Z.of_nat (length pre) mod size) 0) as [Hzero | Hnz].
      * (* head of a packet: this byte and the next are passed over *)
        rewrite Hzero. cbn [Z.leb Z.compare].
        destruct rest as [| b2 rest'].
        -- rewrite deframe_past_end
             by (rewrite length_app; cbn [length]; lia).
           cbn. rewrite take_nil. cbn. f_equal. lia.
        -- cbn [select_from].
           assert (Hnext : (2 <=? (Z.of_nat (length pre) + 1) mod size) = false).
           { rewrite mod_succ by assumption. rewrite Hzero.
             destruct (Z.eqb_spec (0 + 1) size); reflexivity. }
           rewrite Hnext.
           replace (pre ++ b :: b2 :: rest') with ((pre ++ [b; b2]) ++ rest')
             by (rewrite <- app_assoc; reflexivity).
           replace (Z.of_nat (length pre) + 1 + 1)
             with (Z.of_nat (length (pre ++ [b; b2])))
             by (rewrite length_app; cbn [length]; lia).
           apply IH; [assumption | cbn in Hfuel; lia |].
           rewrite length_app. cbn [length].
           replace (Z.of_nat (length pre + 2)) with (Z.of_nat (length pre) + 1 + 1)
             by lia.
           rewrite mod_succ by assumption.
           rewrite (mod_succ size (Z.of_nat (length pre))) by assumption.
           rewrite Hzero.
           destruct (Z.eqb_spec (0 + 1) size); [right; lia |].
           destruct (Z.eqb_spec (0 + 1 + 1) size); left; lia.
      * (* inside a packet: the byte is stored *)
        assert (Hkeep : (2 <=? Z.of_nat (length pre) mod size) = true).
        { apply Z.leb_le. destruct Hinv; lia. }
        rewrite Hkeep. rewrite byte_at_middle.
        assert (Hto : Z.to_nat (length_ - cnt)
                      = S (Z.to_nat (length_ - (cnt + 1)))) by lia.
        rewrite Hto. cbn [take length store_bytes].
        destruct (Z.geb_spec (cnt + 1) length_) as [Hfull | Hmore].
        -- replace (Z.to_nat (length_ - (cnt + 1))) with 0%nat by lia.
           rewrite take_0. cbn. f_equal.
        -- replace (pre ++ b :: rest) with ((pre ++ [b]) ++ rest)
             by (rewrite <- app_assoc; reflexivity).
           replace (Z.of_nat (length pre) + 1)
             with (Z.of_nat (length (pre ++ [b])))
             by (rewrite length_app; cbn [length]; lia).
           rewrite IH; [| lia | cbn in Hfuel; lia |].
           ++ f_equal. lia.
           ++ rewrite length_app. cbn [length].
              replace (Z.of_nat (length pre + 1)) with (Z.of_nat (length pre) + 1)
                by lia.
              rewrite mod_succ by assumption.
              destruct (Z.eqb_spec (Z.of_nat (length pre) mod size + 1) size);
                left; lia.
Qed.

Lemma strip_two_short (size : Z) (data : list Z) :
  0 < size -> (length data <= 2)%nat -> strip_two size data = [].
Proof.
  intros Hsize Hshort. unfold strip_two.
  destruct data as [| b0 [| b1 [| b2 rest]]]; cbn [select_from];
    [reflexivity | | | cbn in Hshort; lia].
  - rewrite Z.mod_0_l by lia. reflexivity.
  - rewrite Z.mod_0_l by lia. cbn [Z.leb Z.compare].
    rewrite (mod_succ size 0) by assumption. rewrite Z.mod_0_l by lia.
    destruct (Z.eqb_spec (0 + 1) size); reflexivity.
Qed.

(** C10, as the module has it.  A transfer of two bytes or less adds
    nothing to the accumulator.  Any transfer adds, as far as the
    requested length leaves room, its bytes without the two that head
    every packet: the byte at each multiple of the packet size and the
    byte after it. *)
Theorem absorb_transfer_strips_two (size : Z) (data buff : list Z)
    (length_ cnt : Z) :
  0 < size -> cnt < length_ ->
  ((length data <= 2)%nat ->
     absorb_transfer size data length_ buff cnt = (buff, cnt))
  /\ absorb_transfer size data length_ buff cnt
     = (store_bytes buff cnt
          (take (Z.to_nat (length_ - cnt)) (strip_two size data)),
        cnt + Z.of_nat (length
          (take (Z.to_nat (length_ - cnt)) (strip_two size data)))).
Proof.
  intros Hsize Hroom. unfold absorb_transfer.
  destruct (Z.gtb_spec (Z.of_nat (length data)) 2) as [Hlong | Hshort].
  - split; [intros; lia |].
    apply (deframe_selects size length_ (length data) Hsize [] data buff cnt);
      [assumption | lia |].
    cbn. rewrite Z.mod_0_l by lia. left. lia.
  - split; [reflexivity |].
    rewrite strip_two_short by (assumption || lia).
    rewrite take_nil. cbn. f_equal. lia.
Qed.

End TransportFacts.

(** ** The exchange and its status *)

Section ExchangeFacts.
Context `{Header}.

(** However the retry loop is left: by the early return on shutdown, by
    [break] with [retval] equal to [SUCCESS], or with the retries used up. *)
Lemma exchange_loop_exit (st : Driver) (snd : list Z)
    (sizeSnd sizeRcv opTimeoutSecs : Z) (todo : nat) :
  forall (wd : World) (rcv : list Z) (retry retval : Z),
    USB_READ_MAX_RETRY_CNT <= retry + Z.of_nat todo ->
    match fst (fst (exchange_loop todo st wd snd sizeSnd rcv sizeRcv
                                  opTimeoutSecs retry retval)) with
    | Returned r => r = - EPERM
    | Exited retry' retval' =>
        retval' = SUCCESS \/ USB_READ_MAX_RETRY_CNT <= retry'
    end.
Proof.
  induction todo as [| todo' IH]; intros wd rcv retry retval Hfuel.
  - cbn. right. lia.
  - cbn [exchange_loop].
    destruct (Z.ltb_spec retry USB_READ_MAX_RETRY_CNT) as [Hlt | Hge];
      [| cbn; right; lia].
    destruct (isShutDown st); [reflexivity |].
    destruct (usb_bulk_msg_out wd snd sizeSnd) as [[sent actualcCnt] wd1].
    destruct ((sent =? SUCCESS) && (actualcCnt =? sizeSnd)).
    + destruct (chip_read_data st wd1 rcv (sizeRcv + 1) opTimeoutSecs)
        as [[got rcv'] wd2].
      destruct (Z.eqb_spec got SUCCESS) as [Hgot | Hbad].
      * destruct (negb (byte_at rcv' sizeRcv =? 0)).
        -- apply IH. lia.
        -- cbn. left. assumption.
      * apply IH. lia.
    + apply IH. lia.
Qed.

(** Leaving the loop with retries to spare means leaving it by [break]:
    the last attempt has ended with a closing status byte of 0. *)
Lemma exchange_loop_break (st : Driver) (snd : list Z)
    (sizeSnd sizeRcv opTimeoutSecs : Z) (todo : nat) :
  forall (wd : World) (rcv : list Z) (retry retval : Z),
    USB_READ_MAX_RETRY_CNT <= retry + Z.of_nat todo ->
    match exchange_loop todo st wd snd sizeSnd rcv sizeRcv
                        opTimeoutSecs retry retval with
    | (Exited retry' retval', rcv', _) =>
        retry' < USB_READ_MAX_RETRY_CNT ->
        retval' = SUCCESS /\ byte_at rcv' sizeRcv = 0
    | _ => True
    end.
Proof.
  induction todo as [| todo' IH]; intros wd rcv retry retval Hfuel.
  - cbn. lia.
  - cbn [exchange_loop].
    destruct (Z.ltb_spec retry USB_READ_MAX_RETRY_CNT) as [Hlt | Hge];
      [| intros; lia].
    destruct (isShutDown st); [exact I |].
    destruct (usb_bulk_msg_out wd snd sizeSnd) as [[sent actualcCnt] wd1].
    destruct ((sent =? SUCCESS) && (actualcCnt =? sizeSnd)).
    + destruct (chip_read_data st wd1 rcv (sizeRcv + 1) opTimeoutSecs)
        as [[got rcv'] wd2].
      destruct (Z.eqb_spec got SUCCESS) as [Hgot | Hbad].
      * destruct (Z.eqb_spec (byte_at rcv' sizeRcv) 0) as [Hzero | Hnz];
          cbn [negb].
        -- intros _. split; assumption.
        -- apply IH. lia.
      * apply IH. lia.
    + apply IH. lia.
Qed.

(** A successful exchange has read a closing status byte of 0. *)
Lemma snd_rcv_usb_data_success (st : Driver) (wd : World) (snd : list Z)
    (sizeSnd : Z) (rcv : list Z) (sizeRcv opTimeoutSecs : Z) :
  let '(retval, rcv', _) :=
    snd_rcv_usb_data st wd snd sizeSnd rcv sizeRcv opTimeoutSecs in
  retval = SUCCESS -> byte_at rcv' sizeRcv = 0.
Proof.
  unfold snd_rcv_usb_data.
  pose proof (exchange_loop_exit st snd sizeSnd sizeRcv opTimeoutSecs
                (Z.to_nat USB_READ_MAX_RETRY_CNT) wd rcv 0 SUCCESS) as Hexit.
  pose proof (exchange_loop_break st snd sizeSnd sizeRcv opTimeoutSecs
                (Z.to_nat USB_READ_MAX_RETRY_CNT) wd rcv 0 SUCCESS) as Hbreak.
  destruct (exchange_loop (Z.to_nat USB_READ_MAX_RETRY_CNT) st wd snd
              sizeSnd rcv sizeRcv opTimeoutSecs 0 SUCCESS)
    as [[how rcv'] wd'].
  cbn [fst] in Hexit.
  specialize (Hexit ltac:(lia)). specialize (Hbreak ltac:(lia)).
  destruct how as [r | retry' retval'].
  - intros Hret. subst r. discriminate.
  - destruct (Z.geb_spec retry' USB_READ_MAX_RETRY_CNT) as [Hge | Hlt].
    + discriminate.
    + intros _. apply Hbreak. assumption.
Qed.

(** [snd_rcv_usb_data] hands back one of three values; [- EFAULT] is not
    among them. *)
Lemma snd_rcv_usb_data_codes (st : Driver) (wd : World) (snd : list Z)
    (sizeSnd : Z) (rcv : list Z) (sizeRcv opTimeoutSecs : Z) :
  let retval :=
    fst (fst (snd_rcv_usb_data st wd snd sizeSnd rcv sizeRcv opTimeoutSecs)) in
  retval = SUCCESS \/ retval = - EPERM \/ retval = - ETIMEDOUT.
Proof.
  unfold snd_rcv_usb_data.
  pose proof (exchange_loop_exit st snd sizeSnd sizeRcv opTimeoutSecs
                (Z.to_nat USB_READ_MAX_RETRY_CNT) wd rcv 0 SUCCESS) as Hexit.
  destruct (exchange_loop (Z.to_nat USB_READ_MAX_RETRY_CNT) st wd snd
              sizeSnd rcv sizeRcv opTimeoutSecs 0 SUCCESS)
    as [[how rcv'] wd'].
  cbn [fst] in Hexit. specialize (Hexit ltac:(lia)).
  destruct how as [r | retry' retval']; cbn.
  - right. left. assumption.
  - destruct (Z.geb_spec retry' USB_READ_MAX_RETRY_CNT); cbn.
    + right. right. reflexivity.
    + left. destruct Hexit; [assumption | lia].
Qed.


End ExchangeFacts.

(** ** The refill *)

Section RefillFacts.
Context `{Header}.

Lemma fold_left_invariant {A B : Type} (P : A -> Prop) (f : A -> B -> A)
    (l : list B) :
  (forall a b, P a -> P (f a b)) -> forall a, P a -> P (fold_left f l a).
Proof.
  intros Hstep. induction l as [| b l IH]; intros a Ha; cbn; auto.
Qed.

(** What conditioning leaves alone. *)
Lemma condition_subblock_frame (st : Driver) (i dst : Z) :
  let st' := condition_subblock st i dst in
  rct st' = rct st /\ apt st' = apt st
  /\ curTrngOutIdx st' = curTrngOutIdx st
  /\ buffRndIn st' = buffRndIn st
  /\ isEntropySrcRdy st' = isEntropySrcRdy st
  /\ isShutDown st' = isShutDown st.
Proof.
  unfold condition_subblock.
  destruct (Sha256.sha256_stampSerialNumber _ _) as [sd1 stamped].
  destruct (Sha256.sha256_generateHash _ _ _) as [[ret sd2] digest].
  cbn. repeat split.
Qed.

Lemma condition_loop_frame (todo : nat) :
  forall (i dst : Z) (st : Driver),
    let st' := condition_loop todo i dst st in
    rct st' = rct st /\ apt st' = apt st
    /\ curTrngOutIdx st' = curTrngOutIdx st
    /\ buffRndIn st' = buffRndIn st
    /\ isEntropySrcRdy st' = isEntropySrcRdy st
    /\ isShutDown st' = isShutDown st.
Proof.
  induction todo as [| todo' IH]; intros i dst st; cbn [condition_loop].
  - repeat split.
  - destruct (i <? Z.quot RND_IN_BUFFSIZE WORD_SIZE_BYTES); [| repeat split].
    specialize (IH (i + MIN_INPUT_NUM_WORDS) (dst + OUT_NUM_WORDS)
                   (condition_subblock st i dst)).
    pose proof (condition_subblock_frame st i dst) as Hsub.
    cbv zeta in IH, Hsub |- *.
    destruct IH as (-> & -> & -> & -> & -> & ->). exact Hsub.
Qed.

(** What sampling leaves alone, and what it keeps. *)
Lemma sample_loop_frame (st : Driver) :
  let st' := sample_loop st in
  buffTRndOut st' = buffTRndOut st
  /\ curTrngOutIdx st' = curTrngOutIdx st
  /\ sd st' = sd st.
Proof.
  unfold sample_loop.
  apply (fold_left_invariant
    (fun s => buffTRndOut s = buffTRndOut st
              /\ curTrngOutIdx s = curTrngOutIdx st /\ sd s = sd st)).
  - intros a b Ha. exact Ha.
  - repeat split.
Qed.

Lemma sample_loop_keeps_rct_latch (st : Driver) :
  Health.rct_statusByte (rct st) <> 0 ->
  Health.rct_statusByte (rct (sample_loop st)) <> 0.
Proof.
  unfold sample_loop.
  apply (fold_left_invariant (fun s => Health.rct_statusByte (rct s) <> 0)).
  intros a b Ha. cbn. rewrite rct_sample_keeps_latch; assumption.
Qed.

Lemma sample_loop_keeps_apt_latch (st : Driver) :
  Health.apt_statusByte (apt st) <> 0 ->
  Health.apt_statusByte (apt (sample_loop st)) <> 0.
Proof.
  unfold sample_loop.
  apply (fold_left_invariant (fun s => Health.apt_statusByte (apt s) <> 0)).
  intros a b Ha. cbn. rewrite apt_sample_keeps_latch; assumption.
Qed.

(** The three ways through [rcv_rnd_bytes]. *)
Lemma rcv_rnd_bytes_rejected (st : Driver) (wd : World) :
  isEntropySrcRdy st = false \/ isShutDown st = true ->
  rcv_rnd_bytes st wd = (- EPERM, st, wd).
Proof.
  intros Hoff. unfold rcv_rnd_bytes.
  destruct Hoff as [-> | ->]; [reflexivity |].
  rewrite orb_true_r. reflexivity.
Qed.

Lemma rcv_rnd_bytes_exchange_failed (st : Driver) (wd : World) :
  isEntropySrcRdy st = true -> isShutDown st = false ->
  exchange_status st wd <> SUCCESS ->
  let '(retval, st', _) := rcv_rnd_bytes st wd in
  retval = exchange_status st wd
  /\ buffTRndOut st' = buffTRndOut st
  /\ curTrngOutIdx st' = curTrngOutIdx st
  /\ sd st' = sd st /\ rct st' = rct st /\ apt st' = apt st.
Proof.
  intros Hrdy Hup. unfold exchange_status, rcv_rnd_bytes.
  rewrite Hrdy, Hup. cbn [negb orb].
  destruct (request_raw_block _ wd) as [[retval rnd] wd1]. cbn [fst].
  intros Hfail.
  destruct (Z.eqb_spec retval SUCCESS); [contradiction |].
  cbn. repeat split.
Qed.

Lemma rcv_rnd_bytes_conditioned (st : Driver) (wd : World) :
  isEntropySrcRdy st = true -> isShutDown st = false ->
  exchange_status st wd = SUCCESS ->
  let '(retval, st', _) := rcv_rnd_bytes st wd in
  curTrngOutIdx st' = 0
  /\ (latched st -> latched st')
  /\ (latched st' -> retval = - EPERM)
  /\ (~ latched st' -> retval = SUCCESS).
Proof.
  intros Hrdy Hup. unfold exchange_status, rcv_rnd_bytes.
  rewrite Hrdy, Hup. cbn [negb orb].
  destruct (request_raw_block _ wd) as [[retval rnd] wd1]. cbn [fst].
  intros ->. cbn [Z.eqb SUCCESS].
  set (st3 := set_tests _ _ _).
  set (st4 := condition_loop _ 0 0 st3).
  set (st5 := set_cursor st4 0).
  pose proof (sample_loop_frame st5) as (_ & Hcur & _).
  pose proof (condition_loop_frame
    (Z.to_nat (Z.quot RND_IN_BUFFSIZE WORD_SIZE_BYTES)) 0 0 st3)
    as (Hrct & Hapt & _).
  fold st4 in Hrct, Hapt.
  unfold latched. cbn [curTrngOutIdx rct apt set_pending].
  change SUCCESS with 0.
  split; [exact Hcur |]. split.
  - intros [Hr | Ha].
    + left. apply sample_loop_keeps_rct_latch.
      unfold st5. cbn [rct set_cursor]. rewrite Hrct. exact Hr.
    + right. apply sample_loop_keeps_apt_latch.
      unfold st5. cbn [apt set_cursor]. rewrite Hapt. exact Ha.
  - split.
    + intros [Hr | Ha].
      * destruct (Z.eqb_spec (Health.rct_statusByte (rct (sample_loop st5))) 0);
          [contradiction | reflexivity].
      * destruct (Z.eqb_spec (Health.rct_statusByte (rct (sample_loop st5))) 0);
          [| reflexivity].
        destruct (Z.eqb_spec (Health.apt_statusByte (apt (sample_loop st5))) 0);
          [contradiction | reflexivity].
    + intros Hclear.
      destruct (Z.eqb_spec (Health.rct_statusByte (rct (sample_loop st5))) 0);
        [| exfalso; apply Hclear; left; assumption].
      destruct (Z.eqb_spec (Health.apt_statusByte (apt (sample_loop st5))) 0);
        [reflexivity | exfalso; apply Hclear; right; assumption].
Qed.

(** The latch is sticky: with a latched test every refill fails, and the
    test is still latched afterwards. *)
Lemma rcv_rnd_bytes_latched (st : Driver) (wd : World) :
  latched st ->
  let '(retval, st', _) := rcv_rnd_bytes st wd in
  retval <> SUCCESS /\ latched st'.
Proof.
  intros Hl.
  destruct (isEntropySrcRdy st) eqn:Hrdy;
    [destruct (isShutDown st) eqn:Hup |].
  - rewrite rcv_rnd_bytes_rejected by (right; assumption).
    split; [discriminate | assumption].
  - destruct (Z.eq_dec (exchange_status st wd) SUCCESS) as [Hok | Hbad].
    + pose proof (rcv_rnd_bytes_conditioned st wd Hrdy Hup Hok) as Hc.
      destruct (rcv_rnd_bytes st wd) as [[retval st'] wd'].
      destruct Hc as (_ & Hkeep & Hfail & _).
      split; [rewrite Hfail by auto; discriminate | auto].
    + pose proof (rcv_rnd_bytes_exchange_failed st wd Hrdy Hup Hbad) as Hc.
      destruct (rcv_rnd_bytes st wd) as [[retval st'] wd'].
      destruct Hc as (-> & _ & _ & _ & Hrct & Hapt).
      split; [assumption |]. unfold latched. rewrite Hrct, Hapt. exact Hl.
  - rewrite rcv_rnd_bytes_rejected by (left; assumption).
    split; [discriminate | assumption].
Qed.


(** C2, as the module has it.  A refill that fails leaves the conditioned
    block and the cursor as they were whenever it fails before
    conditioning: when the module is not ready or shutting down, and when
    the exchange reports an error (a transport error or a status byte
    that is not 0).  The only failing refills that do not are those of a
    completed exchange that the health tests reject, and these return
    [- EPERM]. *)
Theorem refill_error_keeps_block (st : Driver) (wd : World) :
  fst (fst (rcv_rnd_bytes st wd)) <> SUCCESS ->
  (buffTRndOut (snd (fst (rcv_rnd_bytes st wd))) = buffTRndOut st
   /\ curTrngOutIdx (snd (fst (rcv_rnd_bytes st wd))) = curTrngOutIdx st)
  \/ (isEntropySrcRdy st = true /\ isShutDown st = false
      /\ exchange_status st wd = SUCCESS
      /\ fst (fst (rcv_rnd_bytes st wd)) = - EPERM
      /\ latched (snd (fst (rcv_rnd_bytes st wd)))).
Proof.
  intros Hfail.
  destruct (isEntropySrcRdy st) eqn:Hrdy;
    [destruct (isShutDown st) eqn:Hup |].
  - left. rewrite rcv_rnd_bytes_rejected by (right; assumption).
    split; reflexivity.
  - destruct (Z.eq_dec (exchange_status st wd) SUCCESS) as [Hok | Hbad].
    + right. pose proof (rcv_rnd_bytes_conditioned st wd Hrdy Hup Hok) as Hc.
      destruct (rcv_rnd_bytes st wd) as [[retval st'] wd'].
      cbn [fst snd] in *. destruct Hc as (_ & _ & Hrej & Hpass).
      assert (Hl : latched st').
      { unfold latched.
        destruct (Z.eq_dec (Health.rct_statusByte (rct st')) 0) as [Hr | Hr];
          [| left; assumption].
        destruct (Z.eq_dec (Health.apt_statusByte (apt st')) 0) as [Ha | Ha];
          [| right; assumption].
        exfalso. apply Hfail, Hpass. unfold latched. tauto. }
      repeat split; auto.
    + left. pose proof (rcv_rnd_bytes_exchange_failed st wd Hrdy Hup Hbad) as Hc.
      destruct (rcv_rnd_bytes st wd) as [[retval st'] wd'].
      cbn [fst snd]. destruct Hc as (_ & Hbuf & Hcur & _). split; assumption.
  - left. rewrite rcv_rnd_bytes_rejected by (left; assumption).
    split; reflexivity.
Qed.

End RefillFacts.

(** ** The block serial number *)

Section SerialFacts.
Context `{Header}.

Lemma hashCurrentBlock_serial (s : Sha256.Sha256Data) :
  Sha256.blockSerialNumber (Sha256.sha256_hashCurrentBlock s)
  = Sha256.blockSerialNumber s.
Proof.
  unfold Sha256.sha256_hashCurrentBlock.
  destruct (fold_left _ _ _) as [[[[[[[a b] c] d] e] f] g] h]. reflexivity.
Qed.

Lemma complete_blocks_serial (src : list Z) (todo : nat) :
  forall (s : Sha256.Sha256Data) (blockNum : Z),
    Sha256.blockSerialNumber (Sha256.complete_blocks s src blockNum todo)
    = Sha256.blockSerialNumber s.
Proof.
  induction todo as [| todo' IH]; intros s blockNum; cbn [Sha256.complete_blocks].
  - reflexivity.
  - rewrite IH, hashCurrentBlock_serial. reflexivity.
Qed.

Lemma additional_block_serial (s : Sha256.Sha256Data) (marker : bool) (size : Z) :
  Sha256.blockSerialNumber (Sha256.additional_block s marker size)
  = Sha256.blockSerialNumber s.
Proof.
  unfold Sha256.additional_block.
  destruct marker; rewrite hashCurrentBlock_serial; reflexivity.
Qed.

(** Hashing reads the serial number's word but never writes the counter. *)
Lemma generateHash_serial (s : Sha256.Sha256Data) (src : list Z) (len : Z) :
  Sha256.blockSerialNumber (snd (fst (Sha256.sha256_generateHash s src len)))
  = Sha256.blockSerialNumber s.
Proof.
  unfold Sha256.sha256_generateHash.
  destruct (len <=? 0); [reflexivity |].
  destruct (0 <? Z.to_nat (len mod Sha256.maxDataBlockSizeWords))%nat.
  - destruct (S (Z.to_nat (len mod Sha256.maxDataBlockSizeWords)) <? 15)%nat;
      cbn [fst snd].
    + rewrite hashCurrentBlock_serial.
      cbn [Sha256.blockSerialNumber Sha256.set_w].
      rewrite complete_blocks_serial. reflexivity.
    + rewrite additional_block_serial, hashCurrentBlock_serial.
      cbn [Sha256.blockSerialNumber Sha256.set_w].
      rewrite complete_blocks_serial. reflexivity.
  - cbn [fst snd]. rewrite additional_block_serial.
    rewrite complete_blocks_serial. reflexivity.
Qed.

Lemma load_subblock_length (rnd src : list Z) (i : Z) :
  length (load_subblock rnd src i) = length src.
Proof.
  unfold load_subblock.
  apply (fold_left_invariant (fun acc => length acc = length src)).
  - intros acc j Hacc. rewrite length_insert. exact Hacc.
  - reflexivity.
Qed.

Lemma nth_insert_same (blk : list Z) (j : nat) (x : Z) :
  (j < length blk)%nat -> nth j (<[j := x]> blk) 0 = x.
Proof.
  intros Hj. rewrite nth_lookup, list_lookup_insert_eq by assumption.
  reflexivity.
Qed.






Lemma condition_subblock_serial (st : Driver) (i dst : Z) :
  0 <= MIN_INPUT_NUM_WORDS < Z.of_nat (length (srcToHash st)) ->
  Sha256.blockSerialNumber (sd (condition_subblock st i dst))
    = u32 (Sha256.blockSerialNumber (sd st) + 1)
  /\ length (srcToHash (condition_subblock st i dst)) = length (srcToHash st).
Proof.
  intros Hsrc. unfold condition_subblock, Sha256.sha256_stampSerialNumber.
  pose proof (generateHash_serial
    (Sha256.set_serial (sd st) (u32 (Sha256.blockSerialNumber (sd st) + 1)))
    (<[Z.to_nat MIN_INPUT_NUM_WORDS := Sha256.blockSerialNumber (sd st)]>
       (load_subblock (buffRndIn st) (srcToHash st) i))
    (MIN_INPUT_NUM_WORDS + 1)) as Hkeep.
  destruct (Sha256.sha256_generateHash _ _ _) as [[ret sd2] digest].
  cbn [fst snd] in Hkeep. cbn [srcToHash sd set_conditioned].
  split; [exact Hkeep |].
  rewrite length_insert. apply load_subblock_length.
Qed.

(** The conditioning loop moves the counter on by one per turn. *)
Lemma condition_loop_serial (todo : nat) :
  forall (i dst : Z) (st : Driver),
    0 <= MIN_INPUT_NUM_WORDS < Z.of_nat (length (srcToHash st)) ->
    0 <= Sha256.blockSerialNumber (sd st) < 2 ^ 32 ->
    Sha256.blockSerialNumber (sd (condition_loop todo i dst st))
    = u32 (Sha256.blockSerialNumber (sd st)
           + Z.of_nat (condition_turns todo i)).
Proof.
  induction todo as [| todo' IH]; intros i dst st Hsrc Hrange;
    cbn [condition_loop condition_turns].
  - unfold u32, wrap. rewrite Z.add_0_r, Z.mod_small; [reflexivity | lia].
  - destruct (i <? Z.quot RND_IN_BUFFSIZE WORD_SIZE_BYTES).
    + destruct (condition_subblock_serial st i dst Hsrc) as [Hnext Hlen].
      rewrite IH.
      * rewrite Hnext. unfold u32, wrap.
        rewrite Zplus_mod_idemp_l. f_equal. lia.
      * rewrite Hlen. exact Hsrc.
      * rewrite Hnext. unfold u32, wrap.
        pose proof (Z.mod_pos_bound (Sha256.blockSerialNumber (sd st) + 1)
                      (2 ^ 32) ltac:(lia)). lia.
    + unfold u32, wrap. rewrite Z.add_0_r, Z.mod_small; [reflexivity | lia].
Qed.

(** Over a refill the counter moves on by the number of sub-blocks
    hashed when the exchange succeeds, and stays where it is otherwise:
    nothing ever sets it back. *)
Lemma refill_advances_serial (st : Driver) (wd : World) :
  0 <= MIN_INPUT_NUM_WORDS < Z.of_nat (length (srcToHash st)) ->
  0 <= Sha256.blockSerialNumber (sd st) < 2 ^ 32 ->
  Sha256.blockSerialNumber (sd (snd (fst (rcv_rnd_bytes st wd))))
  = if isEntropySrcRdy st && negb (isShutDown st)
       && (exchange_status st wd =? SUCCESS)
    then u32 (Sha256.blockSerialNumber (sd st)
              + Z.of_nat (condition_turns
                  (Z.to_nat (Z.quot RND_IN_BUFFSIZE WORD_SIZE_BYTES)) 0))
    else Sha256.blockSerialNumber (sd st).
Proof.
  intros Hsrc Hrange. unfold exchange_status, rcv_rnd_bytes.
  destruct (isEntropySrcRdy st); [| reflexivity].
  destruct (isShutDown st); [reflexivity |]. cbn [negb orb andb].
  destruct (request_raw_block _ wd) as [[retval rnd] wd1]. cbn [fst].
  destruct (retval =? SUCCESS); [| reflexivity].
  cbn [fst snd sd set_pending].
  set (st3 := set_tests _ _ _).
  pose proof (sample_loop_frame
    (set_cursor (condition_loop
       (Z.to_nat (Z.quot RND_IN_BUFFSIZE WORD_SIZE_BYTES)) 0 0 st3) 0))
    as (_ & _ & Hsd).
  rewrite Hsd. cbn [sd set_cursor].
  apply (condition_loop_serial _ 0 0 st3); assumption.
Qed.

End SerialFacts.

(** ** The read loop *)

Section ReadFacts.
Context `{Header}.

Lemma rcv_rnd_bytes_cursor (st : Driver) (wd : World) :
  let '(retval, st', _) := rcv_rnd_bytes st wd in
  (retval = SUCCESS -> curTrngOutIdx st' = 0)
  /\ (curTrngOutIdx st' = 0 \/ curTrngOutIdx st' = curTrngOutIdx st).
Proof.
  destruct (isEntropySrcRdy st) eqn:Hrdy;
    [destruct (isShutDown st) eqn:Hup |].
  - rewrite rcv_rnd_bytes_rejected by (right; assumption).
    split; [discriminate | right; reflexivity].
  - destruct (Z.eq_dec (exchange_status st wd) SUCCESS) as [Hok | Hbad].
    + pose proof (rcv_rnd_bytes_conditioned st wd Hrdy Hup Hok) as Hc.
      destruct (rcv_rnd_bytes st wd) as [[retval st'] wd'].
      destruct Hc as (Hzero & _). split; [intros _ | left]; exact Hzero.
    + pose proof (rcv_rnd_bytes_exchange_failed st wd Hrdy Hup Hbad) as Hc.
      destruct (rcv_rnd_bytes st wd) as [[retval st'] wd'].
      destruct Hc as (-> & _ & Hcur & _).
      split; [intros; contradiction | right; exact Hcur].
  - rewrite rcv_rnd_bytes_rejected by (left; assumption).
    split; [discriminate | right; reflexivity].
Qed.

(** Short of the end of the block nothing is fetched. *)
Lemma get_entropy_bytes_idle (st : Driver) (wd : World) :
  curTrngOutIdx st < TRND_OUT_BUFFSIZE ->
  get_entropy_bytes st wd = (SUCCESS, st, wd).
Proof.
  intros Hleft. unfold get_entropy_bytes.
  destruct (Z.geb_spec (curTrngOutIdx st) TRND_OUT_BUFFSIZE); [lia | reflexivity].
Qed.

Lemma get_entropy_bytes_cursor (st : Driver) (wd : World) :
  cursor_in_block st ->
  let '(retval, st', _) := get_entropy_bytes st wd in
  cursor_in_block st'
  /\ (retval = SUCCESS -> 0 < TRND_OUT_BUFFSIZE ->
      curTrngOutIdx st' < TRND_OUT_BUFFSIZE).
Proof.
  unfold cursor_in_block, get_entropy_bytes. intros Hin.
  destruct (Z.geb_spec (curTrngOutIdx st) TRND_OUT_BUFFSIZE) as [Hend | Hleft].
  - pose proof (rcv_rnd_bytes_cursor st wd) as Hc.
    destruct (rcv_rnd_bytes st wd) as [[retval st'] wd'].
    destruct Hc as [Hok Hcases]. split; [lia |].
    intros Hret Hpos. rewrite (Hok Hret). exact Hpos.
  - split; [exact Hin | intros; exact Hleft].
Qed.

Lemma get_entropy_bytes_fresh (st : Driver) (wd : World) :
  0 < TRND_OUT_BUFFSIZE ->
  let '(retval, st', _) := get_entropy_bytes st wd in
  retval = SUCCESS -> curTrngOutIdx st' < TRND_OUT_BUFFSIZE.
Proof.
  intros Hpos. unfold get_entropy_bytes.
  destruct (Z.geb_spec (curTrngOutIdx st) TRND_OUT_BUFFSIZE) as [Hend | Hleft].
  - pose proof (rcv_rnd_bytes_cursor st wd) as Hc.
    destruct (rcv_rnd_bytes st wd) as [[retval st'] wd'].
    destruct Hc as [Hok _]. intros Hret. rewrite (Hok Hret). exact Hpos.
  - intros _. exact Hleft.
Qed.


(** One turn of the read loop keeps the cursor within the block. *)
Lemma read_turn_cursor (st : Driver) (wd : World) (length_ total : Z) :
  cursor_in_block st -> total <= length_ ->
  cursor_in_block (snd (fst (read_turn st wd length_ total))).
Proof.
  intros Hin Htotal. unfold read_turn.
  pose proof (get_entropy_bytes_cursor st wd Hin) as Hget.
  destruct (get_entropy_bytes st wd) as [[retval st1] wd1].
  destruct Hget as [Hin1 _].
  destruct (retval =? SUCCESS); [| exact Hin1].
  destruct (copy_to_user wd1 total _) as [missed wd2].
  destruct (negb (missed =? 0)); [exact Hin1 |].
  cbn [fst snd]. unfold cursor_in_block in *. cbn [curTrngOutIdx set_cursor].
  unfold take_amount.
  destruct (Z.gtb_spec (TRND_OUT_BUFFSIZE - curTrngOutIdx st1)
                       (length_ - total)); lia.
Qed.

(** What a turn that goes on to the loop test has served. *)
Lemma read_turn_served (st : Driver) (wd : World) (length_ total total' : Z)
    (st' : Driver) (wd' : World) :
  total <= length_ ->
  read_turn st wd length_ total = (Served total', st', wd') ->
  total' <= length_
  /\ (0 < TRND_OUT_BUFFSIZE ->
      total <= total' /\ (total < length_ -> total < total')).
Proof.
  intros Htotal. unfold read_turn.
  destruct (get_entropy_bytes st wd) as [[retval st1] wd1] eqn:Hget.
  destruct (Z.eqb_spec retval SUCCESS) as [Hret | _]; [| discriminate].
  destruct (copy_to_user wd1 total _) as [missed wd2].
  destruct (negb (missed =? 0)); [discriminate |].
  intros Heq. injection Heq as <- _ _. unfold take_amount.
  split.
  - destruct (Z.gtb_spec (TRND_OUT_BUFFSIZE - curTrngOutIdx st1)
                         (length_ - total)); lia.
  - intros Hpos.
    pose proof (get_entropy_bytes_fresh st wd Hpos) as Hfresh.
    rewrite Hget in Hfresh. specialize (Hfresh Hret).
    destruct (Z.gtb_spec (TRND_OUT_BUFFSIZE - curTrngOutIdx st1)
                         (length_ - total)); lia.
Qed.

(** The take step never moves the cursor past the end of the block,
    wherever it starts. *)
Lemma take_never_passes_end (st : Driver) (wd : World)
    (length_ total total' : Z) (st' : Driver) (wd' : World) :
  read_turn st wd length_ total = (Served total', st', wd') ->
  curTrngOutIdx st' <= TRND_OUT_BUFFSIZE.
Proof.
  unfold read_turn.
  destruct (get_entropy_bytes st wd) as [[retval st1] wd1].
  destruct (retval =? SUCCESS); [| discriminate].
  destruct (copy_to_user wd1 total _) as [missed wd2].
  destruct (negb (missed =? 0)); [discriminate |].
  intros Heq. injection Heq as _ <- _. cbn [curTrngOutIdx set_cursor].
  unfold take_amount.
  destruct (Z.gtb_spec (TRND_OUT_BUFFSIZE - curTrngOutIdx st1)
                       (length_ - total)); lia.
Qed.










Lemma read_loop_cursor (length_ : Z) (todo : nat) :
  forall (st : Driver) (wd : World) (total r : Z) (st' : Driver) (wd' : World),
    cursor_in_block st -> total <= length_ ->
    read_loop todo st wd length_ total = Some (r, st', wd') ->
    cursor_in_block st'.
Proof.
  induction todo as [| todo' IH];
    intros st wd total r st' wd' Hin Htotal; cbn [read_loop];
    [discriminate |].
  pose proof (read_turn_cursor st wd length_ total Hin Htotal) as Hin1.
  destruct (read_turn st wd length_ total) as [[turn st1] wd1] eqn:Hturn.
  cbn [fst snd] in Hin1. destruct turn as [e | total'].
  - intros Heq. injection Heq as _ <- _. exact Hin1.
  - pose proof (read_turn_served _ _ _ _ _ _ _ Htotal Hturn) as [Hle _].
    destruct (total' <? length_).
    + apply IH; assumption.
    + intros Heq. injection Heq as _ <- _. exact Hin1.
Qed.

(** C9.  A turn of the read loop leaves the cursor within
    [0, TRND_OUT_BUFFSIZE], and so does a whole [device_read]; and while
    the cursor is short of [TRND_OUT_BUFFSIZE], [get_entropy_bytes]
    returns [SUCCESS] and changes nothing: no refill, the same block, the
    same cursor. *)
Theorem cursor_stays_in_block (st : Driver) (wd : World) (length_ total : Z) :
  cursor_in_block st -> 0 <= total <= length_ ->
  cursor_in_block (snd (fst (read_turn st wd length_ total)))
  /\ (forall r st' wd',
        device_read st wd length_ = Some (r, st', wd') -> cursor_in_block st')
  /\ (curTrngOutIdx st < TRND_OUT_BUFFSIZE ->
      get_entropy_bytes st wd = (SUCCESS, st, wd)).
Proof.
  intros Hin Htotal. split; [apply read_turn_cursor; [assumption | lia] |].
  split; [| apply get_entropy_bytes_idle].
  intros r st' wd'. unfold device_read.
  destruct (lock_killed wd).
  { intros Heq. injection Heq as _ <- _. exact Hin. }
  destruct (negb (isEntropySrcRdy st) || isShutDown st).
  { intros Heq. injection Heq as _ <- _. exact Hin. }
  destruct (read_loop _ _ wd length_ 0) as [[[r0 st0] wd0] |] eqn:Hloop;
    [| discriminate].
  cbn [option_map]. intros Heq. injection Heq as _ <- _.
  assert (Hlen : 0 <= length_) by lia.
  assert (Hin1 : cursor_in_block (set_pending st true (isUsbOpPending st)))
    by exact Hin.
  exact (read_loop_cursor length_ _ _ _ _ _ _ _ Hin1 Hlen Hloop).
Qed.

End ReadFacts.

(** ** The self-test *)

(** [memcmp] over [count] bytes does not look past them. *)
Lemma memcmp_ignores_tail (count : nat) :
  forall (cs ct tail : list Z),
    (count <= length ct)%nat ->
    memcmp cs (take count ct ++ tail) count = memcmp cs ct count.
Proof.
  induction count as [| count' IH]; intros cs ct tail Hlen; cbn [memcmp];
    [reflexivity |].
  destruct ct as [| b ct']; [cbn in Hlen; lia |].
  cbn [take app hd tl]. rewrite IH by (cbn in Hlen; lia). reflexivity.
Qed.

(** Equal over the first [count] bytes is all [memcmp] asks for. *)
Lemma memcmp_equal_prefix (count : nat) :
  forall (cs ct : list Z),
    take count cs = take count ct -> memcmp cs ct count = 0.
Proof.
  induction count as [| count' IH]; intros cs ct Heq; cbn [memcmp];
    [reflexivity |].
  destruct cs as [| a cs'], ct as [| b ct']; cbn [take hd tl] in *;
    try discriminate.
  - apply IH. destruct count'; reflexivity.
  - injection Heq as -> Hrest. rewrite Z.eqb_refl. apply IH. exact Hrest.
Qed.

(** [sha256_generateHash] refuses an empty message and nothing else. *)
Lemma generateHash_status (s : Sha256.Sha256Data) (src : list Z) (len : Z) :
  fst (fst (Sha256.sha256_generateHash s src len))
  = if len <=? 0 then -1 else 0.
Proof.
  unfold Sha256.sha256_generateHash.
  destruct (len <=? 0); [reflexivity |].
  destruct (0 <? Z.to_nat (len mod Sha256.maxDataBlockSizeWords))%nat;
    [destruct (S (Z.to_nat (len mod Sha256.maxDataBlockSizeWords)) <? 15)%nat |];
    reflexivity.
Qed.

(** Whatever the header, the self-test passes as soon as the digest of
    [testSeq1] and [exptHashSeq1] agree in their first eight bytes. *)
Lemma self_test_passes_on_prefix `{Header} (s : Sha256.Sha256Data)
    (digest : list Z) :
  snd (Sha256.sha256_generateHash s (words_of testSeq1 11) 11) = Some digest ->
  take 8 (image_of digest) = take 8 exptHashSeq1 ->
  fst (sha256_selfTest s) = 0.
Proof.
  unfold sha256_selfTest.
  pose proof (generateHash_status s (words_of testSeq1 11) 11) as Hret.
  destruct (Sha256.sha256_generateHash s (words_of testSeq1 11) 11)
    as [[retVal s'] results].
  cbn [fst snd] in Hret |- *. intros -> Hprefix.
  change (11 <=? 0) with false in Hret. subst retVal.
  change (0 =? 0) with true. cbn [fst].
  apply memcmp_equal_prefix. exact Hprefix.
Qed.

(** ** What a rejected refill leaves behind *)

Section RejectedRefill.
Context `{Header}.

(** A refill that the health tests reject has already put the cursor at
    the start of the block it has rejected, so the next
    [get_entropy_bytes] finds bytes to serve and fetches nothing. *)
Lemma rejected_refill_reopens_block (st : Driver) (wd : World) :
  0 < TRND_OUT_BUFFSIZE ->
  isEntropySrcRdy st = true -> isShutDown st = false ->
  exchange_status st wd = SUCCESS ->
  latched st ->
  let '(retval, st', wd') := rcv_rnd_bytes st wd in
  retval = - EPERM /\ latched st'
  /\ get_entropy_bytes st' wd' = (SUCCESS, st', wd').
Proof.
  intros Hpos Hrdy Hup Hok Hl.
  pose proof (rcv_rnd_bytes_conditioned st wd Hrdy Hup Hok) as Hc.
  destruct (rcv_rnd_bytes st wd) as [[retval st'] wd'].
  destruct Hc as (Hzero & Hkeep & Hrej & _).
  split; [auto |]. split; [auto |].
  apply get_entropy_bytes_idle. lia.
Qed.

End RejectedRefill.

(** ** Runs on the bench *)

Ltac by_computation :=
  vm_compute; repeat split; try discriminate; try reflexivity.

(** Twenty sevens in a row after a restart count four failures; the
    twenty-first is the fifth failure and latches the test. *)
Example rct_run_of_sevens :
  Health.rct_statusByte
    (fold_left Health.rct_sample (repeat 7 20%nat) Health.rct_initialize) = 0
  /\ Health.rct_statusByte
       (fold_left Health.rct_sample (repeat 7 21%nat) Health.rct_initialize) = 1
  /\ Health.rct_statusByte
       (Health.rct_restart
          (fold_left Health.rct_sample (repeat 7 21%nat) Health.rct_initialize))
     = 1.
Proof. by_computation. Qed.

(** C1.  On the bench the first refill after start-up conditions
    [raw_weak]; the adaptive proportion test latches and the refill
    returns [- EPERM].  The next [get_entropy_bytes] nevertheless returns
    [SUCCESS], and a read of 64 bytes returns 64 and hands the caller the
    block that has just been rejected. *)
Theorem rejected_block_is_served :
  let '(retval, st1, wd1) := rcv_rnd_bytes bench_ready world_weak in
  retval = - EPERM
  /\ Health.apt_statusByte (apt st1) = 2
  /\ fst (fst (get_entropy_bytes st1 wd1)) = SUCCESS
  /\ exists st2 wd2,
       device_read st1 wd1 64 = Some (64, st2, wd2)
       /\ user_buffer wd2 = buffTRndOut st1
       /\ latched st2.
Proof.
  vm_compute. repeat split.
  eexists _, _. repeat split. right. discriminate.
Qed.

(** C2: a failing refill that has changed both the block and the cursor. *)
Lemma refill_atomic_on_error_fails : ~ @refill_atomic_on_error bench.
Proof.
  intros Hclaim.
  assert (Hfail : fst (fst (rcv_rnd_bytes bench_ready world_weak)) <> SUCCESS)
    by (vm_compute; discriminate).
  unfold refill_atomic_on_error in Hclaim.
  specialize (Hclaim bench_ready world_weak Hfail).
  destruct Hclaim as [_ Hcur].
  vm_compute in Hcur. discriminate Hcur.
Qed.

(** A refill against a silent device: it fails and the block is as it was. *)
Lemma refill_error_keeps_block_witness :
  fst (fst (rcv_rnd_bytes bench_ready (bench_world [] [] 0))) <> SUCCESS
  /\ buffTRndOut (snd (fst (rcv_rnd_bytes bench_ready (bench_world [] [] 0))))
     = buffTRndOut bench_ready.
Proof.
  assert (Hfail :
    fst (fst (rcv_rnd_bytes bench_ready (bench_world [] [] 0))) <> SUCCESS)
    by (vm_compute; discriminate).
  split; [exact Hfail |].
  destruct (@refill_error_keeps_block bench bench_ready
              (bench_world [] [] 0) Hfail) as [[Hbuf _] | (_ & _ & Hok & _)].
  - exact Hbuf.
  - vm_compute in Hok. discriminate Hok.
Defined.

(** C3: past the cutoff the repetition counter goes on counting. *)
Lemma apt_excess_keeps_counting : ~ @apt_excess_restarts_counter bench.
Proof.
  intros (fresh & Hfresh & Hclaim).
  specialize (Hclaim apt_at_cutoff 183 eq_refl eq_refl).
  assert (Hsix : Health.apt_curRepetitions (Health.apt_sample apt_at_cutoff 183)
                 = 6) by reflexivity.
  rewrite Hclaim in Hsix by reflexivity. lia.
Qed.

(** The sixth return of the first sample: the count is 6, one cycle failure. *)
Lemma apt_sample_on_first_sample_witness :
  Health.apt_isInitialized apt_at_cutoff = true
  /\ Health.apt_curRepetitions (Health.apt_sample apt_at_cutoff 183) = 6
  /\ Health.apt_cycleFailures (Health.apt_sample apt_at_cutoff 183) = 1.
Proof.
  split; [reflexivity |].
  destruct (@apt_sample_on_first_sample bench apt_at_cutoff 183
              eq_refl eq_refl) as (Hreps & _ & Hover & _).
  split; [exact Hreps |].
  destruct Hover as [Hfails _]; [reflexivity | exact Hfails].
Defined.

(** C4.  On the bench every one of the three attempts receives the whole
    raw block and a closing status byte of 1.  The caller is handed
    [- ETIMEDOUT], the value of an exhausted retry budget, not
    [- EFAULT]; and whatever the header and the device,
    [snd_rcv_usb_data] hands back [SUCCESS], [- EPERM] or [- ETIMEDOUT]
    and nothing else. *)
Theorem bad_status_reported_as_timeout :
  (let '(retval, rcv, wd') := request_raw_block bench_ready world_bad_status in
   retval = - ETIMEDOUT
   /\ take 16 rcv = raw_a
   /\ byte_at rcv RND_IN_BUFFSIZE = 1
   /\ bulk_in_script wd' = []
   /\ length (wire_log wd') = 3%nat)
  /\ (forall (hdr : Header) (st : Driver) (wd : World) (snd : list Z)
             (sizeSnd : Z) (rcv : list Z) (sizeRcv opTimeoutSecs : Z),
        let retval :=
          fst (fst (@snd_rcv_usb_data hdr st wd snd sizeSnd rcv sizeRcv
                                      opTimeoutSecs)) in
        retval = SUCCESS \/ retval = - EPERM \/ retval = - ETIMEDOUT).
Proof.
  split.
  - by_computation.
  - intros hdr st wd snd sizeSnd rcv sizeRcv opTimeoutSecs.
    apply snd_rcv_usb_data_codes.
Qed.






(** C8.  With a header whose expected digest is right in its first eight
    bytes and wrong in the other twenty-four, the self-test returns 0 and
    [init_tlrandom] goes on to return [SUCCESS]. *)
Theorem self_test_compares_eight_bytes :
  (exists digest,
     snd (Sha256.sha256_generateHash
            (Sha256.sha256_initializeSerialNumber sd_loaded 413145)
            (@words_of (@testSeq1 skewed) 11) 11) = Some digest
     /\ image_of digest <> @exptHashSeq1 skewed
     /\ take 8 (image_of digest) = take 8 (@exptHashSeq1 skewed))
  /\ fst (@sha256_selfTest skewed
            (Sha256.sha256_initializeSerialNumber sd_loaded 413145)) = 0
  /\ fst (@init_tlrandom skewed bench_loaded bench_boot) = SUCCESS.
Proof.
  split; [| by_computation].
  eexists. split; [vm_compute; reflexivity |].
  split; [vm_compute; discriminate | vm_compute; reflexivity].
Qed.

(** The first turn of a read on the bench. *)
Lemma cursor_stays_in_block_witness :
  cursor_in_block bench_ready
  /\ cursor_in_block (snd (fst (read_turn bench_ready world_one_block 100 0))).
Proof.
  assert (Hin : @cursor_in_block bench bench_ready) by by_computation.
  split; [exact Hin |].
  destruct (@cursor_stays_in_block bench bench_ready world_one_block 100 0 Hin)
    as (Hturn & _); [by_computation | exact Hturn].
Defined.

(** C10: of a packet of four bytes, two reach the accumulator. *)
Lemma deframing_strips_more : ~ deframing_strips_one_byte.
Proof.
  intros Hclaim. unfold deframing_strips_one_byte in Hclaim.
  assert (Heq :
    absorb_transfer 8 [1; 96; 10; 11] 17 (repeat 0 17%nat) 0
    = (store_bytes (repeat 0 17%nat) 0 (strip_one 8 [1; 96; 10; 11]),
       0 + Z.of_nat (length (strip_one 8 [1; 96; 10; 11])))).
  { apply Hclaim; [lia | cbn; lia | lia | vm_compute; discriminate]. }
  vm_compute in Heq. discriminate Heq.
Qed.

(** A transfer of a full packet and the head of the next. *)
Lemma absorb_transfer_strips_two_witness :
  0 < 8 /\ 0 < 17
  /\ absorb_transfer 8 [1; 96; 10; 11; 12; 13; 14; 15; 1; 96; 16]
                     17 (repeat 0 17%nat) 0
     = (store_bytes (repeat 0 17%nat) 0 [10; 11; 12; 13; 14; 15; 16], 7).
Proof.
  split; [reflexivity |]. split; [reflexivity |].
  destruct (absorb_transfer_strips_two 8
              [1; 96; 10; 11; 12; 13; 14; 15; 1; 96; 16]
              (repeat 0 17%nat) 17 0) as [_ Heq];
    [reflexivity | reflexivity | exact Heq].
Defined.

(** * Further properties *)

(** ** The repetition count test over a run *)

Section RctRuns.
Context `{Header}.
Import Health.

Lemma wrap_small (bits z : Z) :
  0 <= z < 2 ^ bits -> wrap bits z = z.
Proof. intros Hz. unfold wrap. apply Z.mod_small. exact Hz. Qed.

Lemma pow2_at_least (bits n : Z) :
  0 <= n <= bits -> 2 ^ n <= 2 ^ bits.
Proof. intros Hn. apply Z.pow_le_mono_r; lia. Qed.

Lemma rct_apply_sound (r : Rct) (op : TestOp) :
  3 <= bits_rct_curRepetitions -> rct_sound r -> rct_sound (rct_apply r op).
Proof.
  intros Hbits (Hmax & Hsig & Hstatus & Hreps & Hwin).
  assert (Hpow : 2 ^ 3 <= 2 ^ bits_rct_curRepetitions)
    by (apply pow2_at_least; lia).
  change (2 ^ 3) with 8 in Hpow.
  destruct op as [| v]; unfold rct_sound; cbn [rct_apply].
  - cbn. repeat split; auto; lia.
  - unfold rct_sample.
    destruct (rct_isInitialized r); cbn [negb].
    + destruct (rct_lastSample r =? v).
      * rewrite (wrap_small bits_rct_curRepetitions) by lia.
        rewrite Hmax.
        destruct (Z.geb_spec (rct_curRepetitions r + 1) 5); cbn.
        -- repeat split; auto; try lia.
           destruct (_ >=? _); [| exact Hstatus].
           destruct (Z.eqb_spec (rct_statusByte r) 0); [right | ]; tauto.
        -- repeat split; auto; lia.
      * cbn. repeat split; auto; lia.
    + cbn. repeat split; auto; lia.
Qed.

(** X1.  Whatever sequence of [rct_restart] and [rct_sample] calls follows
    [rct_initialize], the test keeps [maxRepetitions] at 5 and its
    signature at 1, its status byte is 0 or 1, and [curRepetitions] stays
    between 1 and 4: a run never counts further than the maximum. *)
Theorem rct_state_invariant (ops : list TestOp) :
  3 <= bits_rct_curRepetitions ->
  let r := fold_left rct_apply ops rct_initialize in
  rct_maxRepetitions r = 5 /\ rct_signature r = 1
  /\ (rct_statusByte r = 0 \/ rct_statusByte r = 1)
  /\ 1 <= rct_curRepetitions r <= 4 /\ rct_failureWindow r = 0.
Proof.
  intros Hbits.
  apply (fold_left_invariant rct_sound).
  - intros r op. apply rct_apply_sound. exact Hbits.
  - unfold rct_sound. cbn. repeat split; auto; lia.
Qed.

Lemma fold_left_snoc {A B : Type} (f : A -> B -> A) (l : list B) (b : B) (a : A) :
  fold_left f (l ++ [b]) a = f (fold_left f l a) b.
Proof. rewrite fold_left_app. reflexivity. Qed.

Lemma repeat_snoc {A : Type} (x : A) (n : nat) :
  repeat x (S n) = repeat x n ++ [x].
Proof. cbn [repeat]. apply repeat_cons. Qed.

(** X2.  A run of one value after a restart: the first sample starts the
    run and every fourth sample after it counts a failure.  After [n]
    samples of the same value [failureCount] is [(n - 1) / 4], as long as
    that fits the counter, and [curRepetitions] is [1 + (n - 1) mod 4].
    A status byte that was set before the restart is still what it was;
    one that was 0 has taken the signature exactly when the count is at
    least 1 and has reached [numConsecFailThreshold], and is 0
    otherwise. *)
Theorem rct_run_counts_failures (r : Rct) (v : Z) (n : nat) :
  3 <= bits_rct_curRepetitions ->
  rct_maxRepetitions r = 5 ->
  (1 <= n)%nat ->
  (Z.of_nat n - 1) / 4 < 2 ^ bits_rct_failureCount ->
  let r' := fold_left rct_sample (repeat v n) (rct_restart r) in
  let fails := (Z.of_nat n - 1) / 4 in
  rct_failureCount r' = fails
  /\ rct_curRepetitions r' = 1 + (Z.of_nat n - 1) mod 4
  /\ rct_statusByte r'
     = if rct_statusByte r =? 0
       then if (1 <=? fails) && (numConsecFailThreshold <=? fails)
            then rct_signature r else 0
       else rct_statusByte r.
Proof.
  intros Hbits Hmax Hn Hroom.
  assert (Hpow : 2 ^ 3 <= 2 ^ bits_rct_curRepetitions)
    by (apply pow2_at_least; lia).
  change (2 ^ 3) with 8 in Hpow.
  cbv zeta.
  assert (Hgen :
    let r' := fold_left rct_sample (repeat v n) (rct_restart r) in
    rct_isInitialized r' = true /\ rct_lastSample r' = v
    /\ rct_maxRepetitions r' = 5 /\ rct_signature r' = rct_signature r
    /\ rct_failureCount r' = (Z.of_nat n - 1) / 4
    /\ rct_curRepetitions r' = 1 + (Z.of_nat n - 1) mod 4
    /\ rct_statusByte r'
       = if rct_statusByte r =? 0
         then if (1 <=? (Z.of_nat n - 1) / 4)
                 && (numConsecFailThreshold <=? (Z.of_nat n - 1) / 4)
              then rct_signature r else 0
         else rct_statusByte r).
  { induction n as [| n IH]; [lia |].
    destruct n as [| m].
    - cbn. rewrite Hmax.
      destruct (Z.eqb_spec (rct_statusByte r) 0) as [Hclear | Hset];
        repeat split; assumption.
    - rewrite repeat_snoc, fold_left_snoc.
      assert (Hprev : (Z.of_nat (S m) - 1) / 4 < 2 ^ bits_rct_failureCount).
      { eapply Z.le_lt_trans; [| exact Hroom].
        apply Z.div_le_mono; lia. }
      specialize (IH ltac:(lia) Hprev). cbv zeta in IH.
      set (prev := fold_left rct_sample (repeat v (S m)) (rct_restart r)) in *.
      destruct IH as (Hinit & Hlast & Hmax' & Hsig & Hfc & Hcur & Hst).
      cbv zeta. unfold rct_sample. rewrite Hinit, Hlast, Z.eqb_refl, Hmax'.
      cbn [negb].
      replace (Z.of_nat (S (S m)) - 1) with (Z.of_nat (S m) - 1 + 1) in * by lia.
      set (k := Z.of_nat (S m) - 1) in *.
      assert (Hk : 0 <= k) by (unfold k; lia).
      pose proof (Z.mod_pos_bound k 4 ltac:(lia)) as Hmod.
      rewrite (wrap_small bits_rct_curRepetitions) by lia.
      rewrite Hcur.
      assert (Hdiv : 0 <= k / 4) by (apply Z.div_pos; lia).
      destruct (Z.geb_spec (1 + k mod 4 + 1) 5) as [Hfull | Hshort];
        cbn [rct_isInitialized rct_lastSample rct_maxRepetitions
             rct_signature rct_failureCount rct_curRepetitions rct_statusByte].
      + assert (Hq : (k + 1) / 4 = k / 4 + 1 /\ (k + 1) mod 4 = 0)
          by (Z.div_mod_to_equations; lia).
        destruct Hq as [Hq Hr]. rewrite Hq, Hr in *.
        rewrite Hfc, (wrap_small bits_rct_failureCount) by lia.
        repeat split; auto.
        rewrite Hst, Hsig.
        destruct (Z.eqb_spec (rct_statusByte r) 0) as [Hclear | Hset].
        * destruct (Z.geb_spec (k / 4 + 1) numConsecFailThreshold)
            as [Hge | Hlt].
          -- destruct (Z.leb_spec 1 (k / 4 + 1)); [| lia].
             destruct (Z.leb_spec numConsecFailThreshold (k / 4 + 1)); [| lia].
             cbn [andb].
             destruct ((1 <=? k / 4) && (numConsecFailThreshold <=? k / 4)).
             ++ destruct (Z.eqb_spec (rct_signature r) 0) as [-> |];
                  reflexivity.
             ++ reflexivity.
          -- destruct (Z.leb_spec numConsecFailThreshold (k / 4 + 1)); [lia |].
             destruct (Z.leb_spec numConsecFailThreshold (k / 4)); [lia |].
             rewrite !andb_false_r. reflexivity.
        * destruct (k / 4 + 1 >=? numConsecFailThreshold); [| reflexivity].
          destruct (Z.eqb_spec (rct_statusByte r) 0);
            [contradiction | reflexivity].
      + assert (Hq : (k + 1) / 4 = k / 4 /\ (k + 1) mod 4 = k mod 4 + 1)
          by (Z.div_mod_to_equations; lia).
        destruct Hq as [Hq Hr]. rewrite Hq, Hr.
        repeat split; auto; lia. }
  cbv zeta in Hgen. destruct Hgen as (_ & _ & _ & _ & Hfc & Hcur & Hst).
  repeat split; assumption.
Qed.

End RctRuns.

(** ** The adaptive proportion test over a window *)

Section AptWindows.
Context `{Header}.
Import Health.

Lemma occurrences_snoc (v x : Z) (vs : list Z) :
  occurrences v (vs ++ [x]) = occurrences v vs + (if x =? v then 1 else 0).
Proof.
  induction vs as [| y vs IH]; cbn [occurrences app]; [lia |].
  rewrite IH. lia.
Qed.

Lemma occurrences_bounds (v : Z) (vs : list Z) :
  0 <= occurrences v vs <= Z.of_nat (length vs).
Proof.
  induction vs as [| y vs IH]; cbn [occurrences length]; [lia |].
  destruct (y =? v); lia.
Qed.

(** The state of the test inside a window: [v0] has opened it after a
    restart, and [vs] has followed. *)
Lemma apt_window_state (a : Apt) (v0 : Z) (vs : list Z) :
  7 <= bits_apt_curSamples -> 7 <= bits_apt_curRepetitions ->
  7 <= bits_apt_cycleFailures -> 1 <= numConsecFailThreshold ->
  apt_windowSize a = 64 -> apt_cutoffValue a = 5 ->
  (length vs <= 64)%nat ->
  let a' := fold_left apt_sample vs (apt_sample (apt_restart a) v0) in
  let n := occurrences v0 vs in
  apt_firstSample a' = v0
  /\ apt_curSamples a' = Z.of_nat (length vs)
  /\ apt_isInitialized a' = (Z.of_nat (length vs) <? 64)
  /\ apt_curRepetitions a' = n
  /\ apt_cycleFailures a' = Z.max 0 (n - 5)
  /\ apt_statusByte a'
     = (if apt_statusByte a =? 0
        then if numConsecFailThreshold <=? n - 5 then apt_signature a else 0
        else apt_statusByte a)
  /\ apt_windowSize a' = 64 /\ apt_cutoffValue a' = 5
  /\ apt_signature a' = apt_signature a.
Proof.
  intros Hb1 Hb2 Hb3 Hthr Hwin Hcut.
  assert (Hp1 : 2 ^ 7 <= 2 ^ bits_apt_curSamples)
    by (apply pow2_at_least; lia).
  assert (Hp2 : 2 ^ 7 <= 2 ^ bits_apt_curRepetitions)
    by (apply pow2_at_least; lia).
  assert (Hp3 : 2 ^ 7 <= 2 ^ bits_apt_cycleFailures)
    by (apply pow2_at_least; lia).
  change (2 ^ 7) with 128 in *.
  induction vs as [| x vs IH] using rev_ind; intros Hlen.
  - cbn. rewrite Hwin, Hcut.
    destruct (Z.leb_spec numConsecFailThreshold (0 - 5)); [lia |].
    destruct (Z.eqb_spec (apt_statusByte a) 0) as [Hclear | Hset];
      repeat split; assumption.
  - rewrite length_app in Hlen. cbn [length] in Hlen.
    specialize (IH ltac:(lia)). cbv zeta in IH |- *.
    rewrite fold_left_snoc, occurrences_snoc, length_app. cbn [length].
    set (prev := fold_left apt_sample vs (apt_sample (apt_restart a) v0)) in *.
    pose proof (occurrences_bounds v0 vs) as Hocc.
    set (n := occurrences v0 vs) in *.
    destruct IH as (Hfirst & Hsamples & Hinit & Hreps & Hcf & Hst
                    & Hwin' & Hcut' & Hsig).
    assert (Hopen : apt_isInitialized prev = true).
    { rewrite Hinit. apply Z.ltb_lt. lia. }
    unfold apt_sample. rewrite Hopen. cbn [negb].
    cbn [apt_firstSample apt_curRepetitions apt_cutoffValue apt_cycleFailures
         apt_statusByte apt_signature apt_isInitialized apt_curSamples
         apt_windowSize].
    rewrite Hsamples, Hwin', Hfirst, Hreps, Hcut', Hcf, Hst, Hsig.
    rewrite (wrap_small bits_apt_curSamples) by lia.
    replace (Z.of_nat (length vs + 1)) with (Z.of_nat (length vs) + 1) by lia.
    assert (Hflag : negb (Z.of_nat (length vs) + 1 >=? 64)
                    = (Z.of_nat (length vs) + 1 <? 64)).
    { destruct (Z.geb_spec (Z.of_nat (length vs) + 1) 64),
               (Z.ltb_spec (Z.of_nat (length vs) + 1) 64);
        try reflexivity; lia. }
    rewrite (Z.eqb_sym v0 x).
    destruct (Z.eqb_spec x v0) as [Heq | Hne].
    + rewrite (wrap_small bits_apt_curRepetitions) by lia.
      destruct (Z.gtb_spec (n + 1) 5) as [Hover | Hunder];
        cbn [apt_firstSample apt_curRepetitions apt_cutoffValue
             apt_cycleFailures apt_statusByte apt_signature
             apt_isInitialized apt_curSamples apt_windowSize
             apt_restart_cycle].
      * rewrite (wrap_small bits_apt_cycleFailures) by lia.
        replace (Z.max 0 (n - 5) + 1) with (n + 1 - 5) by lia.
        repeat split; auto; try lia.
        destruct (Z.eqb_spec (apt_statusByte a) 0) as [Hclear | Hset].
        -- destruct (Z.geb_spec (n + 1 - 5) numConsecFailThreshold)
             as [Hge | Hlt].
           ++ destruct (Z.leb_spec numConsecFailThreshold (n + 1 - 5));
                [| lia].
              destruct (numConsecFailThreshold <=? n - 5).
              ** destruct (Z.eqb_spec (apt_signature a) 0) as [-> |];
                   reflexivity.
              ** reflexivity.
           ++ destruct (Z.leb_spec numConsecFailThreshold (n + 1 - 5));
                [lia |].
              destruct (Z.leb_spec numConsecFailThreshold (n - 5)); [lia |].
              reflexivity.
        -- destruct (n + 1 - 5 >=? numConsecFailThreshold); [| reflexivity].
           destruct (Z.eqb_spec (apt_statusByte a) 0);
             [contradiction | reflexivity].
      * repeat split; auto; try lia.
        destruct (Z.eqb_spec (apt_statusByte a) 0) as [Hclear | Hset];
          [| reflexivity].
        destruct (Z.leb_spec numConsecFailThreshold (n + 1 - 5)); [lia |].
        destruct (Z.leb_spec numConsecFailThreshold (n - 5)); [lia |].
        reflexivity.
    + cbn [apt_firstSample apt_curRepetitions apt_cutoffValue
           apt_cycleFailures apt_statusByte apt_signature
           apt_isInitialized apt_curSamples apt_windowSize].
      rewrite Z.add_0_r. repeat split; auto.
Qed.

(** X3.  Within one window of the adaptive proportion test, opened by
    the sample [v0] after a restart and followed by at most 64 samples,
    [curRepetitions] is the number of later samples equal to [v0] and
    [cycleFailures] what that number exceeds the cutoff of 5 by.  A
    status byte that was set before the restart is still what it was;
    one that was 0 has taken the signature exactly when the number has
    reached [5 + numConsecFailThreshold], and is 0 otherwise. *)
Theorem apt_window_latch_criterion (a : Apt) (v0 : Z) (vs : list Z) :
  7 <= bits_apt_curSamples -> 7 <= bits_apt_curRepetitions ->
  7 <= bits_apt_cycleFailures -> 1 <= numConsecFailThreshold ->
  apt_windowSize a = 64 -> apt_cutoffValue a = 5 ->
  (length vs <= 64)%nat ->
  let a' := fold_left apt_sample vs (apt_sample (apt_restart a) v0) in
  apt_curRepetitions a' = occurrences v0 vs
  /\ apt_cycleFailures a' = Z.max 0 (occurrences v0 vs - 5)
  /\ apt_statusByte a'
     = if apt_statusByte a =? 0
       then if 5 + numConsecFailThreshold <=? occurrences v0 vs
            then apt_signature a else 0
       else apt_statusByte a.
Proof.
  intros Hb1 Hb2 Hb3 Hthr Hwin Hcut Hlen.
  destruct (apt_window_state a v0 vs Hb1 Hb2 Hb3 Hthr Hwin Hcut Hlen)
    as (_ & _ & _ & Hreps & Hcf & Hst & _).
  cbv zeta. split; [exact Hreps |]. split; [exact Hcf |].
  rewrite Hst.
  destruct (apt_statusByte a =? 0); [| reflexivity].
  destruct (Z.leb_spec numConsecFailThreshold (occurrences v0 vs - 5)),
           (Z.leb_spec (5 + numConsecFailThreshold) (occurrences v0 vs));
    try reflexivity; lia.
Qed.

(** X4.  A window of the adaptive proportion test holds its first sample
    and [windowSize] (64) more: the test stays on the same first sample
    through 63 further samples, the 64th closes the window, and the sample
    after that opens a new one, becoming the first sample with both
    counters at 0, while the cycle failures counted so far are kept. *)
Theorem apt_window_spans_65_samples (a : Apt) (v0 v' : Z) (vs : list Z) :
  7 <= bits_apt_curSamples -> 7 <= bits_apt_curRepetitions ->
  7 <= bits_apt_cycleFailures -> 1 <= numConsecFailThreshold ->
  apt_windowSize a = 64 -> apt_cutoffValue a = 5 -> apt_statusByte a = 0 ->
  (length vs <= 64)%nat ->
  let a' := fold_left apt_sample vs (apt_sample (apt_restart a) v0) in
  apt_firstSample a' = v0
  /\ apt_isInitialized a' = (Z.of_nat (length vs) <? 64)
  /\ (length vs = 64%nat ->
      apt_firstSample (apt_sample a' v') = v'
      /\ apt_curRepetitions (apt_sample a' v') = 0
      /\ apt_curSamples (apt_sample a' v') = 0
      /\ apt_cycleFailures (apt_sample a' v') = apt_cycleFailures a'
      /\ apt_statusByte (apt_sample a' v') = apt_statusByte a').
Proof.
  intros Hb1 Hb2 Hb3 Hthr Hwin Hcut Hclear Hlen.
  destruct (apt_window_state a v0 vs Hb1 Hb2 Hb3 Hthr Hwin Hcut Hlen)
    as (Hfirst & _ & Hinit & _).
  cbv zeta in Hfirst, Hinit |- *.
  set (a' := fold_left apt_sample vs (apt_sample (apt_restart a) v0)) in *.
  split; [exact Hfirst |]. split; [exact Hinit |].
  intros Hfull. rewrite Hfull in Hinit.
  change (Z.of_nat 64 <? 64) with false in Hinit.
  unfold apt_sample. rewrite Hinit. cbn. repeat split.
Qed.

End AptWindows.

(** ** What [chip_read_data] delivers *)

Section ChipReadFacts.
Context `{Header}.

Lemma store_bytes_spec (xs : list Z) :
  forall (buff : list Z) (cnt : Z),
    0 <= cnt ->
    cnt + Z.of_nat (length xs) <= Z.of_nat (length buff) ->
    store_bytes buff cnt xs
    = take (Z.to_nat cnt) buff ++ map u8 xs
      ++ drop (Z.to_nat cnt + length xs) buff.
Proof.
  induction xs as [| x xs IH]; intros buff cnt Hcnt Hfit;
    cbn [store_bytes map length app] in *.
  - rewrite Nat.add_0_r, take_drop. reflexivity.
  - unfold store_byte. destruct (Z.ltb_spec cnt 0) as [Hneg | _]; [lia |].
    rewrite IH by (rewrite ?length_insert; lia).
    rewrite insert_take_drop by lia.
    replace (Z.to_nat (cnt + 1)) with (S (Z.to_nat cnt)) by lia.
    set (c := Z.to_nat cnt).
    assert (Hc : length (take c buff) = c) by (rewrite length_take; lia).
    replace (take c buff ++ u8 x :: drop (S c) buff)
      with ((take c buff ++ [u8 x]) ++ drop (S c) buff)
      by (rewrite <- app_assoc; reflexivity).
    rewrite take_app_length' by (rewrite length_app; cbn [length]; lia).
    replace (S c + length xs)%nat
      with (length (take c buff ++ [u8 x]) + length xs)%nat
      by (rewrite length_app; cbn [length]; lia).
    rewrite drop_app_add, drop_drop.
    rewrite <- app_assoc. cbn [app].
    replace (c + S (length xs))%nat with (S c + length xs)%nat by lia.
    reflexivity.
Qed.

(** One transfer, as [deframe_selects] has it, for any transfer. *)
Lemma absorb_transfer_spec (size : Z) (data buff : list Z) (length_ cnt : Z) :
  0 < size -> cnt < length_ ->
  absorb_transfer size data length_ buff cnt
  = (store_bytes buff cnt
       (take (Z.to_nat (length_ - cnt)) (strip_two size data)),
     cnt + Z.of_nat (length
       (take (Z.to_nat (length_ - cnt)) (strip_two size data)))).
Proof.
  intros Hsize Hroom. unfold absorb_transfer.
  destruct (Z.gtb_spec (Z.of_nat (length data)) 2) as [Hlong | Hshort].
  - apply (deframe_selects size length_ (length data) Hsize [] data buff cnt);
      [assumption | lia |].
    cbn. rewrite Z.mod_0_l by lia. left. lia.
  - rewrite strip_two_short by (assumption || lia).
    rewrite take_nil. cbn. f_equal. lia.
Qed.

(** The read loop from a point where [cnt] bytes have been stored: the
    transfers it takes from the script, what it leaves alone in [buff],
    and what [buff] holds when it ends with [SUCCESS]. *)
Lemma chip_read_loop_spec (st : Driver) (start length_ opTimeoutSecs : Z)
    (script : list BulkIn) :
  0 < bulk_in_size st ->
  forall (t : Z) (buff : list Z) (cnt : Z),
    0 <= cnt < length_ ->
    length_ <= Z.of_nat (length buff) ->
    let '(retval, buff', _, rest) :=
      chip_read_loop script st start t length_ opTimeoutSecs buff cnt in
    exists consumed : list BulkIn,
      script = consumed ++ rest
      /\ length buff' = length buff
      /\ take (Z.to_nat cnt) buff' = take (Z.to_nat cnt) buff
      /\ drop (Z.to_nat length_) buff' = drop (Z.to_nat length_) buff
      /\ (retval = SUCCESS ->
          length_ - cnt
            <= Z.of_nat (length (deframed (bulk_in_size st) consumed))
          /\ take (Z.to_nat length_) buff'
             = take (Z.to_nat cnt) buff
               ++ map u8 (take (Z.to_nat (length_ - cnt))
                               (deframed (bulk_in_size st) consumed))).
Proof.
  intros Hsize.
  induction script as [| r rest' IH]; intros t buff cnt Hcnt Hfit;
    cbn [chip_read_loop].
  - destruct (isShutDown st); exists [];
      (repeat split; try reflexivity; discriminate).
  - destruct (isShutDown st);
      [exists []; repeat split; try reflexivity; discriminate |].
    destruct (Z.eqb_spec (in_retval r) 0) as [Hok | Hbad]; cbn [negb].
    2: { exists [r]. repeat split; try reflexivity.
         all: exfalso; apply Hbad; assumption. }
    destruct (Z.of_nat (length (in_data r)) >? USB_BUFFER_SIZE).
    { exists [r]. repeat split; try reflexivity; discriminate. }
    rewrite absorb_transfer_spec by (assumption || lia).
    set (sel := take (Z.to_nat (length_ - cnt))
                     (strip_two (bulk_in_size st) (in_data r))).
    assert (Hsel : Z.of_nat (length sel) <= length_ - cnt).
    { unfold sel. rewrite length_take. lia. }
    assert (Hstore : store_bytes buff cnt sel
                     = take (Z.to_nat cnt) buff ++ map u8 sel
                       ++ drop (Z.to_nat cnt + length sel) buff)
      by (apply store_bytes_spec; lia).
    set (buff1 := store_bytes buff cnt sel) in *.
    assert (Hlen1 : length buff1 = length buff).
    { rewrite Hstore, !length_app, length_map, length_take, length_drop. lia. }
    assert (Htake1 : take (Z.to_nat cnt) buff1 = take (Z.to_nat cnt) buff).
    { rewrite Hstore. apply take_app_length'. rewrite length_take. lia. }
    assert (Hdrop1 : drop (Z.to_nat length_) buff1 = drop (Z.to_nat length_) buff).
    { rewrite Hstore, app_assoc.
      rewrite drop_app_ge
        by (rewrite length_app, length_map, length_take; lia).
      rewrite drop_drop. f_equal.
      rewrite length_app, length_map, length_take. lia. }
    assert (Hhead1 : take (Z.to_nat (cnt + Z.of_nat (length sel))) buff1
                     = take (Z.to_nat cnt) buff ++ map u8 sel).
    { rewrite Hstore, app_assoc. apply take_app_length'.
      rewrite length_app, length_map, length_take. lia. }
    destruct (Z.ltb_spec (cnt + Z.of_nat (length sel)) length_) as [Hmore | Hfull];
      cbn [andb].
    + (* the transfer has not filled the request *)
      assert (Hall : sel = strip_two (bulk_in_size st) (in_data r)).
      { unfold sel. apply take_ge.
        unfold sel in Hmore. rewrite length_take in Hmore. lia. }
      destruct (t + in_secs r - start <? opTimeoutSecs).
      * specialize (IH (t + in_secs r) buff1 (cnt + Z.of_nat (length sel))
                       ltac:(lia) ltac:(lia)).
        destruct (chip_read_loop rest' st start (t + in_secs r) length_
                    opTimeoutSecs buff1 (cnt + Z.of_nat (length sel)))
          as [[[retval buff'] t'] rest].
        destruct IH as (consumed & Hscript & Hlen & Htake & Hdrop & Hsucc).
        exists (r :: consumed). split; [rewrite Hscript; reflexivity |].
        split; [congruence |]. split.
        { transitivity
            (take (Z.to_nat cnt)
                  (take (Z.to_nat (cnt + Z.of_nat (length sel))) buff')).
          - rewrite take_take. f_equal. lia.
          - rewrite Htake, take_take.
            replace (Init.Nat.min (Z.to_nat cnt)
                       (Z.to_nat (cnt + Z.of_nat (length sel))))
              with (Z.to_nat cnt) by lia.
            exact Htake1. }
        split; [congruence |].
        intros Hret. destruct (Hsucc Hret) as [Hroom Hdata].
        cbn [deframed flat_map]. fold (deframed (bulk_in_size st) consumed).
        rewrite <- Hall. split.
        { rewrite length_app. lia. }
        rewrite Hdata, Hhead1, <- app_assoc. f_equal.
        rewrite <- map_app. f_equal.
        rewrite take_app_ge by lia. f_equal. f_equal. lia.
      * destruct (negb (cnt + Z.of_nat (length sel) =? length_)) eqn:Hne.
        -- exists [r]. repeat split; auto; discriminate.
        -- apply negb_false_iff, Z.eqb_eq in Hne. lia.
    + rewrite andb_false_l || idtac.
      destruct (Z.eqb_spec (cnt + Z.of_nat (length sel)) length_) as [Hdone | Hnot];
        cbn [negb].
      * exists [r]. split; [reflexivity |]. split; [exact Hlen1 |].
        split; [exact Htake1 |]. split; [exact Hdrop1 |].
        intros _. cbn [deframed flat_map]. rewrite app_nil_r.
        fold sel. split.
        -- assert (length sel
                    <= length (strip_two (bulk_in_size st) (in_data r)))%nat
             by (unfold sel; rewrite length_take; lia).
           lia.
        -- rewrite <- Hdone. exact Hhead1.
      * exists [r]. repeat split; auto; discriminate.
Qed.

(** X5.  When [chip_read_data] returns [SUCCESS], the first [length]
    bytes of the receive buffer are the payload of the transfers it has
    read, in order: each transfer stripped of the two bytes at the head
    of every packet, the whole cut off after [length] bytes.  The
    transfers read are a prefix of what the device sends; the rest is
    left for the next call. *)
Theorem chip_read_data_delivers_payload (st : Driver) (wd : World)
    (buff : list Z) (length_ opTimeoutSecs : Z) :
  0 < bulk_in_size st -> 0 < length_ ->
  length_ <= Z.of_nat (length buff) ->
  fst (fst (chip_read_data st wd buff length_ opTimeoutSecs)) = SUCCESS ->
  exists consumed : list BulkIn,
    bulk_in_script wd
      = consumed
        ++ bulk_in_script (snd (chip_read_data st wd buff length_ opTimeoutSecs))
    /\ length_ <= Z.of_nat (length (deframed (bulk_in_size st) consumed))
    /\ take (Z.to_nat length_)
            (snd (fst (chip_read_data st wd buff length_ opTimeoutSecs)))
       = map u8 (take (Z.to_nat length_)
                      (deframed (bulk_in_size st) consumed)).
Proof.
  intros Hsize Hlen Hfit. unfold chip_read_data.
  pose proof (chip_read_loop_spec st (now wd) length_ opTimeoutSecs
                (bulk_in_script wd) Hsize (now wd) buff 0
                ltac:(lia) Hfit) as Hspec.
  destruct (chip_read_loop (bulk_in_script wd) st (now wd) (now wd)
              length_ opTimeoutSecs buff 0) as [[[retval buff'] t'] rest].
  cbn [fst snd bulk_in_script set_inbound]. intros Hret.
  destruct Hspec as (consumed & Hscript & _ & _ & _ & Hsucc).
  destruct (Hsucc Hret) as [Hroom Hdata].
  exists consumed. split; [exact Hscript |]. split; [lia |].
  rewrite Hdata, Z.sub_0_r. reflexivity.
Qed.

(** X6.  Asked for a positive [length] that the receive buffer can hold,
    and with a packet size that is not 0, [chip_read_data] keeps the
    buffer at its size and writes only into its first [length] bytes,
    whatever the device sends and however the call ends: every byte from
    offset [length] on is as it was. *)
Theorem chip_read_data_stays_in_bounds (st : Driver) (wd : World)
    (buff : list Z) (length_ opTimeoutSecs : Z) :
  0 < bulk_in_size st -> 0 < length_ ->
  length_ <= Z.of_nat (length buff) ->
  let buff' := snd (fst (chip_read_data st wd buff length_ opTimeoutSecs)) in
  length buff' = length buff
  /\ drop (Z.to_nat length_) buff' = drop (Z.to_nat length_) buff.
Proof.
  intros Hsize Hlen Hfit. unfold chip_read_data.
  pose proof (chip_read_loop_spec st (now wd) length_ opTimeoutSecs
                (bulk_in_script wd) Hsize (now wd) buff 0
                ltac:(lia) Hfit) as Hspec.
  destruct (chip_read_loop (bulk_in_script wd) st (now wd) (now wd)
              length_ opTimeoutSecs buff 0) as [[[retval buff'] t'] rest].
  cbn [fst snd]. destruct Hspec as (_ & _ & Hsame & _ & Hdrop & _).
  split; assumption.
Qed.

End ChipReadFacts.

(** ** Commands on the wire *)

Section WireFacts.
Context `{Header}.

Lemma chip_read_data_wire (st : Driver) (wd : World) (buff : list Z)
    (length_ opTimeoutSecs : Z) :
  let wd' := snd (chip_read_data st wd buff length_ opTimeoutSecs) in
  wire_log wd' = wire_log wd
  /\ bulk_out_script wd' = bulk_out_script wd
  /\ user_buffer wd' = user_buffer wd
  /\ lock_killed wd' = lock_killed wd.
Proof.
  unfold chip_read_data.
  destruct (chip_read_loop _ _ _ _ _ _ _ _) as [[[retval buff'] t] rest].
  cbn. repeat split.
Qed.

Lemma usb_bulk_msg_out_wire (wd : World) (cmd : list Z) (sizeSnd : Z) :
  wire_log (snd (usb_bulk_msg_out wd cmd sizeSnd))
  = wire_log wd ++ [take (Z.to_nat sizeSnd) cmd].
Proof. unfold usb_bulk_msg_out. destruct (bulk_out_script wd); reflexivity. Qed.

(** The retry loop, counted: [n] commands go out, one per attempt. *)
Lemma exchange_loop_counts (st : Driver) (cmd : list Z)
    (sizeSnd sizeRcv opTimeoutSecs : Z) (todo : nat) :
  forall (wd : World) (rcv : list Z) (retry retval : Z),
    USB_READ_MAX_RETRY_CNT <= retry + Z.of_nat todo ->
    let '(how, _, wd') :=
      exchange_loop todo st wd cmd sizeSnd rcv sizeRcv opTimeoutSecs
                    retry retval in
    exists n : nat,
      wire_log wd' = wire_log wd ++ repeat (take (Z.to_nat sizeSnd) cmd) n
      /\ match how with
         | Returned _ => isShutDown st = true /\ n = 0%nat
         | Exited retry' retval' =>
             (retry' < USB_READ_MAX_RETRY_CNT ->
              Z.of_nat n = retry' - retry + 1 /\ retval' = SUCCESS)
             /\ (USB_READ_MAX_RETRY_CNT <= retry' ->
                 Z.of_nat n = retry' - retry
                 /\ retry' = Z.max retry USB_READ_MAX_RETRY_CNT)
         end.
Proof.
  induction todo as [| todo' IH]; intros wd rcv retry retval Hfuel.
  - cbn [exchange_loop]. exists 0%nat. cbn [repeat].
    rewrite app_nil_r. split; [reflexivity |]. split; intros; lia.
  - cbn [exchange_loop].
    destruct (Z.ltb_spec retry USB_READ_MAX_RETRY_CNT) as [Hlt | Hge].
    2: { exists 0%nat. cbn [repeat]. rewrite app_nil_r.
         split; [reflexivity |]. split; intros; lia. }
    destruct (isShutDown st) eqn:Hdown.
    { exists 0%nat. cbn [repeat]. rewrite app_nil_r. repeat split. }
    pose proof (usb_bulk_msg_out_wire wd cmd sizeSnd) as Hout.
    destruct (usb_bulk_msg_out wd cmd sizeSnd) as [[sent actualcCnt] wd1].
    cbn [snd] in Hout.
    assert (Hgrow : forall (how : Attempts) (wd' : World) (rcv' : list Z)
                      (wd2 : World),
      wire_log wd2 = wire_log wd1 ->
      (exists n : nat,
         wire_log wd' = wire_log wd2 ++ repeat (take (Z.to_nat sizeSnd) cmd) n
         /\ match how with
            | Returned _ => false = true /\ n = 0%nat
            | Exited retry' retval' =>
                (retry' < USB_READ_MAX_RETRY_CNT ->
                 Z.of_nat n = retry' - (retry + 1) + 1 /\ retval' = SUCCESS)
                /\ (USB_READ_MAX_RETRY_CNT <= retry' ->
                    Z.of_nat n = retry' - (retry + 1)
                    /\ retry' = Z.max (retry + 1) USB_READ_MAX_RETRY_CNT)
            end) ->
      exists n : nat,
        wire_log wd' = wire_log wd ++ repeat (take (Z.to_nat sizeSnd) cmd) n
        /\ match how with
           | Returned _ => false = true /\ n = 0%nat
           | Exited retry' retval' =>
               (retry' < USB_READ_MAX_RETRY_CNT ->
                Z.of_nat n = retry' - retry + 1 /\ retval' = SUCCESS)
               /\ (USB_READ_MAX_RETRY_CNT <= retry' ->
                   Z.of_nat n = retry' - retry
                   /\ retry' = Z.max retry USB_READ_MAX_RETRY_CNT)
           end).
    { intros how wd' rcv' wd2 Hsame (n & Hlog & Hhow).
      exists (S n). split.
      - rewrite Hlog, Hsame, Hout, <- app_assoc. reflexivity.
      - destruct how as [r | retry' retval'].
        + destruct Hhow as [Hfalse _]. discriminate.
        + destruct Hhow as [Hwithin Hspent]. split.
          * intros Hw. destruct (Hwithin Hw). split; [lia | assumption].
          * intros Hs. destruct (Hspent Hs). split; lia. }
    destruct ((sent =? SUCCESS) && (actualcCnt =? sizeSnd)).
    + pose proof (chip_read_data_wire st wd1 rcv (sizeRcv + 1) opTimeoutSecs)
        as (Hwire & _).
      destruct (chip_read_data st wd1 rcv (sizeRcv + 1) opTimeoutSecs)
        as [[got rcv'] wd2].
      cbn [snd] in Hwire.
      destruct (Z.eqb_spec got SUCCESS) as [Hgot | Hbad].
      * destruct (negb (byte_at rcv' sizeRcv =? 0)).
        -- specialize (IH wd2 rcv' (retry + 1) (- EFAULT) ltac:(lia)).
           destruct (exchange_loop todo' st wd2 cmd sizeSnd rcv' sizeRcv
                       opTimeoutSecs (retry + 1) (- EFAULT))
             as [[how rcv''] wd'].
           apply (Hgrow how wd' rcv'' wd2 Hwire). exact IH.
        -- exists 1%nat. split.
           ++ rewrite Hwire, Hout. reflexivity.
           ++ split; intros; [split; [lia | assumption] | lia].
      * specialize (IH wd2 rcv' (retry + 1) got ltac:(lia)).
        destruct (exchange_loop todo' st wd2 cmd sizeSnd rcv' sizeRcv
                    opTimeoutSecs (retry + 1) got)
          as [[how rcv''] wd'].
        apply (Hgrow how wd' rcv'' wd2 Hwire). exact IH.
    + specialize (IH wd1 rcv (retry + 1) sent ltac:(lia)).
      destruct (exchange_loop todo' st wd1 cmd sizeSnd rcv sizeRcv
                  opTimeoutSecs (retry + 1) sent)
        as [[how rcv''] wd'].
      apply (Hgrow how wd' rcv'' wd1 eq_refl). exact IH.
Qed.

(** X7.  One exchange puts the command on the wire once per attempt and
    never more than [USB_READ_MAX_RETRY_CNT] times, each time the first
    [sizeSnd] bytes of [snd] unchanged.  Unless the module is shutting
    down, an exchange that does not succeed has used the whole retry
    budget and returns [- ETIMEDOUT]. *)
Theorem exchange_retry_budget (st : Driver) (wd : World) (cmd : list Z)
    (sizeSnd : Z) (rcv : list Z) (sizeRcv opTimeoutSecs : Z) :
  let '(retval, _, wd') :=
    snd_rcv_usb_data st wd cmd sizeSnd rcv sizeRcv opTimeoutSecs in
  exists n : nat,
    wire_log wd' = wire_log wd ++ repeat (take (Z.to_nat sizeSnd) cmd) n
    /\ Z.of_nat n <= Z.max 0 USB_READ_MAX_RETRY_CNT
    /\ (isShutDown st = false -> retval <> SUCCESS ->
        retval = - ETIMEDOUT
        /\ Z.of_nat n = Z.max 0 USB_READ_MAX_RETRY_CNT).
Proof.
  unfold snd_rcv_usb_data.
  pose proof (exchange_loop_counts st cmd sizeSnd sizeRcv opTimeoutSecs
                (Z.to_nat USB_READ_MAX_RETRY_CNT) wd rcv 0 SUCCESS) as Hcount.
  destruct (exchange_loop (Z.to_nat USB_READ_MAX_RETRY_CNT) st wd cmd
              sizeSnd rcv sizeRcv opTimeoutSecs 0 SUCCESS)
    as [[how rcv'] wd'].
  destruct Hcount as (n & Hlog & Hhow); [lia |].
  destruct how as [r | retry' retval'].
  - destruct Hhow as [Hdown ->]. exists 0%nat.
    split; [exact Hlog |]. split; [lia |].
    intros Hup. congruence.
  - destruct Hhow as [Hwithin Hspent].
    destruct (Z.geb_spec retry' USB_READ_MAX_RETRY_CNT) as [Hge | Hlt].
    + destruct (Hspent ltac:(lia)) as [Hn Hmax].
      exists n. split; [exact Hlog |]. split; [lia |].
      intros _ _. split; [reflexivity | lia].
    + destruct (Hwithin Hlt) as [Hn Hok].
      exists n. split; [exact Hlog |]. split; [lia |].
      intros _ Hbad. contradiction.
Qed.

Lemma refill_command_bytes :
  nth 1 refill_command 0 + 256 * nth 2 refill_command 0
  = RND_IN_BUFFSIZE mod 65536.
Proof.
  unfold refill_command. cbn [nth]. unfold u8, u16, wrap.
  change 0x00ff with (Z.ones 8). rewrite Z.land_ones by lia.
  rewrite Z.shiftr_div_pow2 by lia.
  change (2 ^ 16) with 65536. change (2 ^ 8) with 256.
  pose proof (Z.mod_pos_bound RND_IN_BUFFSIZE 65536 ltac:(lia)) as Hb.
  set (x := RND_IN_BUFFSIZE mod 65536) in *.
  rewrite Z.mod_mod by lia.
  rewrite (Z.mod_small (x / 256) 256)
    by (split; [apply Z.div_pos; lia | apply Z.div_lt_upper_bound; lia]).
  pose proof (Z.div_mod x 256 ltac:(lia)). lia.
Qed.

(** X8.  Every command a refill puts on the wire is the three bytes
    ['x', low, high] with [low + 256 * high] the size of a raw block
    (modulo 2^16); a refill sends it at most [USB_READ_MAX_RETRY_CNT]
    times, and not at all when the module is not ready or is shutting
    down. *)
Theorem refill_wire_format (st : Driver) (wd : World) :
  exists n : nat,
    wire_log (snd (rcv_rnd_bytes st wd))
      = wire_log wd ++ repeat refill_command n
    /\ Z.of_nat n <= Z.max 0 USB_READ_MAX_RETRY_CNT
    /\ (isEntropySrcRdy st = false \/ isShutDown st = true -> n = 0%nat)
    /\ nth 0 refill_command 0 = 120
    /\ nth 1 refill_command 0 + 256 * nth 2 refill_command 0
       = RND_IN_BUFFSIZE mod 65536.
Proof.
  assert (Hidle : isEntropySrcRdy st = false \/ isShutDown st = true ->
                  rcv_rnd_bytes st wd = (- EPERM, st, wd))
    by apply rcv_rnd_bytes_rejected.
  destruct (isEntropySrcRdy st) eqn:Hrdy;
    [destruct (isShutDown st) eqn:Hup |].
  1, 3: rewrite Hidle by auto; exists 0%nat; cbn [snd repeat];
        rewrite app_nil_r; repeat split; try lia;
        apply refill_command_bytes.
  unfold rcv_rnd_bytes. rewrite Hrdy, Hup. cbn [negb orb].
  unfold request_raw_block.
  pose proof (exchange_retry_budget
    (set_pending st (isDeviceOpPending st) true) wd
    [120; u8 (Z.land (u16 RND_IN_BUFFSIZE) 0x00ff);
     u8 (Z.shiftr (u16 RND_IN_BUFFSIZE) 8)] 3
    (buffRndIn (set_pending st (isDeviceOpPending st) true))
    RND_IN_BUFFSIZE USB_READ_TIMEOUT_SECS) as Hbudget.
  destruct (snd_rcv_usb_data _ wd _ 3 _ _ _) as [[retval rnd] wd1].
  destruct Hbudget as (n & Hlog & Hn & _).
  exists n. split.
  - destruct (retval =? SUCCESS); cbn [snd]; exact Hlog.
  - split; [exact Hn |]. split; [intros [Hf | Hf]; discriminate |].
    split; [reflexivity | apply refill_command_bytes].
Qed.

End WireFacts.

(** ** What a refill does to the tests and the flags *)

Section RefillOutcome.
Context `{Header}.

Lemma sample_fold_tests (l : list nat) :
  forall st : Driver,
    let st' := fold_left sample_byte l st in
    buffTRndOut st' = buffTRndOut st
    /\ rct st'
       = fold_left Health.rct_sample
           (map (fun i => u8 (byte_at (buffTRndOut st) (Z.of_nat i))) l)
           (rct st)
    /\ apt st'
       = fold_left Health.apt_sample
           (map (fun i => u8 (byte_at (buffTRndOut st) (Z.of_nat i))) l)
           (apt st).
Proof.
  induction l as [| i l IH]; intros st; cbn [fold_left map].
  - repeat split.
  - specialize (IH (sample_byte st i)). cbv zeta in IH |- *.
    destruct IH as (Hbuf & Hrct & Happt).
    cbn [buffTRndOut sample_byte set_tests rct apt] in Hbuf, Hrct, Happt.
    repeat split; assumption.
Qed.

Lemma sample_loop_flags (st : Driver) :
  let st' := sample_loop st in
  isEntropySrcRdy st' = isEntropySrcRdy st
  /\ isShutDown st' = isShutDown st
  /\ isDeviceOpPending st' = isDeviceOpPending st
  /\ isUsbOpPending st' = isUsbOpPending st
  /\ buffRndIn st' = buffRndIn st.
Proof.
  unfold sample_loop.
  apply (fold_left_invariant
    (fun s => isEntropySrcRdy s = isEntropySrcRdy st
              /\ isShutDown s = isShutDown st
              /\ isDeviceOpPending s = isDeviceOpPending st
              /\ isUsbOpPending s = isUsbOpPending st
              /\ buffRndIn s = buffRndIn st)).
  - intros a b Ha. exact Ha.
  - repeat split.
Qed.

Lemma condition_loop_pending (todo : nat) :
  forall (i dst : Z) (st : Driver),
    isDeviceOpPending (condition_loop todo i dst st) = isDeviceOpPending st
    /\ isUsbOpPending (condition_loop todo i dst st) = isUsbOpPending st.
Proof.
  induction todo as [| todo' IH]; intros i dst st; cbn [condition_loop].
  - split; reflexivity.
  - destruct (i <? Z.quot RND_IN_BUFFSIZE WORD_SIZE_BYTES);
      [| split; reflexivity].
    destruct (IH (i + MIN_INPUT_NUM_WORDS) (dst + OUT_NUM_WORDS)
                 (condition_subblock st i dst)) as [-> ->].
    unfold condition_subblock.
    destruct (Sha256.sha256_stampSerialNumber _ _) as [sd1 stamped].
    destruct (Sha256.sha256_generateHash _ _ _) as [[ret sd2] digest].
    split; reflexivity.
Qed.

(** X9.  A refill whose exchange succeeds restarts both tests and feeds
    each of them every byte of the newly conditioned block once, in
    order; its status is [- EPERM] if either status byte is set
    afterwards and [SUCCESS] otherwise.  It leaves the cursor at 0 and
    [isUsbOpPending] cleared. *)
Theorem refill_samples_whole_block (st : Driver) (wd : World) :
  isEntropySrcRdy st = true -> isShutDown st = false ->
  exchange_status st wd = SUCCESS ->
  let '(retval, st', _) := rcv_rnd_bytes st wd in
  rct st' = fold_left Health.rct_sample (block_bytes st')
                      (Health.rct_restart (rct st))
  /\ apt st' = fold_left Health.apt_sample (block_bytes st')
                         (Health.apt_restart (apt st))
  /\ retval = (if negb (Health.rct_statusByte (rct st') =? 0)
                  || negb (Health.apt_statusByte (apt st') =? 0)
               then - EPERM else SUCCESS)
  /\ curTrngOutIdx st' = 0
  /\ isUsbOpPending st' = false.
Proof.
  intros Hrdy Hup. unfold exchange_status, rcv_rnd_bytes.
  rewrite Hrdy, Hup. cbn [negb orb].
  destruct (request_raw_block _ wd) as [[retval rnd] wd1]. cbn [fst].
  intros ->. cbn [Z.eqb SUCCESS].
  set (st3 := set_tests _ _ _).
  set (st4 := condition_loop _ 0 0 st3).
  pose proof (condition_loop_frame
    (Z.to_nat (Z.quot RND_IN_BUFFSIZE WORD_SIZE_BYTES)) 0 0 st3)
    as (Hrct & Hapt & _).
  fold st4 in Hrct, Hapt.
  pose proof (sample_loop_frame (set_cursor st4 0)) as (_ & Hcur & _).
  pose proof (sample_fold_tests (seq 0 (Z.to_nat TRND_OUT_BUFFSIZE))
                (set_cursor st4 0)) as (Hbuf & Hr & Ha).
  fold (sample_loop (set_cursor st4 0)) in Hbuf, Hr, Ha.
  unfold block_bytes.
  cbn [rct apt curTrngOutIdx isUsbOpPending buffTRndOut set_pending].
  rewrite Hbuf, Hr, Ha.
  cbn [rct apt set_cursor buffTRndOut]. rewrite Hrct, Hapt.
  repeat split; try assumption.
  change SUCCESS with 0.
  rewrite <- Hrct, <- Hapt.
  change (rct st4) with (rct (set_cursor st4 0)).
  change (apt st4) with (apt (set_cursor st4 0)).
  change (buffTRndOut st4) with (buffTRndOut (set_cursor st4 0)).
  rewrite <- Hr, <- Ha.
  destruct (Health.rct_statusByte (rct (sample_loop (set_cursor st4 0))) =? 0);
    cbn [negb orb]; [| reflexivity].
  destruct (Health.apt_statusByte (apt (sample_loop (set_cursor st4 0))) =? 0);
    reflexivity.
Qed.

(** X10.  Once a health test has latched, every later refill fails: with
    [- EPERM] when the exchange completes, with the error of the exchange
    otherwise.  The test is still latched afterwards, so this holds for
    every refill that follows. *)
Theorem latched_refills_fail (st : Driver) (wd : World) :
  latched st ->
  fst (fst (rcv_rnd_bytes st wd)) <> SUCCESS
  /\ latched (snd (fst (rcv_rnd_bytes st wd)))
  /\ (exchange_status st wd = SUCCESS -> isEntropySrcRdy st = true ->
      isShutDown st = false -> fst (fst (rcv_rnd_bytes st wd)) = - EPERM).
Proof.
  intros Hl. pose proof (rcv_rnd_bytes_latched st wd Hl) as Hfail.
  pose proof (rcv_rnd_bytes_conditioned st wd) as Hcond.
  destruct (rcv_rnd_bytes st wd) as [[retval st'] wd']. cbn [fst snd].
  destruct Hfail as [Hbad Hkeep]. split; [exact Hbad |].
  split; [exact Hkeep |].
  intros Hok Hrdy Hup. destruct (Hcond Hrdy Hup Hok) as (_ & _ & Hrej & _).
  apply Hrej. exact Hkeep.
Qed.

(** X11.  The block serial number only ever moves forward: a refill whose
    exchange succeeds advances it by the number of sub-blocks it hashes,
    modulo 2^32, and every other refill leaves it where it is. *)
Theorem serial_moves_with_refills (st : Driver) (wd : World) :
  0 <= MIN_INPUT_NUM_WORDS < Z.of_nat (length (srcToHash st)) ->
  0 <= Sha256.blockSerialNumber (sd st) < 2 ^ 32 ->
  Sha256.blockSerialNumber (sd (snd (fst (rcv_rnd_bytes st wd))))
  = if isEntropySrcRdy st && negb (isShutDown st)
       && (exchange_status st wd =? SUCCESS)
    then u32 (Sha256.blockSerialNumber (sd st)
              + Z.of_nat (condition_turns
                  (Z.to_nat (Z.quot RND_IN_BUFFSIZE WORD_SIZE_BYTES)) 0))
    else Sha256.blockSerialNumber (sd st).
Proof. apply refill_advances_serial. Qed.

End RefillOutcome.

(** ** Reads from the character device *)

Section DeviceReadFacts.
Context `{Header}.

Lemma copy_bytes_spec (src : list Z) :
  forall (dst : list Z) (at_ : nat),
    (at_ + length src <= length dst)%nat ->
    copy_bytes dst at_ src
    = take at_ dst ++ src ++ drop (at_ + length src) dst.
Proof.
  induction src as [| b src IH]; intros dst at_ Hfit;
    cbn [copy_bytes length app] in *.
  - rewrite Nat.add_0_r, take_drop. reflexivity.
  - rewrite IH by (rewrite length_insert; lia).
    rewrite insert_take_drop by lia.
    assert (Hc : length (take at_ dst) = at_) by (rewrite length_take; lia).
    replace (take at_ dst ++ b :: drop (S at_) dst)
      with ((take at_ dst ++ [b]) ++ drop (S at_) dst)
      by (rewrite <- app_assoc; reflexivity).
    rewrite take_app_length' by (rewrite length_app; cbn [length]; lia).
    replace (S at_ + length src)%nat
      with (length (take at_ dst ++ [b]) + length src)%nat
      by (rewrite length_app; cbn [length]; lia).
    rewrite drop_app_add, drop_drop.
    rewrite <- app_assoc. cbn [app].
    replace (at_ + S (length src))%nat with (S at_ + length src)%nat by lia.
    reflexivity.
Qed.

Lemma rcv_rnd_bytes_flags (st : Driver) (wd : World) :
  let st' := snd (fst (rcv_rnd_bytes st wd)) in
  isEntropySrcRdy st' = isEntropySrcRdy st
  /\ isShutDown st' = isShutDown st
  /\ isDeviceOpPending st' = isDeviceOpPending st.
Proof.
  unfold rcv_rnd_bytes.
  destruct (negb (isEntropySrcRdy st) || isShutDown st); [repeat split |].
  destruct (request_raw_block _ wd) as [[retval rnd] wd1].
  destruct (retval =? SUCCESS); [| repeat split].
  set (st3 := set_tests _ _ _).
  set (st4 := condition_loop _ 0 0 st3).
  pose proof (sample_loop_flags (set_cursor st4 0)) as (Hr & Hs & Hd & _).
  pose proof (condition_loop_frame
    (Z.to_nat (Z.quot RND_IN_BUFFSIZE WORD_SIZE_BYTES)) 0 0 st3)
    as (_ & _ & _ & _ & Hr4 & Hs4).
  pose proof (condition_loop_pending
    (Z.to_nat (Z.quot RND_IN_BUFFSIZE WORD_SIZE_BYTES)) 0 0 st3)
    as (Hd4 & _).
  fold st4 in Hr4, Hs4, Hd4.
  cbn [fst snd isEntropySrcRdy isShutDown isDeviceOpPending set_pending].
  rewrite Hr, Hs, Hd.
  cbn [isEntropySrcRdy isShutDown isDeviceOpPending set_cursor].
  rewrite Hr4, Hs4, Hd4. repeat split.
Qed.

Lemma read_turn_flags (st : Driver) (wd : World) (length_ total : Z) :
  let st' := snd (fst (read_turn st wd length_ total)) in
  isEntropySrcRdy st' = isEntropySrcRdy st
  /\ isShutDown st' = isShutDown st.
Proof.
  unfold read_turn, get_entropy_bytes.
  destruct (curTrngOutIdx st >=? TRND_OUT_BUFFSIZE).
  - pose proof (rcv_rnd_bytes_flags st wd) as (Hr & Hs & _).
    destruct (rcv_rnd_bytes st wd) as [[retval st1] wd1].
    cbn [fst snd] in Hr, Hs.
    destruct (retval =? SUCCESS); [| split; assumption].
    destruct (copy_to_user wd1 total _) as [missed wd2].
    destruct (negb (missed =? 0)); split; assumption.
  - cbn [Z.eqb SUCCESS].
    destruct (copy_to_user wd total _) as [missed wd2].
    destruct (negb (missed =? 0)); split; reflexivity.
Qed.

Lemma read_loop_flags (todo : nat) :
  forall (st : Driver) (wd : World) (length_ total retval : Z)
         (st' : Driver) (wd' : World),
    read_loop todo st wd length_ total = Some (retval, st', wd') ->
    isEntropySrcRdy st' = isEntropySrcRdy st
    /\ isShutDown st' = isShutDown st.
Proof.
  induction todo as [| todo' IH];
    intros st wd length_ total retval st' wd'; cbn [read_loop];
    [discriminate |].
  pose proof (read_turn_flags st wd length_ total) as Hturn.
  destruct (read_turn st wd length_ total) as [[turn st1] wd1].
  cbn [fst snd] in Hturn. destruct Hturn as [Hr Hs].
  destruct turn as [ret | total'].
  - intros Heq. injection Heq as _ <- _. split; assumption.
  - destruct (total' <? length_).
    + intros Hloop. apply IH in Hloop. rewrite <- Hr, <- Hs. exact Hloop.
    + intros Heq. injection Heq as _ <- _. split; assumption.
Qed.

(** X12.  A read that the current block can satisfy is served from it
    alone: it returns the requested count, copies exactly the bytes at
    the cursor into the start of the caller's buffer, leaves the rest of
    that buffer as it was, advances the cursor by the count and exchanges
    nothing with the device. *)
Theorem device_read_within_block (st : Driver) (wd : World) (length_ : Z) :
  lock_killed wd = false ->
  isEntropySrcRdy st = true -> isShutDown st = false ->
  0 < length_ -> 0 <= curTrngOutIdx st ->
  curTrngOutIdx st + length_ <= TRND_OUT_BUFFSIZE ->
  TRND_OUT_BUFFSIZE <= Z.of_nat (length (buffTRndOut st)) ->
  length_ <= Z.of_nat (length (user_buffer wd)) ->
  exists (st' : Driver) (wd' : World),
    device_read st wd length_ = Some (length_, st', wd')
    /\ user_buffer wd'
       = take (Z.to_nat length_)
              (drop (Z.to_nat (curTrngOutIdx st)) (buffTRndOut st))
         ++ drop (Z.to_nat length_) (user_buffer wd)
    /\ curTrngOutIdx st' = curTrngOutIdx st + length_
    /\ buffTRndOut st' = buffTRndOut st
    /\ isDeviceOpPending st' = false
    /\ wire_log wd' = wire_log wd
    /\ bulk_out_script wd' = bulk_out_script wd
    /\ bulk_in_script wd' = bulk_in_script wd.
Proof.
  intros Hlock Hrdy Hup Hlen Hcur Hfit Hbuf Huser.
  unfold device_read. rewrite Hlock, Hrdy, Hup. cbn [negb orb].
  cbn [read_loop]. unfold read_turn.
  rewrite get_entropy_bytes_idle by (cbn [curTrngOutIdx set_pending]; lia).
  cbn [Z.eqb SUCCESS].
  assert (Hact : take_amount (set_pending st true (isUsbOpPending st))
                             length_ 0 = length_).
  { unfold take_amount. cbn [curTrngOutIdx set_pending].
    destruct (Z.gtb_spec (TRND_OUT_BUFFSIZE - curTrngOutIdx st) (length_ - 0));
      lia. }
  rewrite Hact.
  assert (Hchunk : length (chunk (set_pending st true (isUsbOpPending st))
                                 length_) = Z.to_nat length_).
  { unfold chunk. cbn [curTrngOutIdx buffTRndOut set_pending].
    rewrite length_take, length_drop. lia. }
  unfold copy_to_user. rewrite Hchunk.
  replace (Z.max 0 (Z.of_nat (Z.to_nat length_)
             - Z.max 0 (Z.of_nat (length (user_buffer wd)) - 0)))
    with 0 by lia.
  cbn [Z.eqb negb].
  destruct (Z.ltb_spec (0 + length_) length_) as [Hlt | _]; [lia |].
  cbn [option_map]. eexists. eexists. split; [reflexivity |].
  cbn [user_buffer curTrngOutIdx buffTRndOut isDeviceOpPending wire_log
       bulk_out_script bulk_in_script set_pending set_cursor].
  repeat split; try lia.
  rewrite copy_bytes_spec by (rewrite Hchunk; cbn; lia).
  change (Z.to_nat 0) with 0%nat. rewrite take_0. cbn [app].
  rewrite Hchunk. cbn [Nat.add]. reflexivity.
Qed.

(** X13.  A read never changes [isEntropySrcRdy] or [isShutDown].  When
    the wait for the mutex is killed it returns [- EPERM] and changes
    nothing at all; otherwise it returns with [isDeviceOpPending]
    cleared, whatever the outcome. *)
Theorem device_read_keeps_lifecycle (st : Driver) (wd : World)
    (length_ retval : Z) (st' : Driver) (wd' : World) :
  device_read st wd length_ = Some (retval, st', wd') ->
  isEntropySrcRdy st' = isEntropySrcRdy st
  /\ isShutDown st' = isShutDown st
  /\ (lock_killed wd = true -> retval = - EPERM /\ st' = st /\ wd' = wd)
  /\ (lock_killed wd = false -> isDeviceOpPending st' = false).
Proof.
  unfold device_read. destruct (lock_killed wd).
  - intros Heq. injection Heq as <- <- <-.
    repeat split; intros; discriminate.
  - destruct (negb (isEntropySrcRdy st) || isShutDown st).
    + intros Heq. injection Heq as <- <- <-.
      repeat split; intros; discriminate.
    + destruct (read_loop _ _ wd length_ 0) as [[[r st1] wd1] |] eqn:Hloop;
        cbn [option_map]; [| discriminate].
      intros Heq. injection Heq as <- <- <-.
      apply read_loop_flags in Hloop. destruct Hloop as [Hr Hs].
      cbn [isEntropySrcRdy isShutDown isDeviceOpPending set_pending] in *.
      repeat split; try assumption; intros; discriminate.
Qed.

End DeviceReadFacts.

(** ** Reads that reach the device, and reads after shutdown *)

Section ReadAndRefill.
Context `{Header}.

Lemma usb_bulk_msg_out_user (wd : World) (cmd : list Z) (sizeSnd : Z) :
  user_buffer (snd (usb_bulk_msg_out wd cmd sizeSnd)) = user_buffer wd
  /\ lock_killed (snd (usb_bulk_msg_out wd cmd sizeSnd)) = lock_killed wd.
Proof.
  unfold usb_bulk_msg_out. destruct (bulk_out_script wd); split; reflexivity.
Qed.

Lemma chip_read_data_user (st : Driver) (wd : World) (buff : list Z)
    (length_ opTimeoutSecs : Z) :
  user_buffer (snd (chip_read_data st wd buff length_ opTimeoutSecs))
  = user_buffer wd
  /\ lock_killed (snd (chip_read_data st wd buff length_ opTimeoutSecs))
     = lock_killed wd.
Proof.
  unfold chip_read_data.
  destruct (chip_read_loop _ _ _ _ _ _ _ _) as [[[retval buff'] t] rest].
  split; reflexivity.
Qed.

Lemma exchange_loop_user (todo : nat) (st : Driver) (cmd : list Z)
    (sizeSnd sizeRcv opTimeoutSecs : Z) :
  forall (wd : World) (rcv : list Z) (retry retval : Z),
    let wd' := snd (exchange_loop todo st wd cmd sizeSnd rcv sizeRcv
                                  opTimeoutSecs retry retval) in
    user_buffer wd' = user_buffer wd /\ lock_killed wd' = lock_killed wd.
Proof.
  induction todo as [| todo' IH]; intros wd rcv retry retval;
    cbn [exchange_loop]; [split; reflexivity |].
  destruct (retry <? USB_READ_MAX_RETRY_CNT); [| split; reflexivity].
  destruct (isShutDown st); [split; reflexivity |].
  pose proof (usb_bulk_msg_out_user wd cmd sizeSnd) as [Hu1 Hl1].
  destruct (usb_bulk_msg_out wd cmd sizeSnd) as [[sent actualcCnt] wd1].
  cbn [snd] in Hu1, Hl1.
  destruct ((sent =? SUCCESS) && (actualcCnt =? sizeSnd)).
  - pose proof (chip_read_data_user st wd1 rcv (sizeRcv + 1) opTimeoutSecs)
      as [Hu2 Hl2].
    destruct (chip_read_data st wd1 rcv (sizeRcv + 1) opTimeoutSecs)
      as [[got rcv'] wd2].
    cbn [snd] in Hu2, Hl2.
    destruct (got =? SUCCESS).
    + destruct (negb (byte_at rcv' sizeRcv =? 0)).
      * cbv zeta in IH |- *. rewrite <- Hu1, <- Hl1, <- Hu2, <- Hl2. apply IH.
      * cbn [snd]. split; congruence.
    + cbv zeta in IH |- *. rewrite <- Hu1, <- Hl1, <- Hu2, <- Hl2. apply IH.
  - cbv zeta in IH |- *. rewrite <- Hu1, <- Hl1. apply IH.
Qed.

Lemma rcv_rnd_bytes_user (st : Driver) (wd : World) :
  user_buffer (snd (rcv_rnd_bytes st wd)) = user_buffer wd
  /\ lock_killed (snd (rcv_rnd_bytes st wd)) = lock_killed wd.
Proof.
  unfold rcv_rnd_bytes.
  destruct (negb (isEntropySrcRdy st) || isShutDown st); [split; reflexivity |].
  unfold request_raw_block, snd_rcv_usb_data.
  match goal with
  | |- context [exchange_loop ?n ?s wd ?c ?a ?r ?b ?t ?x ?y] =>
      pose proof (exchange_loop_user n s c a b t wd r x y) as Hx;
      destruct (exchange_loop n s wd c a r b t x y) as [[how rcv'] wd']
  end.
  cbv zeta in Hx. cbn [snd] in Hx.
  destruct how as [retval | retry retval].
  - destruct (retval =? SUCCESS); exact Hx.
  - destruct (retry >=? USB_READ_MAX_RETRY_CNT).
    + destruct (- ETIMEDOUT =? SUCCESS); exact Hx.
    + destruct (retval =? SUCCESS); exact Hx.
Qed.

Lemma get_entropy_bytes_user (st : Driver) (wd : World) :
  user_buffer (snd (get_entropy_bytes st wd)) = user_buffer wd.
Proof.
  unfold get_entropy_bytes.
  destruct (curTrngOutIdx st >=? TRND_OUT_BUFFSIZE);
    [apply rcv_rnd_bytes_user | reflexivity].
Qed.

(** X14.  A read from an exhausted block refills it first and, when the
    refill succeeds, serves the caller from the start of the new block:
    a request of at most one block returns the requested count, copies
    the first bytes of the new block and leaves the cursor at the
    count. *)
Theorem device_read_after_refill (st : Driver) (wd : World) (length_ : Z)
    (st2 : Driver) (wd2 : World) :
  lock_killed wd = false ->
  isEntropySrcRdy st = true -> isShutDown st = false ->
  TRND_OUT_BUFFSIZE <= curTrngOutIdx st ->
  rcv_rnd_bytes (set_pending st true (isUsbOpPending st)) wd
    = (SUCCESS, st2, wd2) ->
  0 < length_ <= TRND_OUT_BUFFSIZE ->
  TRND_OUT_BUFFSIZE <= Z.of_nat (length (buffTRndOut st2)) ->
  length_ <= Z.of_nat (length (user_buffer wd)) ->
  exists (st' : Driver) (wd' : World),
    device_read st wd length_ = Some (length_, st', wd')
    /\ user_buffer wd'
       = take (Z.to_nat length_) (buffTRndOut st2)
         ++ drop (Z.to_nat length_) (user_buffer wd)
    /\ curTrngOutIdx st' = length_
    /\ buffTRndOut st' = buffTRndOut st2
    /\ isDeviceOpPending st' = false.
Proof.
  intros Hlock Hrdy Hup Hend Hrefill Hlen Hbuf Huser.
  pose proof (rcv_rnd_bytes_cursor
                (set_pending st true (isUsbOpPending st)) wd) as Hcur.
  pose proof (rcv_rnd_bytes_user
                (set_pending st true (isUsbOpPending st)) wd) as [Hub _].
  rewrite Hrefill in Hcur, Hub. cbn [snd] in Hub.
  destruct Hcur as [Hzero _]. specialize (Hzero eq_refl).
  unfold device_read. rewrite Hlock, Hrdy, Hup. cbn [negb orb].
  cbn [read_loop]. unfold read_turn, get_entropy_bytes.
  cbn [curTrngOutIdx set_pending].
  destruct (Z.geb_spec (curTrngOutIdx st) TRND_OUT_BUFFSIZE) as [_ | Hlt];
    [| lia].
  rewrite Hrefill. cbn [Z.eqb SUCCESS].
  assert (Hact : take_amount st2 length_ 0 = length_).
  { unfold take_amount. rewrite Hzero.
    destruct (Z.gtb_spec (TRND_OUT_BUFFSIZE - 0) (length_ - 0)); lia. }
  rewrite Hact.
  assert (Hchunk : chunk st2 length_ = take (Z.to_nat length_) (buffTRndOut st2)).
  { unfold chunk. rewrite Hzero. reflexivity. }
  assert (Hsize : length (chunk st2 length_) = Z.to_nat length_).
  { rewrite Hchunk, length_take. lia. }
  unfold copy_to_user. rewrite Hsize, Hub.
  replace (Z.max 0 (Z.of_nat (Z.to_nat length_)
             - Z.max 0 (Z.of_nat (length (user_buffer wd)) - 0)))
    with 0 by lia.
  cbn [Z.eqb negb].
  destruct (Z.ltb_spec (0 + length_) length_) as [Hlt | _]; [lia |].
  cbn [option_map]. eexists. eexists. split; [reflexivity |].
  cbn [user_buffer curTrngOutIdx buffTRndOut isDeviceOpPending
       set_pending set_cursor].
  repeat split; try lia.
  rewrite copy_bytes_spec by (rewrite Hsize; cbn; lia).
  change (Z.to_nat 0) with 0%nat. rewrite take_0. cbn [app].
  rewrite Hsize, Hchunk. cbn [Nat.add]. reflexivity.
Qed.

(** X15.  A read of length 0 copies nothing, but it is not a no-op: the
    loop body runs once, so on an exhausted block the refill is still
    made, and the read returns 0 when the block is available and the
    error of the refill when it is not. *)
Theorem zero_length_read (st : Driver) (wd : World) :
  lock_killed wd = false ->
  isEntropySrcRdy st = true -> isShutDown st = false ->
  0 < TRND_OUT_BUFFSIZE ->
  exists (st' : Driver) (wd' : World),
    device_read st wd 0
    = Some (fst (fst (get_entropy_bytes
                        (set_pending st true (isUsbOpPending st)) wd)),
            st', wd')
    /\ user_buffer wd' = user_buffer wd
    /\ (curTrngOutIdx st < TRND_OUT_BUFFSIZE ->
        curTrngOutIdx st' = curTrngOutIdx st /\ wire_log wd' = wire_log wd).
Proof.
  intros Hlock Hrdy Hup Hpos.
  unfold device_read. rewrite Hlock, Hrdy, Hup. cbn [negb orb].
  cbn [read_loop Z.to_nat]. unfold read_turn.
  set (st1 := set_pending st true (isUsbOpPending st)).
  pose proof (get_entropy_bytes_fresh st1 wd Hpos) as Hfresh.
  pose proof (get_entropy_bytes_user st1 wd) as Hub.
  assert (Hidle : curTrngOutIdx st < TRND_OUT_BUFFSIZE ->
                  get_entropy_bytes st1 wd = (SUCCESS, st1, wd)).
  { intros Hleft. apply get_entropy_bytes_idle. exact Hleft. }
  destruct (get_entropy_bytes st1 wd) as [[retval st2] wd2].
  cbn [fst snd] in Hub |- *.
  destruct (Z.eqb_spec retval SUCCESS) as [Hret | Hbad].
  - specialize (Hfresh Hret).
    assert (Hact : take_amount st2 0 0 = 0).
    { unfold take_amount.
      destruct (Z.gtb_spec (TRND_OUT_BUFFSIZE - curTrngOutIdx st2) (0 - 0));
        lia. }
    rewrite Hact. unfold copy_to_user, chunk.
    change (Z.to_nat 0) with 0%nat. rewrite take_0.
    cbn [length copy_bytes].
    replace (Z.max 0 (Z.of_nat 0
               - Z.max 0 (Z.of_nat (length (user_buffer wd2)) - 0)))
      with 0 by lia.
    cbn [Z.eqb negb Z.add Z.ltb Z.compare option_map].
    eexists. eexists. split; [rewrite Hret; reflexivity |].
    cbn [user_buffer curTrngOutIdx wire_log set_pending set_cursor].
    split; [exact Hub |].
    intros Hleft. specialize (Hidle Hleft).
    injection Hidle as _ -> ->. unfold st1.
    cbn [curTrngOutIdx set_pending]. split; [lia | reflexivity].
  - cbn [option_map]. eexists. eexists. split; [reflexivity |].
    split; [exact Hub |].
    intros Hleft. specialize (Hidle Hleft).
    injection Hidle as Hr _ _. contradiction.
Qed.

(** X16.  After shutdown nothing reaches the device: the inbound read,
    the command exchange and the refill all return [- EPERM], and a read
    returns [- ENODATA], each of them leaving the wire, the USB answers
    still to come and the buffers as they were. *)
Theorem shutdown_stops_usb_traffic (st : Driver) (wd : World)
    (cmd buff : list Z) (sizeSnd sizeRcv opTimeoutSecs length_ : Z) :
  isShutDown st = true ->
  chip_read_data st wd buff sizeRcv opTimeoutSecs = (- EPERM, buff, wd)
  /\ (0 < USB_READ_MAX_RETRY_CNT ->
      snd_rcv_usb_data st wd cmd sizeSnd buff sizeRcv opTimeoutSecs
      = (- EPERM, buff, wd))
  /\ rcv_rnd_bytes st wd = (- EPERM, st, wd)
  /\ (lock_killed wd = false ->
      device_read st wd length_
      = Some (- ENODATA, set_pending st false (isUsbOpPending st), wd)).
Proof.
  intros Hdown. repeat split.
  - unfold chip_read_data.
    assert (Hloop : chip_read_loop (bulk_in_script wd) st (now wd) (now wd)
                      sizeRcv opTimeoutSecs buff 0
                    = (- EPERM, buff, now wd, bulk_in_script wd)).
    { destruct (bulk_in_script wd); cbn [chip_read_loop]; rewrite Hdown;
        reflexivity. }
    rewrite Hloop. destruct wd. reflexivity.
  - intros Hretry. unfold snd_rcv_usb_data.
    destruct (Z.to_nat USB_READ_MAX_RETRY_CNT) as [| n] eqn:Hn; [lia |].
    cbn [exchange_loop].
    destruct (Z.ltb_spec 0 USB_READ_MAX_RETRY_CNT) as [_ | Hge]; [| lia].
    rewrite Hdown. reflexivity.
  - apply rcv_rnd_bytes_rejected. right. exact Hdown.
  - intros Hlock. unfold device_read. rewrite Hlock, Hdown.
    rewrite orb_true_r. reflexivity.
Qed.

End ReadAndRefill.

(** ** Loading, plugging in and unloading *)

Section Lifecycle.
Context `{Header}.

Lemma selfTest_serial (s : Sha256.Sha256Data) :
  Sha256.blockSerialNumber (snd (sha256_selfTest s))
  = Sha256.blockSerialNumber s.
Proof.
  unfold sha256_selfTest.
  pose proof (generateHash_serial s (words_of testSeq1 11) 11) as Hs.
  destruct (Sha256.sha256_generateHash s (words_of testSeq1 11) 11)
    as [[retVal s'] results].
  cbn [fst snd] in Hs.
  destruct results as [ws |]; [destruct (retVal =? 0) |]; exact Hs.
Qed.

(** X17.  Loading the module initialises both health tests and sets the
    block serial number to 413145, whatever the outcome, and never marks
    the entropy source ready.  It succeeds exactly when the SHA-256
    self-test passes, the character device is set up, both buffers are
    allocated and the USB driver registers; the buffers of the module are
    then the two allocations. *)
Theorem init_tlrandom_outcome (st : Driver) (bt : Boot) :
  let '(retval, st') := init_tlrandom st bt in
  rct st' = Health.rct_initialize
  /\ apt st' = Health.apt_initialize
  /\ Sha256.blockSerialNumber (sd st') = 413145
  /\ isEntropySrcRdy st' = isEntropySrcRdy st
  /\ isShutDown st' = isShutDown st
  /\ (retval = SUCCESS <->
      fst (sha256_selfTest
             (Sha256.sha256_initializeSerialNumber (sd st) 413145)) = SUCCESS
      /\ char_dev_result bt = SUCCESS
      /\ rnd_in_alloc bt <> None /\ trnd_out_alloc bt <> None
      /\ 0 <= usb_register_result bt)
  /\ (retval = SUCCESS ->
      rnd_in_alloc bt = Some (buffRndIn st')
      /\ trnd_out_alloc bt = Some (buffTRndOut st')).
Proof.
  unfold init_tlrandom. cbn [sd set_tests].
  pose proof (selfTest_serial
                (Sha256.sha256_initializeSerialNumber (sd st) 413145)) as Hs.
  destruct (sha256_selfTest _) as [test s2]. cbn [fst snd] in Hs |- *.
  assert (Hserial : Sha256.blockSerialNumber s2 = 413145) by exact Hs.
  unfold SUCCESS, EPERM, ENOMEM.
  destruct (Z.eqb_spec test 0) as [Htest | Htest]; cbn [negb];
    [destruct (Z.eqb_spec (char_dev_result bt) 0) as [Hdev | Hdev];
       cbn [negb];
       [destruct (rnd_in_alloc bt) as [rnd |];
          [destruct (trnd_out_alloc bt) as [out |];
             [destruct (Z.ltb_spec (usb_register_result bt) 0)
                as [Hreg | Hreg] | ] | ] | ] | ];
    cbn; repeat split; try assumption; try lia; try discriminate;
    intros Hall; decompose [and] Hall; congruence || lia.
Qed.

Lemma is_in_address (e : Endpoint) :
  is_in e = true -> bEndpointAddress e <> 0.
Proof.
  unfold is_in. intros Hin Hzero. rewrite Hzero in Hin. discriminate.
Qed.

(** What the loop of [usb_probe] leaves in [usbData] when it ends without
    an error. *)
Lemma probe_endpoints_sound (eps : list Endpoint) (km : nat -> bool) :
  forall (calls : nat) (u : UsbData),
    (ud_bulk_in_endpointAddr u <> 0 ->
     ud_bulk_in_buffer u = Some USB_BUFFER_SIZE) ->
    (ud_bulk_out_endpointAddr u <> 0 -> ud_bulk_out_buffer u <> None) ->
    let '(retval, u') := probe_endpoints eps km calls u in
    (retval = SUCCESS \/ retval = - ENOMEM)
    /\ (retval = SUCCESS ->
        (ud_bulk_in_endpointAddr u' <> 0 ->
         ud_bulk_in_buffer u' = Some USB_BUFFER_SIZE)
        /\ (ud_bulk_out_endpointAddr u' <> 0 ->
            ud_bulk_out_buffer u' <> None)
        /\ (ud_bulk_in_endpointAddr u <> 0 ->
            ud_bulk_in_size u' = ud_bulk_in_size u
            /\ ud_bulk_in_endpointAddr u' = ud_bulk_in_endpointAddr u)
        /\ (ud_bulk_in_endpointAddr u = 0 ->
            ud_bulk_in_endpointAddr u' <> 0 ->
            exists e, find (fun e => is_in e && is_bulk e) eps = Some e
                      /\ ud_bulk_in_size u' = wMaxPacketSize e
                      /\ ud_bulk_in_endpointAddr u' = bEndpointAddress e)).
Proof.
  induction eps as [| e rest IH]; intros calls u Hin Hout;
    cbn [probe_endpoints find].
  - split; [left; reflexivity |]. intros _.
    split; [exact Hin |]. split; [exact Hout |].
    split; [intros; split; reflexivity | intros Hz Hnz; contradiction].
  - pose proof (is_in_address e) as Haddr.
    destruct (Z.eqb_spec (ud_bulk_in_endpointAddr u) 0) as [Hzi | Hnzi];
      destruct (is_in e) eqn:Hisin; destruct (is_bulk e) eqn:Hbulk;
      destruct (ud_bulk_out_endpointAddr u =? 0) eqn:Hzo;
      destruct (km calls) eqn:Hk0; destruct (km (S calls)) eqn:Hk1;
      cbn [andb negb ud_bulk_in_endpointAddr ud_bulk_out_endpointAddr];
      rewrite ?Hzo; cbn [andb negb]; rewrite ?Hk0, ?Hk1;
      change (- ENOMEM =? SUCCESS) with false;
      change (SUCCESS =? SUCCESS) with true; cbn [andb negb];
      try (split; [right; reflexivity | discriminate]);
      match goal with
      | |- context [probe_endpoints rest km ?c ?v] =>
          pose proof (IH c v) as Hrest;
          destruct (probe_endpoints rest km c v) as [retval u']
      end;
      cbn [ud_bulk_in_endpointAddr ud_bulk_out_endpointAddr
           ud_bulk_in_size ud_bulk_in_buffer ud_bulk_out_buffer] in Hrest;
      (destruct Hrest as [Hcodes Hrest];
       [first [exact Hin | intros _; reflexivity]
       | first [exact Hout | intros _; discriminate] |]);
      (split; [exact Hcodes |]); intros Hok;
      destruct (Hrest Hok) as (Hi & Ho & Hkeep & Hfirst);
      (split; [exact Hi |]); (split; [exact Ho |]);
      (split;
       [intros Hnz; first [contradiction | exact (Hkeep Hnz)]
       | intros Hz Hnz;
         first [contradiction
               | exists e; split; [reflexivity |];
                 apply Hkeep; apply Haddr; reflexivity
               | exact (Hfirst Hz Hnz)]]).
Qed.

(** X18.  A probe returns [SUCCESS], [- EPERM] or [- ENOMEM].  It succeeds
    only from the unplugged state, and then the source is marked ready,
    [usbData] holds non-zero addresses for both bulk endpoints with both
    buffers allocated, and the packet size used by the entropy path is
    that of the first bulk-in endpoint of the interface.  A probe that
    fails leaves the flags and [usbData] exactly as they were. *)
Theorem usb_probe_outcome (st : Driver) (ud : option UsbData) (pl : Plug) :
  let '(retval, st', ud') := usb_probe st ud pl in
  (retval = SUCCESS \/ retval = - EPERM \/ retval = - ENOMEM)
  /\ (retval = SUCCESS ->
      isEntropySrcRdy st = false /\ ud = None /\ isShutDown st = false
      /\ isEntropySrcRdy st' = true
      /\ exists (u : UsbData) (e : Endpoint),
           ud' = Some u
           /\ ud_bulk_in_endpointAddr u <> 0
           /\ ud_bulk_out_endpointAddr u <> 0
           /\ ud_bulk_in_buffer u = Some USB_BUFFER_SIZE
           /\ ud_bulk_out_buffer u <> None
           /\ find (fun e => is_in e && is_bulk e) (plug_endpoints pl) = Some e
           /\ bulk_in_size st' = wMaxPacketSize e
           /\ ud_bulk_in_endpointAddr u = bEndpointAddress e)
  /\ (retval <> SUCCESS -> st' = st /\ ud' = ud).
Proof.
  unfold usb_probe.
  destruct (plug_lock_killed pl).
  { split; [right; left; reflexivity |].
    split; [discriminate | intros; split; reflexivity]. }
  destruct (isEntropySrcRdy st) eqn:Hrdy; cbn [orb].
  { split; [right; left; reflexivity |].
    split; [discriminate | intros; split; reflexivity]. }
  destruct ud as [u0 |].
  { split; [right; left; reflexivity |].
    split; [discriminate | intros; split; reflexivity]. }
  destruct (isShutDown st) eqn:Hdown.
  { split; [right; left; reflexivity |].
    split; [discriminate | intros; split; reflexivity]. }
  destruct (plug_kmalloc pl 0); cbn [negb].
  2: { split; [right; right; reflexivity |].
       split; [discriminate | intros; split; reflexivity]. }
  pose proof (probe_endpoints_sound (plug_endpoints pl) (plug_kmalloc pl)
                1 usb_data_zero) as Hloop.
  cbn [usb_data_zero ud_bulk_in_endpointAddr ud_bulk_out_endpointAddr] in Hloop.
  specialize (Hloop (fun Hbad => ltac:(contradiction))
                    (fun Hbad => ltac:(contradiction))).
  destruct (probe_endpoints _ _ 1 usb_data_zero) as [retval u].
  destruct Hloop as [Hcodes Hloop].
  destruct (Z.eqb_spec retval SUCCESS) as [Hok | Hbad]; cbn [andb].
  - destruct (Hloop Hok) as (Hi & Ho & _ & Hfirst).
    destruct (Z.eqb_spec (ud_bulk_in_endpointAddr u) 0) as [Hzi | Hnzi];
      cbn [negb andb].
    { cbn. unfold clean_up_usb. split; [right; left; reflexivity |].
      split; [discriminate | intros; split; reflexivity]. }
    destruct (Z.eqb_spec (ud_bulk_out_endpointAddr u) 0) as [Hzo | Hnzo];
      cbn [negb andb].
    { cbn. unfold clean_up_usb. split; [right; left; reflexivity |].
      split; [discriminate | intros; split; reflexivity]. }
    rewrite Hok. cbn [Z.eqb SUCCESS negb].
    split; [left; reflexivity |].
    split; [| intros Hne; contradiction].
    intros _. destruct (Hfirst eq_refl Hnzi) as (e & Hfind & Hsize & Haddr).
    repeat split.
    exists u, e. cbn [bulk_in_size set_plugged].
    repeat split; try assumption; [apply Hi | apply Ho]; assumption.
  - destruct (Z.eqb_spec retval SUCCESS) as [Hok | _]; [contradiction |].
    cbn [negb]. unfold clean_up_usb.
    split; [destruct Hcodes as [-> | ->]; auto |].
    split; [intros; contradiction | intros; split; reflexivity].
Qed.

(** X19.  Unplugging closes the entropy path and keeps its state: after
    [usb_disconnect] an open and a read are refused with [- ENODATA] and
    a refill with [- EPERM], without any traffic, while the cursor, the
    conditioned block, the serial number and both health tests stay as
    they were.  A probe that succeeds afterwards changes none of these
    either, so a health test that had latched is still latched when the
    device is plugged in again. *)
Theorem replug_keeps_entropy_state (st : Driver) (ud : option UsbData)
    (pl : Plug) (wd : World) (major minor length_ : Z) :
  let '(st1, ud1) := usb_disconnect st ud in
  let '(_, st2, _) := usb_probe st1 ud1 pl in
  ud1 = None
  /\ device_open st1 major minor major minor = - ENODATA
  /\ rcv_rnd_bytes st1 wd = (- EPERM, st1, wd)
  /\ (lock_killed wd = false ->
      device_read st1 wd length_
      = Some (- ENODATA, set_pending st1 false (isUsbOpPending st1), wd))
  /\ curTrngOutIdx st2 = curTrngOutIdx st
  /\ buffTRndOut st2 = buffTRndOut st
  /\ sd st2 = sd st /\ rct st2 = rct st /\ apt st2 = apt st
  /\ (latched st -> latched st2).
Proof.
  unfold usb_disconnect, clean_up_usb.
  set (st1 := set_plugged st false (bulk_in_size st)).
  assert (Hframe : forall st2 : Driver,
            snd (fst (usb_probe st1 None pl)) = st2 ->
            curTrngOutIdx st2 = curTrngOutIdx st
            /\ buffTRndOut st2 = buffTRndOut st
            /\ sd st2 = sd st /\ rct st2 = rct st /\ apt st2 = apt st).
  { intros st2 <-. unfold usb_probe.
    destruct (plug_lock_killed pl); [repeat split |].
    cbn [isEntropySrcRdy st1 set_plugged orb].
    destruct (isShutDown st1); [repeat split |].
    destruct (negb (plug_kmalloc pl 0)); [repeat split |].
    destruct (probe_endpoints _ _ 1 usb_data_zero) as [retval u].
    match goal with
    | |- context [negb (?c =? SUCCESS)] => destruct (negb (c =? SUCCESS))
    end; repeat split. }
  destruct (usb_probe st1 None pl) as [[retval st2] ud2].
  specialize (Hframe st2 eq_refl).
  destruct Hframe as (Hcur & Hbuf & Hsd & Hrct & Hapt).
  repeat split; try assumption.
  - unfold device_open. rewrite !Z.eqb_refl. reflexivity.
  - intros Hlock. unfold device_read. rewrite Hlock. reflexivity.
  - unfold latched. rewrite Hrct, Hapt. intros Hl. exact Hl.
Qed.

Lemma wait_loop_spec (pending : nat -> bool) (todo : nat) :
  forall cnt : nat,
    let n := wait_loop todo cnt pending in
    (cnt <= n <= cnt + todo)%nat
    /\ (forall i, (cnt <= i < n)%nat -> pending i = true)
    /\ ((n < 100)%nat -> (n < cnt + todo)%nat -> pending n = false).
Proof.
  induction todo as [| todo' IH]; intros cnt; cbn [wait_loop].
  - repeat split; intros; lia.
  - destruct (Nat.ltb_spec cnt 100) as [Hlt | Hge]; cbn [andb].
    + destruct (pending cnt) eqn:Hp.
      * specialize (IH (S cnt)). cbv zeta in IH |- *.
        destruct IH as (Hrange & Hall & Hstop).
        split; [lia |]. split.
        -- intros i Hi. destruct (Nat.eq_dec i cnt) as [-> | Hne];
             [exact Hp | apply Hall; lia].
        -- intros Hn Hm. apply Hstop; lia.
      * cbv zeta. split; [lia |]. split; [intros; lia |].
        intros _ _. exact Hp.
    + cbv zeta. repeat split; intros; lia.
Qed.

(** X20.  The wait of the unload handler sleeps at most 100 times.  It
    stops early only at the first test that finds no operation pending;
    while one stays pending it gives up after the 100th sleep, and the
    unload goes on all the same. *)
Theorem wait_for_pending_ops_gives_up (pending : nat -> bool) :
  let n := wait_for_pending_ops pending in
  (n <= 100)%nat
  /\ (forall i, (i < n)%nat -> pending i = true)
  /\ ((n < 100)%nat -> pending n = false)
  /\ ((forall i, (i < 100)%nat -> pending i = true) -> n = 100%nat).
Proof.
  unfold wait_for_pending_ops.
  pose proof (wait_loop_spec pending 100 0) as (Hrange & Hall & Hstop).
  cbv zeta. repeat split.
  - lia.
  - intros i Hi. apply Hall. lia.
  - intros Hn. apply Hstop; lia.
  - intros Hbusy.
    destruct (Nat.lt_ge_cases (wait_loop 100 0 pending) 100) as [Hlt | Hge];
      [| lia].
    rewrite Hbusy in Hstop by exact Hlt.
    specialize (Hstop Hlt ltac:(lia)). discriminate.
Qed.

End Lifecycle.

(** ** The digest of a message *)

Section DigestFacts.

Lemma nth_of_take (t i : nat) (ws ws' : list Z) :
  take t ws = take t ws' -> (i < t)%nat -> (t <= length ws)%nat ->
  (t <= length ws')%nat ->
  nth i ws 0 = nth i ws' 0.
Proof.
  intros Heq Hi Hl Hl'.
  rewrite <- (take_drop t ws), <- (take_drop t ws').
  rewrite !app_nth1 by (rewrite length_take; lia).
  rewrite Heq. reflexivity.
Qed.

Lemma take_S_insert (t : nat) (x : Z) (ws : list Z) :
  (t < length ws)%nat -> take (S t) (<[t := x]> ws) = take t ws ++ [x].
Proof.
  intros Ht. rewrite (take_S_r _ _ x) by (apply list_lookup_insert_eq; lia).
  rewrite take_insert_ge by lia. reflexivity.
Qed.

Lemma schedule_from (n : nat) :
  forall (t : nat) (ws ws' : list Z),
    (t + n = 64)%nat -> (16 <= t)%nat ->
    length ws = 64%nat -> length ws' = 64%nat ->
    take t ws = take t ws' ->
    fold_left Sha256.schedule_step (seq t n) ws
    = fold_left Sha256.schedule_step (seq t n) ws'.
Proof.
  induction n as [| n' IH]; intros t ws ws' Hsum Ht Hl Hl' Heq;
    cbn [seq fold_left].
  - rewrite <- (take_ge ws t), <- (take_ge ws' t) by lia. exact Heq.
  - apply IH; try lia.
    + unfold Sha256.schedule_step, Sha256.w_set. rewrite length_insert. lia.
    + unfold Sha256.schedule_step, Sha256.w_set. rewrite length_insert. lia.
    + unfold Sha256.schedule_step, Sha256.w_set, Sha256.w_get.
      rewrite !take_S_insert by lia.
      rewrite (nth_of_take t (t - 2) ws ws') by (assumption || lia).
      rewrite (nth_of_take t (t - 7) ws ws') by (assumption || lia).
      rewrite (nth_of_take t (t - 15) ws ws') by (assumption || lia).
      rewrite (nth_of_take t (t - 16) ws ws') by (assumption || lia).
      rewrite Heq. reflexivity.
Qed.

Lemma schedule_length (ws : list Z) :
  length (Sha256.schedule ws) = length ws.
Proof.
  unfold Sha256.schedule.
  apply (fold_left_invariant (fun l => length l = length ws)).
  - intros a t Ha. unfold Sha256.schedule_step, Sha256.w_set.
    rewrite length_insert. exact Ha.
  - reflexivity.
Qed.

Lemma hashCurrentBlock_compress (s : Sha256.Sha256Data) :
  length (Sha256.w s) = 64%nat ->
  hash_words (Sha256.sha256_hashCurrentBlock s)
  = compress (hash_words s) (take 16 (Sha256.w s))
  /\ length (Sha256.w (Sha256.sha256_hashCurrentBlock s)) = 64%nat.
Proof.
  intros Hl. unfold compress, Sha256.sha256_hashCurrentBlock.
  cbn [Sha256.w Sha256.h0 Sha256.h1 Sha256.h2 Sha256.h3 Sha256.h4
       Sha256.h5 Sha256.h6 Sha256.h7 hash_words nth].
  assert (Hs : Sha256.schedule (take 16 (Sha256.w s) ++ repeat 0 48)
               = Sha256.schedule (Sha256.w s)).
  { unfold Sha256.schedule. apply schedule_from; try lia.
    - rewrite length_app, length_take, repeat_length. lia.
    - rewrite take_app_length' by (rewrite length_take; lia). reflexivity. }
  rewrite Hs.
  pose proof (schedule_length (Sha256.w s)) as Hsl.
  destruct (fold_left _ _ _) as [[[[[[[a b] c] d] e] f] g] h].
  cbn [Sha256.w Sha256.h0 Sha256.h1 Sha256.h2 Sha256.h3 Sha256.h4
       Sha256.h5 Sha256.h6 Sha256.h7 hash_words Sha256.set_h Sha256.set_w].
  split; [reflexivity | lia].
Qed.

Lemma w_set_fill (k : nat) (p ws : list Z) (x : Z) :
  filled k p ws -> (k < 64)%nat ->
  filled (S k) (p ++ [u32 x]) (Sha256.w_set ws k x).
Proof.
  intros (Hl & Hp & Ht) Hk. unfold filled, Sha256.w_set.
  rewrite length_insert, length_app, take_S_insert by lia.
  cbn [length]. rewrite Ht. repeat split; lia.
Qed.

Lemma fill_fold (f : nat -> Z) (n : nat) :
  forall (k : nat) (p ws : list Z),
    filled k p ws -> (k + n <= 64)%nat ->
    filled (k + n) (p ++ map (fun i => u32 (f i)) (seq k n))
           (fold_left (fun acc i => Sha256.w_set acc i (f i)) (seq k n) ws).
Proof.
  induction n as [| n' IH]; intros k p ws Hf Hk; cbn [seq map fold_left].
  - rewrite Nat.add_0_r, app_nil_r. exact Hf.
  - replace (k + S n')%nat with (S k + n')%nat by lia.
    replace (p ++ u32 (f k) :: map (fun i => u32 (f i)) (seq (S k) n'))
      with ((p ++ [u32 (f k)]) ++ map (fun i => u32 (f i)) (seq (S k) n'))
      by (rewrite <- app_assoc; reflexivity).
    apply IH; [| lia]. apply w_set_fill; [exact Hf | lia].
Qed.

Lemma map_seq_shift (g : nat -> Z) (k n : nat) :
  forall a : nat,
    map (fun i => g (i + k)%nat) (seq a n) = map g (seq (a + k) n).
Proof.
  induction n as [| n' IH]; intros a; cbn [seq map]; [reflexivity |].
  rewrite IH. reflexivity.
Qed.

Lemma map_seq_const (c : Z) (n : nat) :
  forall a : nat, map (fun _ : nat => c) (seq a n) = repeat c n.
Proof.
  induction n as [| n' IH]; intros a; cbn [seq map repeat]; [reflexivity |].
  rewrite IH. reflexivity.
Qed.

Lemma copy_words_fill (ws src : list Z) (off n : nat) :
  length ws = 64%nat -> (n <= 64)%nat ->
  filled n (map (fun i => u32 (nth i src 0)) (seq off n))
         (Sha256.copy_words ws src (Z.of_nat off) 0 n).
Proof.
  intros Hl Hn. unfold Sha256.copy_words. rewrite Nat.sub_0_r, Nat2Z.id.
  pose proof (fill_fold (fun ui8 => nth (ui8 + off) src 0) n 0 [] ws) as Hf.
  cbn [app Nat.add] in Hf.
  rewrite (map_seq_shift (fun i => u32 (nth i src 0)) off n 0) in Hf.
  apply Hf; [| lia]. repeat split. exact Hl.
Qed.

Lemma zero_words_fill (k upto : nat) (p ws : list Z) :
  filled k p ws -> (k <= upto)%nat -> (upto <= 64)%nat ->
  filled upto (p ++ repeat 0 (upto - k)) (Sha256.zero_words ws k upto).
Proof.
  intros Hf Hk Hu. unfold Sha256.zero_words.
  pose proof (fill_fold (fun _ => 0) (upto - k) k p ws Hf ltac:(lia)) as Hz.
  cbv beta in Hz. rewrite map_seq_const in Hz. change (u32 0) with 0 in Hz.
  replace (k + (upto - k))%nat with upto in Hz by lia. exact Hz.
Qed.

Lemma filled_compress (s : Sha256.Sha256Data) (p ws : list Z) :
  filled 16 p ws ->
  hash_words (Sha256.sha256_hashCurrentBlock (Sha256.set_w s ws))
  = compress (hash_words s) p
  /\ length (Sha256.w (Sha256.sha256_hashCurrentBlock (Sha256.set_w s ws)))
     = 64%nat.
Proof.
  intros (Hl & _ & Ht).
  pose proof (hashCurrentBlock_compress (Sha256.set_w s ws) Hl) as [Hh Hw].
  split; [| exact Hw]. rewrite Hh. cbn [Sha256.w Sha256.set_w].
  rewrite Ht. reflexivity.
Qed.

Lemma fold_left_cons {A B : Type} (f : A -> B -> A) (x : B) (l : list B)
    (a : A) :
  fold_left f (x :: l) a = fold_left f l (f a x).
Proof. reflexivity. Qed.

Lemma complete_blocks_step (s : Sha256.Sha256Data) (src : list Z)
    (blockNum : Z) (todo : nat) :
  Sha256.complete_blocks s src blockNum (S todo)
  = Sha256.complete_blocks
      (Sha256.sha256_hashCurrentBlock
         (Sha256.set_w s
            (Sha256.copy_words (Sha256.w s) src
               (blockNum * Sha256.maxDataBlockSizeWords) 0 16)))
      src (blockNum + 1) todo.
Proof. reflexivity. Qed.

Lemma complete_blocks_compress (src : list Z) (todo : nat) :
  forall (s : Sha256.Sha256Data) (b : nat),
    length (Sha256.w s) = 64%nat ->
    hash_words (Sha256.complete_blocks s src (Z.of_nat b) todo)
    = fold_left compress
        (map (fun i => map (fun j => u32 (nth j src 0)) (seq (16 * i) 16))
             (seq b todo))
        (hash_words s)
    /\ length (Sha256.w (Sha256.complete_blocks s src (Z.of_nat b) todo))
       = 64%nat.
Proof.
  induction todo as [| todo' IH]; intros s b Hl.
  { split; [reflexivity | exact Hl]. }
  rewrite complete_blocks_step, <- cons_seq, map_cons, fold_left_cons.
  pose proof (copy_words_fill (Sha256.w s) src (16 * b) 16 Hl ltac:(lia))
    as Hf.
  replace (Z.of_nat (16 * b)) with (Z.of_nat b * Sha256.maxDataBlockSizeWords)
    in Hf by (unfold Sha256.maxDataBlockSizeWords; lia).
  destruct (filled_compress s _ _ Hf) as [Hh Hw].
  replace (Z.of_nat b + 1) with (Z.of_nat (S b)) by lia.
  destruct (IH _ (S b) Hw) as [Hh' Hw'].
  split; [| exact Hw']. rewrite Hh', Hh. reflexivity.
Qed.

Lemma chunks_of_app (a : nat) :
  forall (b : nat) (l1 l2 : list Z),
    length l1 = (16 * a)%nat ->
    chunks_of (a + b) (l1 ++ l2) = chunks_of a l1 ++ chunks_of b l2.
Proof.
  induction a as [| a' IH]; intros b l1 l2 Hl.
  - destruct l1; [reflexivity | cbn in Hl; lia].
  - cbn [Nat.add chunks_of app].
    rewrite take_app_le, drop_app_le by lia.
    rewrite IH by (rewrite length_drop; lia). reflexivity.
Qed.

Lemma chunks_of_message (g : nat -> Z) (q : nat) :
  forall b : nat,
    chunks_of q (map g (seq (16 * b) (16 * q)))
    = map (fun i => map g (seq (16 * i) 16)) (seq b q).
Proof.
  induction q as [| q' IH]; intros b; cbn [chunks_of seq map]; [reflexivity |].
  replace (16 * S q')%nat with (16 + 16 * q')%nat by lia.
  rewrite seq_app, map_app.
  rewrite take_app_length', drop_app_length'
    by (rewrite length_map, length_seq; reflexivity).
  replace (16 * b + 16)%nat with (16 * S b)%nat by lia.
  rewrite IH. reflexivity.
Qed.

Lemma chunks_of_one (l : list Z) :
  length l = 16%nat -> chunks_of 1 l = [l].
Proof.
  intros Hl. cbn [chunks_of]. rewrite take_ge by lia. reflexivity.
Qed.

Lemma chunks_of_two (l1 l2 : list Z) :
  length l1 = 16%nat -> length l2 = 16%nat ->
  chunks_of 2 (l1 ++ l2) = [l1; l2].
Proof.
  intros H1 H2. cbn [chunks_of].
  rewrite take_app_length', drop_app_length' by lia.
  rewrite take_ge by lia. reflexivity.
Qed.

Lemma chunks_of_message0 (g : nat -> Z) (q : nat) :
  chunks_of q (map g (seq 0 (16 * q)))
  = map (fun i => map g (seq (16 * i) 16)) (seq 0 q).
Proof. exact (chunks_of_message g q 0). Qed.

Lemma w_set_beyond (k t : nat) (p ws : list Z) (x : Z) :
  filled k p ws -> (k <= t)%nat -> filled k p (Sha256.w_set ws t x).
Proof.
  intros (Hl & Hp & Ht) Hk. unfold filled, Sha256.w_set.
  rewrite length_insert, take_insert_ge by lia. repeat split; assumption.
Qed.

Lemma filled_start (ws : list Z) : length ws = 64%nat -> filled 0 [] ws.
Proof. intros Hl. repeat split. exact Hl. Qed.

Lemma additional_block_marker (s : Sha256.Sha256Data) (size : Z) :
  Sha256.additional_block s true size
  = Sha256.sha256_hashCurrentBlock
      (Sha256.set_w s
         (Sha256.w_set
            (Sha256.w_set
               (Sha256.zero_words
                  (Sha256.w_set (Sha256.w s) 0 0x80000000) 1 14) 14 0)
            15 size)).
Proof. reflexivity. Qed.

Lemma additional_block_plain (s : Sha256.Sha256Data) (size : Z) :
  Sha256.additional_block s false size
  = Sha256.sha256_hashCurrentBlock
      (Sha256.set_w s
         (Sha256.w_set
            (Sha256.w_set (Sha256.zero_words (Sha256.w s) 0 14) 14 0)
            15 size)).
Proof. reflexivity. Qed.

(** The closing block without the marker. *)
Lemma additional_block_plain_compress (s : Sha256.Sha256Data) (size : Z) :
  length (Sha256.w s) = 64%nat ->
  hash_words (Sha256.additional_block s false size)
  = compress (hash_words s) (repeat 0 14 ++ [0; u32 size]).
Proof.
  intros Hl. rewrite additional_block_plain.
  pose proof (filled_start _ Hl) as F0.
  pose proof (zero_words_fill 0 14 _ _ F0 ltac:(lia) ltac:(lia)) as F1.
  pose proof (w_set_fill _ _ _ 0 F1 ltac:(lia)) as F2.
  pose proof (w_set_fill _ _ _ size F2 ltac:(lia)) as F3.
  destruct (filled_compress s _ _ F3) as [Hh _]. rewrite Hh.
  f_equal.
Qed.

(** The closing block with the marker. *)
Lemma additional_block_marker_compress (s : Sha256.Sha256Data) (size : Z) :
  length (Sha256.w s) = 64%nat ->
  hash_words (Sha256.additional_block s true size)
  = compress (hash_words s) ([0x80000000] ++ repeat 0 13 ++ [0; u32 size]).
Proof.
  intros Hl. rewrite additional_block_marker.
  pose proof (filled_start _ Hl) as F0.
  pose proof (w_set_fill _ _ _ 0x80000000 F0 ltac:(lia)) as F1.
  pose proof (zero_words_fill 1 14 _ _ F1 ltac:(lia) ltac:(lia)) as F2.
  pose proof (w_set_fill _ _ _ 0 F2 ltac:(lia)) as F3.
  pose proof (w_set_fill _ _ _ size F3 ltac:(lia)) as F4.
  destruct (filled_compress s _ _ F4) as [Hh _]. rewrite Hh.
  f_equal.
Qed.

(** A last data block of [r] words with room for the length. *)
Lemma last_block_with_size (s : Sha256.Sha256Data) (src : list Z)
    (off r : nat) (size : Z) :
  length (Sha256.w s) = 64%nat -> (r <= 13)%nat ->
  hash_words
    (Sha256.sha256_hashCurrentBlock
       (Sha256.set_w s
          (Sha256.w_set
             (Sha256.w_set
                (Sha256.zero_words
                   (Sha256.w_set
                      (Sha256.copy_words (Sha256.w s) src (Z.of_nat off) 0 r)
                      r 0x80000000) (S r) 14) 14 0) 15 size)))
  = compress (hash_words s)
      (map (fun i => u32 (nth i src 0)) (seq off r)
       ++ [0x80000000] ++ repeat 0 (13 - r) ++ [0; u32 size]).
Proof.
  intros Hl Hr.
  pose proof (copy_words_fill _ src off r Hl ltac:(lia)) as F0.
  pose proof (w_set_fill _ _ _ 0x80000000 F0 ltac:(lia)) as F1.
  pose proof (zero_words_fill (S r) 14 _ _ F1 ltac:(lia) ltac:(lia)) as F2.
  pose proof (w_set_fill _ _ _ 0 F2 ltac:(lia)) as F3.
  pose proof (w_set_fill _ _ _ size F3 ltac:(lia)) as F4.
  destruct (filled_compress s _ _ F4) as [Hh _]. rewrite Hh.
  f_equal. rewrite <- !app_assoc.
  replace (14 - S r)%nat with (13 - r)%nat by lia. reflexivity.
Qed.

(** A last data block of 14 or 15 words: the length goes to a block of
    its own. *)
Lemma last_block_without_size (s : Sha256.Sha256Data) (src : list Z)
    (off r : nat) :
  length (Sha256.w s) = 64%nat -> (14 <= r <= 15)%nat ->
  hash_words
    (Sha256.sha256_hashCurrentBlock
       (Sha256.set_w s
          (Sha256.w_set
             (Sha256.w_set
                (Sha256.copy_words (Sha256.w s) src (Z.of_nat off) 0 r)
                r 0x80000000) (S r) 0)))
  = compress (hash_words s)
      (map (fun i => u32 (nth i src 0)) (seq off r)
       ++ [0x80000000] ++ repeat 0 (15 - r))
  /\ length (Sha256.w
       (Sha256.sha256_hashCurrentBlock
          (Sha256.set_w s
             (Sha256.w_set
                (Sha256.w_set
                   (Sha256.copy_words (Sha256.w s) src (Z.of_nat off) 0 r)
                   r 0x80000000) (S r) 0)))) = 64%nat.
Proof.
  intros Hl Hr.
  pose proof (copy_words_fill _ src off r Hl ltac:(lia)) as F0.
  pose proof (w_set_fill _ _ _ 0x80000000 F0 ltac:(lia)) as F1.
  assert (r = 14 \/ r = 15)%nat as [-> | ->] by lia.
  - pose proof (w_set_fill _ _ _ 0 F1 ltac:(lia)) as F2.
    destruct (filled_compress s _ _ F2) as [Hh Hw]. split; [| exact Hw].
    rewrite Hh. f_equal; try (rewrite <- !app_assoc; reflexivity).
  - pose proof (w_set_beyond _ 16 _ _ 0 F1 ltac:(lia)) as F2.
    destruct (filled_compress s _ _ F2) as [Hh Hw]. split; [| exact Hw].
    rewrite Hh. f_equal; try (rewrite <- !app_assoc; reflexivity).
Qed.

Lemma padding_zeros (len : Z) :
  0 < len ->
  Z.to_nat ((13 - len) mod 16)
  = (if (Z.to_nat (len mod 16) <=? 13)%nat
     then 13 - Z.to_nat (len mod 16)
     else 29 - Z.to_nat (len mod 16))%nat.
Proof.
  intros Hpos. destruct (Nat.leb_spec (Z.to_nat (len mod 16)) 13);
    Z.to_euclidean_division_equations; lia.
Qed.

Lemma message_length (src : list Z) (len : Z) :
  0 <= len -> Z.of_nat (length (message src len)) = len.
Proof.
  intros Hlen. unfold message. rewrite length_map, length_seq. lia.
Qed.

(** The padded message: the complete chunks of the message, then one or
    two chunks that hold its last words and the padding. *)
Lemma padded_digest_split (src : list Z) (len : Z) :
  0 < len ->
  let q := Z.to_nat (len / 16) in
  let r := Z.to_nat (len mod 16) in
  padded_digest (message src len)
  = fold_left compress
      (chunks_of (if (r <=? 13)%nat then 1 else 2)
         (map (fun i => u32 (nth i src 0)) (seq (16 * q) r) ++ padding len))
      (fold_left compress
         (map (fun i => map (fun j => u32 (nth j src 0)) (seq (16 * i) 16))
              (seq 0 q))
         initial_hash).
Proof.
  intros Hpos q r. unfold padded_digest.
  rewrite message_length by lia.
  assert (Hsplit : message src len
                   = map (fun i => u32 (nth i src 0)) (seq 0 (16 * q))
                     ++ map (fun i => u32 (nth i src 0)) (seq (16 * q) r)).
  { unfold message.
    replace (Z.to_nat len) with (16 * q + r)%nat
      by (unfold q, r; Z.to_euclidean_division_equations; lia).
    rewrite seq_app, map_app. reflexivity. }
  rewrite Hsplit, <- app_assoc.
  set (T := map (fun i => u32 (nth i src 0)) (seq (16 * q) r) ++ padding len).
  set (M1 := map (fun i => u32 (nth i src 0)) (seq 0 (16 * q))).
  assert (HM1 : length M1 = (16 * q)%nat)
    by (unfold M1; rewrite length_map, length_seq; reflexivity).
  assert (HT : length T = (16 * (if (r <=? 13)%nat then 1 else 2))%nat).
  { unfold T, padding. rewrite !length_app, length_map, length_seq.
    rewrite repeat_length, padding_zeros by lia. fold r. cbn [length].
    assert (r < 16)%nat
      by (unfold r; Z.to_euclidean_division_equations; lia).
    destruct (Nat.leb_spec r 13); lia. }
  replace (length (M1 ++ T) / 16)%nat
    with (q + (if (r <=? 13)%nat then 1 else 2))%nat.
  2: { rewrite length_app, HM1, HT, <- Nat.mul_add_distr_l.
       rewrite Nat.mul_comm, Nat.div_mul by lia. reflexivity. }
  rewrite chunks_of_app by exact HM1.
  rewrite fold_left_app. unfold M1. rewrite chunks_of_message0. reflexivity.
Qed.

Lemma hash_words_eq (x : Sha256.Sha256Data) :
  [Sha256.h0 x; Sha256.h1 x; Sha256.h2 x; Sha256.h3 x;
   Sha256.h4 x; Sha256.h5 x; Sha256.h6 x; Sha256.h7 x] = hash_words x.
Proof. reflexivity. Qed.

(** X21.  [sha256_generateHash] computes SHA-256 of its message: for
    every length its digest is the compression function folded, from the
    initial hash value, over the 16-word chunks of the message followed
    by the marker word, the zero words and the 64-bit length in bits.  It
    depends on the message alone, not on what earlier calls left in
    [sd]. *)
Theorem generateHash_is_padded_digest (s : Sha256.Sha256Data)
    (src : list Z) (len : Z) :
  0 < len -> length (Sha256.w s) = 64%nat ->
  snd (Sha256.sha256_generateHash s src len)
  = Some (padded_digest (message src len)).
Proof.
  intros Hpos Hl.
  rewrite padded_digest_split by exact Hpos. cbv zeta.
  pose proof (complete_blocks_compress src (Z.to_nat (len / 16))
                (Sha256.sha256_initialize s) 0 Hl) as [H1 W1].
  change (Z.of_nat 0) with 0 in H1, W1.
  change (hash_words (Sha256.sha256_initialize s)) with initial_hash in H1.
  rewrite <- H1. clear H1.
  unfold Sha256.sha256_generateHash.
  destruct (Z.leb_spec len 0) as [Hbad | _]; [lia |].
  cbv zeta. unfold Sha256.maxDataBlockSizeWords.
  replace (len / 16 * 16) with (Z.of_nat (16 * Z.to_nat (len / 16)))
    by (Z.to_euclidean_division_equations; lia).
  set (q := Z.to_nat (len / 16)) in *.
  set (r := Z.to_nat (len mod 16)) in *.
  set (sd1 := Sha256.complete_blocks (Sha256.sha256_initialize s) src 0 q)
    in *.
  assert (Hr : (r < 16)%nat)
    by (unfold r; Z.to_euclidean_division_equations; lia).
  pose proof (padding_zeros len Hpos) as Hz. fold r in Hz.
  replace (len * 8 * 4) with (len * 32) by lia.
  unfold padding. rewrite Hz.
  destruct (Nat.ltb_spec 0 r) as [Hsome | Hnone].
  - destruct (Nat.ltb_spec (S r) 15) as [Hroom | Hfull].
    + destruct (Nat.leb_spec r 13) as [_ | Hbad]; [| lia].
      cbv beta iota zeta. cbn [snd]. f_equal. rewrite hash_words_eq.
      rewrite chunks_of_one
        by (rewrite !length_app, length_map, length_seq, repeat_length;
            cbn [length]; lia).
      rewrite fold_left_cons. cbn [fold_left].
      apply last_block_with_size; [exact W1 | lia].
    + destruct (Nat.leb_spec r 13) as [Hbad | _]; [lia |].
      cbv beta iota zeta. cbn [snd]. f_equal. rewrite hash_words_eq.
      destruct (last_block_without_size sd1 src (16 * q) r W1 ltac:(lia))
        as [Hh Hw].
      rewrite additional_block_plain_compress by exact Hw.
      rewrite Hh.
      replace (map (fun i => u32 (nth i src 0)) (seq (16 * q) r)
               ++ [2147483648] ++ repeat 0 (29 - r) ++ [0; u32 (len * 32)])
        with ((map (fun i => u32 (nth i src 0)) (seq (16 * q) r)
               ++ [2147483648] ++ repeat 0 (15 - r))
              ++ (repeat 0 14 ++ [0; u32 (len * 32)])).
      2: { rewrite <- !app_assoc. do 2 f_equal.
           replace (29 - r)%nat with ((15 - r) + 14)%nat by lia.
           rewrite repeat_app, <- app_assoc. reflexivity. }
      rewrite chunks_of_two
        by (rewrite ?length_app, ?length_map, ?length_seq, ?repeat_length;
            cbn [length]; lia).
      rewrite !fold_left_cons. reflexivity.
  - assert (r = 0%nat) as Hr0 by lia. rewrite Hr0.
    cbv beta iota zeta. cbn [snd]. f_equal. rewrite hash_words_eq.
    rewrite additional_block_marker_compress by exact W1.
    change (map (fun i => u32 (nth i src 0)) (seq (16 * q) 0)) with (@nil Z).
    rewrite app_nil_l.
    rewrite chunks_of_one
      by (rewrite !length_app, repeat_length; cbn; lia).
    rewrite fold_left_cons. reflexivity.
Qed.

(** The digest of the four bytes "abcd" as one word, as any SHA-256
    gives it. *)
Example padded_digest_abcd :
  padded_digest [0x61626364]
  = [2295604847; 3571856269; 330843644; 4069087133;
     547129720; 599335293; 2749456787; 1862473097].
Proof. vm_compute. reflexivity. Qed.

End DigestFacts.

(** ** Words in byte buffers *)

Section WordFacts.

Lemma store_byte_length (buf : list Z) (i x : Z) :
  length (store_byte buf i x) = length buf.
Proof.
  unfold store_byte. destruct (i <? 0); [reflexivity | apply length_insert].
Qed.

Lemma byte_at_store_byte (buf : list Z) (i x j : Z) :
  0 <= i < Z.of_nat (length buf) ->
  byte_at (store_byte buf i x) j = if j =? i then u8 x else byte_at buf j.
Proof.
  intros Hi. unfold byte_at, store_byte.
  destruct (Z.ltb_spec i 0) as [Hneg | _]; [lia |].
  destruct (Z.ltb_spec j 0) as [Hj | Hj].
  - destruct (Z.eqb_spec j i); [lia | reflexivity].
  - destruct (Z.eqb_spec j i) as [-> | Hne].
    + apply nth_insert_same. lia.
    + rewrite !nth_lookup, list_lookup_insert_ne by lia. reflexivity.
Qed.

Lemma store_word_length (buf : list Z) (i x : Z) :
  length (store_word buf i x) = length buf.
Proof. unfold store_word. rewrite !store_byte_length. reflexivity. Qed.

Lemma store_words_length (xs : list Z) :
  forall (buf : list Z) (at_ : Z),
    length (store_words buf at_ xs) = length buf.
Proof.
  induction xs as [| x xs IH]; intros buf at_; cbn [store_words];
    [reflexivity |].
  rewrite IH. apply store_word_length.
Qed.

Lemma word_of_bytes_of_word (x : Z) :
  word_of_bytes (u8 x) (u8 (Z.shiftr x 8)) (u8 (Z.shiftr x 16))
                (u8 (Z.shiftr x 24)) = u32 x.
Proof.
  unfold word_of_bytes, u8, u32, wrap.
  rewrite !Z.shiftl_mul_pow2, !Z.shiftr_div_pow2 by lia.
  change (2 ^ 8) with 256. change (2 ^ 16) with 65536.
  change (2 ^ 24) with 16777216. change (2 ^ 32) with 4294967296.
  Z.to_euclidean_division_equations. lia.
Qed.

Lemma u8_u8 (x : Z) : u8 (u8 x) = u8 x.
Proof. unfold u8, wrap. apply Z.mod_mod. lia. Qed.

Lemma word_at_store_word (buf : list Z) (i x k : Z) :
  0 <= i -> 4 * i + 3 < Z.of_nat (length buf) ->
  word_at (store_word buf i x) k = if k =? i then u32 x else word_at buf k.
Proof.
  intros Hi Hfit. unfold word_at, store_word, bytes_of_word. cbn [nth].
  rewrite !byte_at_store_byte by (rewrite ?store_byte_length; lia).
  destruct (Z.eqb_spec k i) as [-> | Hne].
  - repeat match goal with
           | |- context [?a =? ?b] =>
               destruct (Z.eqb_spec a b); try lia
           end.
    rewrite !u8_u8. apply word_of_bytes_of_word.
  - repeat match goal with
           | |- context [?a =? ?b] =>
               destruct (Z.eqb_spec a b); try lia
           end.
Qed.

Lemma word_at_store_words (xs : list Z) :
  forall (buf : list Z) (at_ k : Z),
    0 <= at_ ->
    4 * (at_ + Z.of_nat (length xs)) <= Z.of_nat (length buf) ->
    word_at (store_words buf at_ xs) k
    = if (at_ <=? k) && (k <? at_ + Z.of_nat (length xs))
      then u32 (nth (Z.to_nat (k - at_)) xs 0)
      else word_at buf k.
Proof.
  induction xs as [| x xs IH]; intros buf at_ k Hat Hfit;
    cbn [store_words length] in *.
  - destruct (Z.leb_spec at_ k) as [Hle | Hgt]; cbn [andb];
      [| reflexivity].
    destruct (Z.ltb_spec k (at_ + Z.of_nat 0)) as [Hlt | Hge];
      [lia | reflexivity].
  - rewrite IH by (rewrite ?store_word_length; lia).
    rewrite word_at_store_word by lia.
    destruct (Z.leb_spec (at_ + 1) k) as [H1 | H1];
      destruct (Z.ltb_spec k (at_ + 1 + Z.of_nat (length xs))) as [H2 | H2];
      destruct (Z.leb_spec at_ k) as [H3 | H3];
      destruct (Z.ltb_spec k (at_ + Z.of_nat (S (length xs)))) as [H4 | H4];
      destruct (Z.eqb_spec k at_) as [H5 | H5];
      cbn [andb]; try lia; try reflexivity.
    + replace (Z.to_nat (k - at_)) with (S (Z.to_nat (k - (at_ + 1))))
        by lia. reflexivity.
    + subst k. replace (Z.to_nat (at_ - at_)) with 0%nat by lia.
      reflexivity.
Qed.

End WordFacts.

(** ** The conditioned block *)

Section DigestRange.

Lemma u32_range (x : Z) : is_u32 (u32 x).
Proof. unfold is_u32, u32, wrap. apply Z.mod_pos_bound. lia. Qed.

Lemma u32_small (x : Z) : is_u32 x -> u32 x = x.
Proof. unfold is_u32, u32, wrap. intros Hx. apply Z.mod_small. exact Hx. Qed.

Lemma hashCurrentBlock_range (s : Sha256.Sha256Data) :
  Forall is_u32 (hash_words (Sha256.sha256_hashCurrentBlock s)).
Proof.
  unfold Sha256.sha256_hashCurrentBlock.
  destruct (fold_left _ _ _) as [[[[[[[a b] c] d] e] f] g] h].
  unfold hash_words, Sha256.set_h.
  cbn [Sha256.h0 Sha256.h1 Sha256.h2 Sha256.h3 Sha256.h4 Sha256.h5
       Sha256.h6 Sha256.h7].
  repeat (constructor; [apply u32_range |]). constructor.
Qed.

Lemma w_set_length (ws : list Z) (t : nat) (x : Z) :
  length (Sha256.w_set ws t x) = length ws.
Proof. unfold Sha256.w_set. apply length_insert. Qed.

Lemma copy_words_length (ws src : list Z) (off : Z) (from upto : nat) :
  length (Sha256.copy_words ws src off from upto) = length ws.
Proof.
  unfold Sha256.copy_words.
  apply (fold_left_invariant (fun l => length l = length ws)).
  - intros a t Ha. rewrite w_set_length. exact Ha.
  - reflexivity.
Qed.

Lemma zero_words_length (ws : list Z) (from upto : nat) :
  length (Sha256.zero_words ws from upto) = length ws.
Proof.
  unfold Sha256.zero_words.
  apply (fold_left_invariant (fun l => length l = length ws)).
  - intros a t Ha. rewrite w_set_length. exact Ha.
  - reflexivity.
Qed.

Lemma hashCurrentBlock_w_length (s : Sha256.Sha256Data) :
  length (Sha256.w (Sha256.sha256_hashCurrentBlock s))
  = length (Sha256.w s).
Proof.
  unfold Sha256.sha256_hashCurrentBlock.
  destruct (fold_left _ _ _) as [[[[[[[a b] c] d] e] f] g] h].
  cbn [Sha256.w Sha256.set_h Sha256.set_w]. apply schedule_length.
Qed.

Lemma complete_blocks_w_length (src : list Z) (todo : nat) :
  forall (s : Sha256.Sha256Data) (blockNum : Z),
    length (Sha256.w (Sha256.complete_blocks s src blockNum todo))
    = length (Sha256.w s).
Proof.
  induction todo as [| todo' IH]; intros s blockNum; [reflexivity |].
  rewrite complete_blocks_step, IH, hashCurrentBlock_w_length.
  cbn [Sha256.w Sha256.set_w]. apply copy_words_length.
Qed.

Lemma additional_block_facts (s : Sha256.Sha256Data) (marker : bool)
    (size : Z) :
  length (Sha256.w (Sha256.additional_block s marker size))
  = length (Sha256.w s)
  /\ Forall is_u32 (hash_words (Sha256.additional_block s marker size)).
Proof.
  destruct marker;
    [rewrite additional_block_marker | rewrite additional_block_plain];
    (split; [| apply hashCurrentBlock_range]);
    rewrite hashCurrentBlock_w_length; cbn [Sha256.w Sha256.set_w];
    rewrite ?w_set_length, ?zero_words_length, ?w_set_length; reflexivity.
Qed.

(** What a call of [sha256_generateHash] with a message leaves behind:
    eight 32-bit words, and a schedule array of the length it had. *)
Lemma generateHash_facts (s : Sha256.Sha256Data) (src : list Z) (len : Z) :
  0 < len ->
  exists ws : list Z,
    snd (Sha256.sha256_generateHash s src len) = Some ws
    /\ length ws = 8%nat /\ Forall is_u32 ws
    /\ length (Sha256.w (snd (fst (Sha256.sha256_generateHash s src len))))
       = length (Sha256.w s).
Proof.
  intros Hpos. unfold Sha256.sha256_generateHash.
  destruct (Z.leb_spec len 0) as [Hbad | _]; [lia |].
  cbv zeta.
  set (sd1 := Sha256.complete_blocks _ src 0 _).
  assert (W1 : length (Sha256.w sd1) = length (Sha256.w s)).
  { unfold sd1. rewrite complete_blocks_w_length. reflexivity. }
  destruct (0 <? _)%nat; [destruct (S _ <? 15)%nat |];
    cbv beta iota zeta; cbn [fst snd];
    (eexists; split; [reflexivity |]; split; [reflexivity |]);
    rewrite hash_words_eq.
  - split; [apply hashCurrentBlock_range |].
    rewrite hashCurrentBlock_w_length. cbn [Sha256.w Sha256.set_w].
    rewrite !w_set_length, zero_words_length, w_set_length,
      copy_words_length. exact W1.
  - destruct (additional_block_facts
                (Sha256.sha256_hashCurrentBlock
                   (Sha256.set_w sd1
                      (Sha256.w_set
                         (Sha256.w_set
                            (Sha256.copy_words (Sha256.w sd1) src
                               (len / Sha256.maxDataBlockSizeWords
                                * Sha256.maxDataBlockSizeWords) 0
                               (Z.to_nat (len mod Sha256.maxDataBlockSizeWords)))
                            (Z.to_nat (len mod Sha256.maxDataBlockSizeWords))
                            2147483648)
                         (S (Z.to_nat (len mod Sha256.maxDataBlockSizeWords)))
                         0)))
                false (len * 8 * 4)) as [Hw Hr].
    split; [exact Hr |]. rewrite Hw, hashCurrentBlock_w_length.
    cbn [Sha256.w Sha256.set_w].
    rewrite !w_set_length, copy_words_length. exact W1.
  - destruct (additional_block_facts sd1 true (len * 8 * 4)) as [Hw Hr].
    split; [exact Hr |]. rewrite Hw. exact W1.
Qed.

(** X22.  [sha256_generateHash] refuses a message of no words with -1,
    leaving [sd] alone and storing nothing; for any other length it
    returns 0 with eight words, each within 32 bits, and leaves the
    serial number and the size of the schedule array as they were. *)
Theorem generateHash_outcome (s : Sha256.Sha256Data) (src : list Z)
    (len : Z) :
  let '(retval, s', digest) := Sha256.sha256_generateHash s src len in
  (if len <=? 0
   then retval = -1 /\ s' = s /\ digest = None
   else retval = 0
        /\ exists ws : list Z,
             digest = Some ws /\ length ws = 8%nat /\ Forall is_u32 ws)
  /\ Sha256.blockSerialNumber s' = Sha256.blockSerialNumber s
  /\ length (Sha256.w s') = length (Sha256.w s).
Proof.
  pose proof (generateHash_status s src len) as Hret.
  pose proof (generateHash_serial s src len) as Hser.
  destruct (Z.leb_spec len 0) as [Hle | Hpos].
  - unfold Sha256.sha256_generateHash.
    destruct (Z.leb_spec len 0) as [_ | Hbad]; [| lia].
    repeat split.
  - destruct (generateHash_facts s src len Hpos)
      as (ws & Hws & Hlen & Hrange & Hw).
    destruct (Sha256.sha256_generateHash s src len) as [[retval s'] digest].
    cbn [fst snd] in *.
    split; [| split; assumption].
    split; [exact Hret |]. exists ws. repeat split; assumption.
Qed.

End DigestRange.

Section ConditioningFacts.
Context `{Header}.

Lemma insert_fold_nth (f : nat -> Z) (n : nat) :
  forall (a : nat) (l : list Z) (k : nat),
    (a + n <= length l)%nat ->
    nth k (fold_left (fun acc j => <[j := f j]> acc) (seq a n) l) 0
    = if (a <=? k)%nat && (k <? a + n)%nat then f k else nth k l 0.
Proof.
  induction n as [| n' IH]; intros a l k Hfit; cbn [seq fold_left].
  - destruct (Nat.leb_spec a k), (Nat.ltb_spec k (a + 0)); cbn [andb];
      try reflexivity; lia.
  - rewrite IH by (rewrite length_insert; lia).
    destruct (Nat.leb_spec (S a) k), (Nat.ltb_spec k (S a + n')),
      (Nat.leb_spec a k), (Nat.ltb_spec k (a + S n')); cbn [andb];
      try lia; try reflexivity;
      try (rewrite !nth_lookup, list_lookup_insert_ne by lia; reflexivity);
      assert (k = a) as -> by lia; apply nth_insert_same; lia.
Qed.

Lemma load_subblock_nth (rnd src : list Z) (i : Z) (k : nat) :
  (Z.to_nat MIN_INPUT_NUM_WORDS <= length src)%nat ->
  (k < Z.to_nat MIN_INPUT_NUM_WORDS)%nat ->
  nth k (load_subblock rnd src i) 0 = word_at rnd (i + Z.of_nat k).
Proof.
  intros Hfit Hk. unfold load_subblock.
  rewrite (insert_fold_nth (fun j => word_at rnd (i + Z.of_nat j))) by lia.
  destruct (Nat.leb_spec 0 k), (Nat.ltb_spec k (0 + Z.to_nat MIN_INPUT_NUM_WORDS));
    cbn [andb]; reflexivity || lia.
Qed.

(** The words hashed in one turn of the conditioning loop. *)
Lemma stamped_message (rnd src : list Z) (i : Z) (s : Sha256.Sha256Data) :
  0 <= MIN_INPUT_NUM_WORDS ->
  length src = S (Z.to_nat MIN_INPUT_NUM_WORDS) ->
  message (snd (Sha256.sha256_stampSerialNumber s (load_subblock rnd src i)))
          (MIN_INPUT_NUM_WORDS + 1)
  = subblock_message rnd i (Sha256.blockSerialNumber s).
Proof.
  intros Hmin Hlen. unfold message, subblock_message,
    Sha256.sha256_stampSerialNumber. cbn [snd].
  replace (Z.to_nat (MIN_INPUT_NUM_WORDS + 1))
    with (Z.to_nat MIN_INPUT_NUM_WORDS + 1)%nat by lia.
  rewrite seq_app, map_app. cbn [seq map Nat.add]. f_equal.
  - apply map_ext_in. intros k Hk. apply in_seq in Hk.
    rewrite nth_lookup, list_lookup_insert_ne, <- nth_lookup by lia.
    rewrite load_subblock_nth by lia. reflexivity.
  - rewrite nth_insert_same by (rewrite load_subblock_length; lia).
    reflexivity.
Qed.

(** One turn of the conditioning loop stores the digest of its sub-block
    and serial number in the eight words at [dst], and nothing else. *)
Lemma condition_subblock_layout (st : Driver) (i dst : Z) :
  0 <= MIN_INPUT_NUM_WORDS ->
  length (srcToHash st) = S (Z.to_nat MIN_INPUT_NUM_WORDS) ->
  length (Sha256.w (sd st)) = 64%nat ->
  0 <= dst -> 4 * (dst + 8) <= Z.of_nat (length (buffTRndOut st)) ->
  let st' := condition_subblock st i dst in
  (forall k : Z,
     word_at (buffTRndOut st') k
     = if (dst <=? k) && (k <? dst + 8)
       then nth (Z.to_nat (k - dst))
                (padded_digest
                   (subblock_message (buffRndIn st) i
                      (Sha256.blockSerialNumber (sd st)))) 0
       else word_at (buffTRndOut st) k)
  /\ length (buffTRndOut st') = length (buffTRndOut st)
  /\ length (srcToHash st') = length (srcToHash st)
  /\ length (Sha256.w (sd st')) = 64%nat
  /\ buffRndIn st' = buffRndIn st
  /\ Sha256.blockSerialNumber (sd st')
     = u32 (Sha256.blockSerialNumber (sd st) + 1).
Proof.
  intros Hmin Hsrc Hw Hdst Hfit. unfold condition_subblock.
  pose proof (stamped_message (buffRndIn st) (srcToHash st) i (sd st)
                Hmin Hsrc) as Hmsg.
  assert (Hstamp : Sha256.sha256_stampSerialNumber (sd st)
             (load_subblock (buffRndIn st) (srcToHash st) i)
           = (Sha256.set_serial (sd st)
                (u32 (Sha256.blockSerialNumber (sd st) + 1)),
              snd (Sha256.sha256_stampSerialNumber (sd st)
                     (load_subblock (buffRndIn st) (srcToHash st) i))))
    by reflexivity.
  rewrite Hstamp.
  set (stamped := snd (Sha256.sha256_stampSerialNumber _ _)) in *.
  set (sd1 := Sha256.set_serial (sd st) _).
  assert (Hstamped : length stamped = length (srcToHash st)).
  { unfold stamped, Sha256.sha256_stampSerialNumber. cbn [snd].
    rewrite length_insert. apply load_subblock_length. }
  assert (Hw1 : length (Sha256.w sd1) = 64%nat) by exact Hw.
  assert (Hpos : 0 < MIN_INPUT_NUM_WORDS + 1) by lia.
  pose proof (generateHash_is_padded_digest sd1 stamped
                (MIN_INPUT_NUM_WORDS + 1) Hpos Hw1) as Hdigest.
  destruct (generateHash_facts sd1 stamped (MIN_INPUT_NUM_WORDS + 1) Hpos)
    as (ws & Hws & Hlen & Hrange & Hwlen).
  pose proof (generateHash_serial sd1 stamped (MIN_INPUT_NUM_WORDS + 1))
    as Hserial.
  destruct (Sha256.sha256_generateHash sd1 stamped (MIN_INPUT_NUM_WORDS + 1))
    as [[ret sd2] digest].
  cbn [fst snd] in Hdigest, Hws, Hwlen, Hserial.
  rewrite Hws in Hdigest. injection Hdigest as Hdigest.
  rewrite Hmsg in Hdigest. rewrite Hws.
  cbn [buffTRndOut srcToHash sd buffRndIn set_conditioned].
  split; [| split; [apply store_words_length |
            split; [exact Hstamped |
            split; [rewrite Hwlen; exact Hw1 |
            split; [reflexivity | exact Hserial]]]]].
  intros k. rewrite word_at_store_words by (rewrite ?Hlen; lia).
  rewrite Hlen. change (Z.of_nat 8) with 8.
  destruct ((dst <=? k) && (k <? dst + 8)) eqn:Hin; [| reflexivity].
  rewrite <- Hdigest. apply u32_small.
  apply andb_prop in Hin. destruct Hin as [H1 H2].
  apply Z.leb_le in H1. apply Z.ltb_lt in H2.
  rewrite List.Forall_forall in Hrange. apply Hrange. apply nth_In. lia.
Qed.

Lemma subblock_message_serial (rnd : list Z) (i a b : Z) :
  u32 a = u32 b -> subblock_message rnd i a = subblock_message rnd i b.
Proof. unfold subblock_message. intros ->. reflexivity. Qed.

Lemma condition_loop_step (todo : nat) (i dst : Z) (st : Driver) :
  i < Z.quot RND_IN_BUFFSIZE WORD_SIZE_BYTES ->
  condition_loop (S todo) i dst st
  = condition_loop todo (i + MIN_INPUT_NUM_WORDS) (dst + OUT_NUM_WORDS)
                   (condition_subblock st i dst)
  /\ condition_turns (S todo) i
     = S (condition_turns todo (i + MIN_INPUT_NUM_WORDS)).
Proof.
  intros Hi. cbn [condition_loop condition_turns].
  destruct (Z.ltb_spec i (Z.quot RND_IN_BUFFSIZE WORD_SIZE_BYTES));
    [split; reflexivity | lia].
Qed.

Lemma condition_loop_stop (todo : nat) (i dst : Z) (st : Driver) :
  Z.quot RND_IN_BUFFSIZE WORD_SIZE_BYTES <= i ->
  condition_loop todo i dst st = st /\ condition_turns todo i = 0%nat.
Proof.
  intros Hi. destruct todo as [| todo'];
    cbn [condition_loop condition_turns]; [split; reflexivity |].
  destruct (Z.ltb_spec i (Z.quot RND_IN_BUFFSIZE WORD_SIZE_BYTES));
    [lia | split; reflexivity].
Qed.

(** The conditioning loop lays the digests of the sub-blocks side by
    side, [OUT_NUM_WORDS] words apart. *)
Lemma condition_loop_layout (todo : nat) :
  0 <= MIN_INPUT_NUM_WORDS -> 8 <= OUT_NUM_WORDS ->
  forall (i dst : Z) (st : Driver),
    length (srcToHash st) = S (Z.to_nat MIN_INPUT_NUM_WORDS) ->
    length (Sha256.w (sd st)) = 64%nat ->
    0 <= dst ->
    4 * (dst + OUT_NUM_WORDS * Z.of_nat (condition_turns todo i))
      <= Z.of_nat (length (buffTRndOut st)) ->
    (forall (j : nat) (k : Z),
       (j < condition_turns todo i)%nat -> 0 <= k < 8 ->
       word_at (buffTRndOut (condition_loop todo i dst st))
               (dst + OUT_NUM_WORDS * Z.of_nat j + k)
       = nth (Z.to_nat k)
             (padded_digest
                (subblock_message (buffRndIn st)
                   (i + MIN_INPUT_NUM_WORDS * Z.of_nat j)
                   (Sha256.blockSerialNumber (sd st) + Z.of_nat j))) 0)
    /\ (forall m : Z,
          m < dst ->
          word_at (buffTRndOut (condition_loop todo i dst st)) m
          = word_at (buffTRndOut st) m)
    /\ length (buffTRndOut (condition_loop todo i dst st))
       = length (buffTRndOut st).
Proof.
  intros Hmin Hout.
  induction todo as [| todo' IH]; intros i dst st Hsrc Hw Hdst Hfit.
  { cbn [condition_loop condition_turns].
    split; [intros j k Hj; lia | split; reflexivity]. }
  destruct (Z.lt_ge_cases i (Z.quot RND_IN_BUFFSIZE WORD_SIZE_BYTES))
    as [Hi | Hi].
  2: { destruct (condition_loop_stop (S todo') i dst st Hi) as [-> ->].
       split; [intros j k Hj; lia | split; reflexivity]. }
  destruct (condition_loop_step todo' i dst st Hi) as [Hloop Hturns].
  rewrite Hloop. rewrite Hturns in *.
  set (turns := condition_turns todo' (i + MIN_INPUT_NUM_WORDS)) in *.
  assert (Hroom : 0 <= OUT_NUM_WORDS * Z.of_nat turns) by nia.
  assert (Hfit1 : 4 * (dst + 8) <= Z.of_nat (length (buffTRndOut st)))
    by nia.
  destruct (condition_subblock_layout st i dst Hmin Hsrc Hw Hdst Hfit1)
    as (Hone & Hlen1 & Hsrc1 & Hw1 & Hrnd1 & Hser1).
  set (st1 := condition_subblock st i dst) in *.
  assert (Hsrc' : length (srcToHash st1) = S (Z.to_nat MIN_INPUT_NUM_WORDS))
    by congruence.
  assert (Hdst' : 0 <= dst + OUT_NUM_WORDS) by lia.
  assert (Hfit' : 4 * (dst + OUT_NUM_WORDS + OUT_NUM_WORDS * Z.of_nat turns)
                  <= Z.of_nat (length (buffTRndOut st1)))
    by (rewrite Hlen1; nia).
  destruct (IH (i + MIN_INPUT_NUM_WORDS) (dst + OUT_NUM_WORDS) st1
              Hsrc' Hw1 Hdst' Hfit')
    as (Hrest & Hframe & Hlen).
  fold turns in Hrest.
  split; [| split].
  - intros j k Hj Hk. destruct j as [| j'].
    + replace (dst + OUT_NUM_WORDS * Z.of_nat 0 + k) with (dst + k) by lia.
      rewrite Hframe by lia. rewrite Hone.
      destruct (Z.leb_spec dst (dst + k)) as [_ | Hbad]; [| lia].
      destruct (Z.ltb_spec (dst + k) (dst + 8)) as [_ | Hbad]; [| lia].
      cbn [andb].
      replace (dst + k - dst) with k by lia.
      replace (i + MIN_INPUT_NUM_WORDS * Z.of_nat 0) with i by lia.
      erewrite subblock_message_serial; [reflexivity |].
      f_equal. lia.
    + replace (dst + OUT_NUM_WORDS * Z.of_nat (S j') + k)
        with (dst + OUT_NUM_WORDS + OUT_NUM_WORDS * Z.of_nat j' + k) by lia.
      assert (Hj' : (j' < turns)%nat) by lia.
      rewrite (Hrest j' k Hj' Hk). rewrite Hrnd1, Hser1.
      replace (i + MIN_INPUT_NUM_WORDS + MIN_INPUT_NUM_WORDS * Z.of_nat j')
        with (i + MIN_INPUT_NUM_WORDS * Z.of_nat (S j')) by lia.
      erewrite subblock_message_serial; [reflexivity |].
      unfold u32, wrap. rewrite Z.add_mod_idemp_l by lia.
      f_equal. lia.
  - intros m Hm. rewrite Hframe by lia. rewrite Hone.
    destruct (Z.leb_spec dst m) as [Hbad | _]; [lia | reflexivity].
  - rewrite Hlen. exact Hlen1.
Qed.

(** X23.  A refill whose exchange succeeds leaves in the conditioned block,
    for each sub-block of the raw block in turn, the SHA-256 digest of
    the words of that sub-block followed by the serial number of the
    turn: eight words every [OUT_NUM_WORDS], the [j]-th made from the
    raw words at [MIN_INPUT_NUM_WORDS * j] and the serial number advanced
    by [j]. *)
Theorem refill_conditions_every_subblock (st : Driver) (wd : World)
    (j : nat) (k : Z) :
  isEntropySrcRdy st = true -> isShutDown st = false ->
  exchange_status st wd = SUCCESS ->
  0 < MIN_INPUT_NUM_WORDS -> 8 <= OUT_NUM_WORDS ->
  length (srcToHash st) = S (Z.to_nat MIN_INPUT_NUM_WORDS) ->
  length (Sha256.w (sd st)) = 64%nat ->
  4 * (OUT_NUM_WORDS
       * Z.of_nat (condition_turns
                     (Z.to_nat (Z.quot RND_IN_BUFFSIZE WORD_SIZE_BYTES)) 0))
    <= Z.of_nat (length (buffTRndOut st)) ->
  (j < condition_turns
         (Z.to_nat (Z.quot RND_IN_BUFFSIZE WORD_SIZE_BYTES)) 0)%nat ->
  0 <= k < 8 ->
  let st' := snd (fst (rcv_rnd_bytes st wd)) in
  word_at (buffTRndOut st') (OUT_NUM_WORDS * Z.of_nat j + k)
  = nth (Z.to_nat k)
        (padded_digest
           (subblock_message (buffRndIn st')
              (MIN_INPUT_NUM_WORDS * Z.of_nat j)
              (Sha256.blockSerialNumber (sd st) + Z.of_nat j))) 0.
Proof.
  intros Hrdy Hup Hok Hmin Hout Hsrc Hw Hfit Hj Hk.
  unfold exchange_status in Hok. unfold rcv_rnd_bytes.
  rewrite Hrdy, Hup. cbn [negb orb].
  destruct (request_raw_block _ wd) as [[retval rnd] wd1].
  cbn [fst] in Hok. subst retval. cbn [Z.eqb SUCCESS].
  set (st3 := set_tests _ _ _).
  set (n := Z.to_nat (Z.quot RND_IN_BUFFSIZE WORD_SIZE_BYTES)) in *.
  assert (Hmin0 : 0 <= MIN_INPUT_NUM_WORDS) by lia.
  destruct (condition_loop_layout n Hmin0 Hout 0 0 st3 Hsrc Hw
              (Z.le_refl 0) Hfit) as (Hwords & _ & _).
  pose proof (condition_loop_frame n 0 0 st3) as (_ & _ & _ & Hrnd & _).
  set (st4 := condition_loop n 0 0 st3) in *.
  pose proof (sample_loop_frame (set_cursor st4 0)) as (Hbuf & _).
  pose proof (sample_loop_flags (set_cursor st4 0)) as (_ & _ & _ & _ & Hin).
  cbv zeta. cbn [fst snd buffTRndOut buffRndIn set_pending].
  rewrite Hbuf, Hin. cbn [buffTRndOut buffRndIn set_cursor].
  rewrite Hrnd. specialize (Hwords j k Hj Hk).
  replace (0 + OUT_NUM_WORDS * Z.of_nat j + k)
    with (OUT_NUM_WORDS * Z.of_nat j + k) in Hwords by lia.
  replace (0 + MIN_INPUT_NUM_WORDS * Z.of_nat j)
    with (MIN_INPUT_NUM_WORDS * Z.of_nat j) in Hwords by lia.
  exact Hwords.
Qed.

End ConditioningFacts.

(** ** Unloading *)

Section Unloading.
Context `{Header}.

(** X24.  Once [exit_tlrandom] has set its flags every entry point is
    closed: an open and a read are refused with [- ENODATA] (a read with
    [- EPERM] when the wait for the mutex is killed), a probe and a
    refill with [- EPERM], and none of them changes [usbData], the wire
    or the entropy state. *)
Theorem unload_closes_every_entry (st : Driver) (ud : option UsbData)
    (pl : Plug) (wd : World) (major minor length_ : Z) :
  let st' := exit_tlrandom_flags st in
  device_open st' major minor major minor = - ENODATA
  /\ usb_probe st' ud pl = (- EPERM, st', ud)
  /\ rcv_rnd_bytes st' wd = (- EPERM, st', wd)
  /\ device_read st' wd length_
     = Some (if lock_killed wd then (- EPERM, st', wd)
             else (- ENODATA, set_pending st' false (isUsbOpPending st'), wd)).
Proof.
  cbv zeta. split; [| split; [| split]].
  - unfold device_open. rewrite !Z.eqb_refl. reflexivity.
  - unfold usb_probe. destruct (plug_lock_killed pl); [reflexivity |].
    cbn [isEntropySrcRdy isShutDown exit_tlrandom_flags orb].
    destruct ud; reflexivity.
  - reflexivity.
  - unfold device_read. destruct (lock_killed wd); reflexivity.
Qed.

End Unloading.

(** ** The further properties, on the bench *)

Lemma rct_state_invariant_witness :
  Health.rct_curRepetitions
    (fold_left rct_apply [Sample 7; Sample 7; Restart; Sample 3]
               Health.rct_initialize) <= 4.
Proof.
  destruct (@rct_state_invariant bench [Sample 7; Sample 7; Restart; Sample 3]
              ltac:(by_computation)) as (_ & _ & _ & [_ Hmost] & _).
  exact Hmost.
Defined.

Lemma rct_run_counts_failures_witness :
  Health.rct_failureCount
    (fold_left Health.rct_sample (repeat 7 9)
               (Health.rct_restart Health.rct_initialize)) = 2.
Proof.
  destruct (@rct_run_counts_failures bench Health.rct_initialize 7 9
              ltac:(by_computation) ltac:(by_computation)
              ltac:(lia) ltac:(by_computation))
    as (Hfails & _).
  exact Hfails.
Defined.

Lemma apt_window_latch_criterion_witness :
  Health.apt_curRepetitions
    (fold_left Health.apt_sample [1; 2; 1]
       (Health.apt_sample (Health.apt_restart Health.apt_initialize) 1))
  = 2.
Proof.
  destruct (@apt_window_latch_criterion bench Health.apt_initialize 1 [1; 2; 1]
              ltac:(by_computation) ltac:(by_computation)
              ltac:(by_computation) ltac:(by_computation)
              ltac:(by_computation) ltac:(by_computation)
              ltac:(cbn; lia))
    as (Hreps & _).
  exact Hreps.
Defined.

Lemma apt_window_spans_65_samples_witness :
  Health.apt_firstSample
    (Health.apt_sample
       (fold_left Health.apt_sample (repeat 2 64)
          (Health.apt_sample (Health.apt_restart Health.apt_initialize) 1))
       9)
  = 9.
Proof.
  destruct (@apt_window_spans_65_samples bench Health.apt_initialize 1 9
              (repeat 2 64)
              ltac:(by_computation) ltac:(by_computation)
              ltac:(by_computation) ltac:(by_computation)
              ltac:(by_computation) ltac:(by_computation)
              ltac:(by_computation) ltac:(cbn; lia))
    as (_ & _ & Hnext).
  destruct (Hnext eq_refl) as (Hfirst & _). exact Hfirst.
Defined.

Lemma chip_read_data_delivers_payload_witness :
  exists consumed : list BulkIn,
    17 <= Z.of_nat (length (deframed 8 consumed)).
Proof.
  destruct (@chip_read_data_delivers_payload bench bench_ready
              (bench_world [] (answer raw_a 0) 0) (repeat 0 17) 17 5
              ltac:(by_computation) ltac:(lia) ltac:(cbn; lia)
              ltac:(by_computation))
    as (consumed & _ & Hlen & _).
  exists consumed. exact Hlen.
Defined.

Lemma chip_read_data_stays_in_bounds_witness :
  length (snd (fst (chip_read_data bench_ready
                      (bench_world [] (answer raw_a 0) 0)
                      (repeat 0 17) 17 5)))
  = 17%nat.
Proof.
  destruct (@chip_read_data_stays_in_bounds bench bench_ready
              (bench_world [] (answer raw_a 0) 0) (repeat 0 17) 17 5
              ltac:(by_computation) ltac:(lia) ltac:(cbn; lia))
    as (Hlen & _).
  exact Hlen.
Defined.

Lemma refill_samples_whole_block_witness :
  curTrngOutIdx (snd (fst (rcv_rnd_bytes bench_ready world_one_block))) = 0.
Proof.
  pose proof (@refill_samples_whole_block bench bench_ready world_one_block
                ltac:(by_computation) ltac:(by_computation)
                ltac:(by_computation)) as Hrefill.
  destruct (rcv_rnd_bytes bench_ready world_one_block) as [[retval st'] wd'].
  destruct Hrefill as (_ & _ & _ & Hcur & _). exact Hcur.
Defined.

Lemma latched_refills_fail_witness :
  fst (fst (rcv_rnd_bytes
              (snd (fst (rcv_rnd_bytes bench_ready world_weak)))
              world_one_block)) <> SUCCESS.
Proof.
  assert (Hlatched : latched (snd (fst (rcv_rnd_bytes bench_ready world_weak))))
    by (vm_compute; right; discriminate).
  destruct (@latched_refills_fail bench
              (snd (fst (rcv_rnd_bytes bench_ready world_weak)))
              world_one_block Hlatched)
    as (Hfail & _).
  exact Hfail.
Defined.

Lemma serial_moves_with_refills_witness :
  Sha256.blockSerialNumber
    (sd (snd (fst (rcv_rnd_bytes bench_ready world_one_block))))
  = 413147.
Proof.
  rewrite (@serial_moves_with_refills bench bench_ready world_one_block
             ltac:(by_computation) ltac:(by_computation)).
  vm_compute. reflexivity.
Defined.

Lemma device_read_within_block_witness :
  exists (st' : Driver) (wd' : World),
    device_read (set_cursor bench_ready 0) (bench_world [] [] 8) 8
    = Some (8, st', wd').
Proof.
  destruct (@device_read_within_block bench (set_cursor bench_ready 0)
              (bench_world [] [] 8) 8
              ltac:(by_computation) ltac:(by_computation)
              ltac:(by_computation) ltac:(lia) ltac:(by_computation)
              ltac:(by_computation) ltac:(by_computation)
              ltac:(by_computation))
    as (st' & wd' & Hread & _).
  exists st', wd'. exact Hread.
Defined.

Lemma device_read_keeps_lifecycle_witness :
  isEntropySrcRdy
    (snd (fst (default (0, bench_ready, world_one_block)
                 (device_read bench_ready world_one_block 100)))) = true
  /\ isDeviceOpPending
       (snd (fst (default (0, bench_ready, world_one_block)
                    (device_read bench_ready world_one_block 100)))) = false.
Proof.
  set (res := default (0, bench_ready, world_one_block)
                (device_read bench_ready world_one_block 100)).
  assert (Hread : device_read bench_ready world_one_block 100
                  = Some (fst (fst res), snd (fst res), snd res))
    by (vm_compute; reflexivity).
  assert (Hlock : lock_killed world_one_block = false) by by_computation.
  assert (Hwas : isEntropySrcRdy bench_ready = true) by by_computation.
  destruct (@device_read_keeps_lifecycle bench bench_ready world_one_block 100
              (fst (fst res)) (snd (fst res)) (snd res) Hread)
    as (Hrdy & _ & _ & Hpending).
  split.
  - rewrite Hrdy. exact Hwas.
  - apply Hpending. exact Hlock.
Defined.

Lemma device_read_after_refill_witness :
  exists (st' : Driver) (wd' : World),
    device_read bench_ready world_one_block 8 = Some (8, st', wd').
Proof.
  destruct (@device_read_after_refill bench bench_ready world_one_block 8
              (snd (fst (rcv_rnd_bytes
                           (set_pending bench_ready true
                              (isUsbOpPending bench_ready))
                           world_one_block)))
              (snd (rcv_rnd_bytes
                      (set_pending bench_ready true
                         (isUsbOpPending bench_ready))
                      world_one_block))
              ltac:(by_computation) ltac:(by_computation)
              ltac:(by_computation) ltac:(by_computation)
              ltac:(by_computation) ltac:(by_computation)
              ltac:(by_computation) ltac:(by_computation))
    as (st' & wd' & Hread & _).
  exists st', wd'. exact Hread.
Defined.

Lemma zero_length_read_witness :
  exists (st' : Driver) (wd' : World),
    device_read bench_ready world_one_block 0
    = Some (fst (fst (get_entropy_bytes
                        (set_pending bench_ready true
                           (isUsbOpPending bench_ready))
                        world_one_block)), st', wd').
Proof.
  destruct (@zero_length_read bench bench_ready world_one_block
              ltac:(by_computation) ltac:(by_computation)
              ltac:(by_computation) ltac:(by_computation))
    as (st' & wd' & Hread & _).
  exists st', wd'. exact Hread.
Defined.

Lemma shutdown_stops_usb_traffic_witness :
  rcv_rnd_bytes (exit_tlrandom_flags bench_ready) world_one_block
  = (- EPERM, exit_tlrandom_flags bench_ready, world_one_block).
Proof.
  destruct (@shutdown_stops_usb_traffic bench
              (exit_tlrandom_flags bench_ready) world_one_block
              [120; 16; 0] (repeat 0 17) 3 16 5 8 eq_refl)
    as (_ & _ & Hrefill & _).
  exact Hrefill.
Defined.

Lemma generateHash_is_padded_digest_witness :
  snd (Sha256.sha256_generateHash sd_loaded [1; 2; 3] 3)
  = Some (padded_digest (message [1; 2; 3] 3)).
Proof.
  apply (generateHash_is_padded_digest sd_loaded [1; 2; 3] 3);
    [lia | reflexivity].
Defined.


Lemma refill_conditions_every_subblock_witness :
  word_at (buffTRndOut (snd (fst (rcv_rnd_bytes bench_ready world_one_block))))
          (8 * 1 + 3)
  = nth 3
        (padded_digest
           (subblock_message
              (buffRndIn (snd (fst (rcv_rnd_bytes bench_ready world_one_block))))
              (2 * 1) (413145 + 1))) 0.
Proof.
  apply (@refill_conditions_every_subblock bench bench_ready world_one_block
           1%nat 3);
    by_computation.
Defined.
